(** * Knowledge graph, relevance ranking and context construction

    A shallow embedding of the in-memory entity graph (class
    [KnowledgeGraph], [src/graph/knowledgeGraph.js]), of the relevance
    ranker and section merge of the query engine (class [QueryEngine]) and
    of the context builder (class [LLMIntegration], whose [getContext] the
    module exposes), followed by the properties of these functions.

    Conventions of the embedding.
    - JavaScript strings are modelled by [string] and are taken to be
      ASCII: [toLowerCase] folds [A-Z] only.
    - JavaScript numbers that hold line numbers, lengths and budgets are
      modelled by [Z]: they are integers well below 2^53 in the program,
      where double arithmetic is exact. The two id counters of the graph
      can be set to any number by [import]; they are followed up to 2^53,
      where [++] stops counting ([increment]).
    - An exception is a value of [exn]; a function that can throw returns
      a [result], and [M] adds the answer [None] for an input outside the
      fragment of JavaScript that the model interprets.
    - A [Map] is an association list in insertion order with unique keys
      ([omap]); a [Set] of strings is a [gset string].
    - Node ids are strings, as [generateNodeId] builds them and [import]
      requires: [addNode] with a [data.id] that is truthy and no string is
      outside the model. The data of a node is a plain object. *)

From Stdlib Require Import ZArith List String Ascii Bool Lia Permutation Sorted.
From stdpp Require Import base gmap sets strings.
Import ListNotations.

Set Warnings "-register-all,-clear-no-such-hyp".

Open Scope string_scope.
Open Scope list_scope.
Open Scope Z_scope.

(* ===================================================================== *)
(** * Part I: definitions                                                 *)
(* ===================================================================== *)

(** ** JavaScript values and primitives *)

Module JS.

(** Exceptions raised by the modelled code. *)
Inductive exn : Type :=
| ReferenceError (what : string)
| TypeError (what : string)
| SyntaxError (what : string).

Inductive result (A : Type) : Type :=
| Ok (a : A)
| Throw (e : exn).
Arguments Ok {A} a.
Arguments Throw {A} e.

(** A computation of the model: [None] when the input lies outside the
    fragment of JavaScript the model interprets (a pattern the model of
    regular expressions does not cover, a field that holds a value of
    another type than the parser writes), else the outcome of the code. *)
Definition M (A : Type) : Type := option (result A).

Definition ret {A} (a : A) : M A := Some (Ok a).
Definition throw {A} (e : exn) : M A := Some (Throw e).
Definition unmodelled {A} : M A := None.

Definition bindM {A B} (m : M A) (k : A -> M B) : M B :=
  match m with
  | Some (Ok a) => k a
  | Some (Throw e) => Some (Throw e)
  | None => None
  end.

Fixpoint forM {A S} (f : S -> A -> M S) (s : S) (xs : list A) : M S :=
  match xs with
  | [] => ret s
  | x :: xs' => bindM (f s x) (fun s' => forM f s' xs')
  end.

(** *** Strings *)

Definition lower_ascii (c : ascii) : ascii :=
  let n := nat_of_ascii c in
  if (Nat.leb 65 n && Nat.leb n 90)%bool then ascii_of_nat (n + 32) else c.

(** [s.toLowerCase()] *)
Fixpoint toLowerCase (s : string) : string :=
  match s with
  | EmptyString => EmptyString
  | String c s' => String (lower_ascii c) (toLowerCase s')
  end.

(** [s.startsWith(p)] *)
Fixpoint startsWith (p s : string) : bool :=
  match p, s with
  | EmptyString, _ => true
  | String _ _, EmptyString => false
  | String a p', String b s' => Ascii.eqb a b && startsWith p' s'
  end.

(** [s.includes(p)] *)
Fixpoint includes (p s : string) : bool :=
  match s with
  | EmptyString => startsWith p EmptyString
  | String _ s' => startsWith p s || includes p s'
  end.

(** [x] occurs in [s]: what [s.includes(x)] decides. *)
Definition occurs_in (x s : string) : Prop :=
  exists a b, s = String.append a (String.append x b).

Definition strlen (s : string) : Z := Z.of_nat (String.length s).

Fixpoint take (n : nat) (s : string) : string :=
  match n, s with
  | O, _ => EmptyString
  | S _, EmptyString => EmptyString
  | S n', String c s' => String c (take n' s')
  end.

Fixpoint drop (n : nat) (s : string) : string :=
  match n, s with
  | O, _ => s
  | S _, EmptyString => EmptyString
  | S n', String _ s' => drop n' s'
  end.

(** [s.substring(0, n)]: a negative [n] counts as 0. *)
Definition substring0 (n : Z) (s : string) : string :=
  take (Z.to_nat n) s.

Definition newline : ascii := ascii_of_nat 10.

(** [s.split('\n')]: never empty, [''.split('\n')] is [['']]. *)
Fixpoint split_lines (s : string) : list string :=
  match s with
  | EmptyString => [EmptyString]
  | String c s' =>
      if Ascii.eqb c newline then EmptyString :: split_lines s'
      else match split_lines s' with
           | [] => [String c EmptyString]
           | l :: ls => String c l :: ls
           end
  end.

(** [xs.join(sep)] *)
Fixpoint join (sep : string) (xs : list string) : string :=
  match xs with
  | [] => EmptyString
  | [x] => x
  | x :: xs' => String.append x (String.append sep (join sep xs'))
  end.

(** [s.replace(p, '')] for a string pattern: the first occurrence only. *)
Fixpoint remove_first (p s : string) : string :=
  if startsWith p s then drop (String.length p) s
  else match s with
       | EmptyString => EmptyString
       | String c s' => String c (remove_first p s')
       end.

(** *** Numbers and their decimal form *)

Definition digit_char (d : Z) : ascii := ascii_of_nat (48 + Z.to_nat d).

Fixpoint digits_acc (fuel : nat) (n : Z) (acc : string) : string :=
  match fuel with
  | O => acc
  | S fuel' =>
      let acc' := String (digit_char (n mod 10)) acc in
      if n <? 10 then acc' else digits_acc fuel' (n / 10) acc'
  end.

(** The decimal digits of a natural number. *)
Definition digits (n : Z) : string :=
  digits_acc (S (Z.to_nat (Z.log2 n))) n EmptyString.

(** [String(n)] / [`${n}`] for an integer [n]. *)
Definition number_to_string (n : Z) : string :=
  if n <? 0 then String "-" (digits (- n)) else digits n.

Definition is_space (c : ascii) : bool :=
  let n := nat_of_ascii c in
  (Nat.eqb n 32 || (Nat.leb 9 n && Nat.leb n 13))%bool.

(** The value of [c] as a digit in base [radix], if it is one. *)
Definition digit_value (radix : Z) (c : ascii) : option Z :=
  let n := Z.of_nat (nat_of_ascii c) in
  let v := if (48 <=? n) && (n <=? 57) then Some (n - 48)
           else if (97 <=? n) && (n <=? 122) then Some (n - 87)
           else if (65 <=? n) && (n <=? 90) then Some (n - 55)
           else None in
  match v with
  | Some d => if d <? radix then Some d else None
  | None => None
  end.

(** The longest prefix of digits, read left to right. *)
Fixpoint parse_digits (radix : Z) (acc : option Z) (s : string) : option Z :=
  match s with
  | EmptyString => acc
  | String c s' =>
      match digit_value radix c with
      | Some d =>
          parse_digits radix
            (Some (match acc with Some a => a * radix + d | None => d end)) s'
      | None => acc
      end
  end.

Fixpoint trim_start (s : string) : string :=
  match s with
  | String c s' => if is_space c then trim_start s' else s
  | EmptyString => EmptyString
  end.

(** [parseInt(s)] with no radix argument; [None] is [NaN]. *)
Definition parseInt (s : string) : option Z :=
  let s1 := trim_start s in
  let '(sign, s2) :=
    match s1 with
    | String "-" r => (-1, r)
    | String "+" r => (1, r)
    | _ => (1, s1)
    end in
  let '(radix, s3) :=
    match s2 with
    | String "0" (String "x" r) => (16, r)
    | String "0" (String "X" r) => (16, r)
    | _ => (10, s2)
    end in
  match parse_digits radix None s3 with
  | Some v => Some (sign * v)
  | None => None
  end.

(** [x || 0] for a number [x]: [NaN] and [0] are falsy. *)
Definition or_zero (x : option Z) : Z := match x with Some v => v | None => 0 end.

(** *** Arrays *)

(** The index an argument of [slice] denotes in an array of length [len]. *)
Definition rel_index (len i : Z) : Z :=
  if i <? 0 then Z.max (len + i) 0 else Z.min i len.

(** [xs.slice(a, b)] *)
Definition slice {A} (a b : Z) (xs : list A) : list A :=
  let len := Z.of_nat (List.length xs) in
  let from := rel_index len a in
  let to := rel_index len b in
  firstn (Z.to_nat (to - from)) (skipn (Z.to_nat from) xs).

(** [xs.sort(cmp)]: the sort is stable (ECMAScript 2019); insertion from
    the right keeps equal elements in their original order. *)
Fixpoint insert_by {A} (cmp : A -> A -> Z) (x : A) (xs : list A) : list A :=
  match xs with
  | [] => [x]
  | y :: ys => if 0 <? cmp x y then y :: insert_by cmp x ys else x :: y :: ys
  end.

Fixpoint sort {A} (cmp : A -> A -> Z) (xs : list A) : list A :=
  match xs with
  | [] => []
  | x :: xs' => insert_by cmp x (sort cmp xs')
  end.

End JS.

Import JS.

(** ** Line ranges and their merge *)

(** [{ start, end }] of the context builder and
    [{ start, end, matchLine }] of the query engine. *)
Record Range : Type := mkRange {
  start : Z;
  end_ : Z;
  matchLine : option Z
}.

Definition range (a b : Z) : Range := mkRange a b None.

(** [last.end = Math.max(last.end, current.end)] *)
Definition extend (last current : Range) : Range :=
  mkRange (start last) (Z.max (end_ last) (end_ current)) (matchLine last).

(** The loop shared by the two merges. The array [merged] is kept as its
    elements but the last ([done]) and its last element ([last]), which
    the loop updates in place. *)
Fixpoint coalesce_loop (slack : Z) (done : list Range) (last : Range)
  (rest : list Range) : list Range :=
  match rest with
  | [] => done ++ [last]
  | current :: rest' =>
      if start current <=? end_ last + slack
      then coalesce_loop slack done (extend last current) rest'
      else coalesce_loop slack (done ++ [last]) current rest'
  end.

(** The merge as the specification words it: sort by start line, then
    coalesce a range into the previous one when its start is at most the
    previous end plus [slack]. *)
Module MergeSpec.

Fixpoint coalesce_from (slack : Z) (prev : Range) (rest : list Range)
  : list Range :=
  match rest with
  | [] => [prev]
  | next :: rest' =>
      if start next <=? end_ prev + slack
      then coalesce_from slack (extend prev next) rest'
      else prev :: coalesce_from slack next rest'
  end.

Definition merge (slack : Z) (ranges : list Range) : list Range :=
  match sort (fun a b => start a - start b) ranges with
  | [] => []
  | r :: rest => coalesce_from slack r rest
  end.

(** Consecutive ranges are further apart than the slack. *)
Fixpoint separated (slack : Z) (rs : list Range) : Prop :=
  match rs with
  | a :: ((b :: _) as rest) => end_ a + slack < start b /\ separated slack rest
  | _ => True
  end.

End MergeSpec.

(** ** JSON values and [JSON.stringify] *)

Module Json.

Inductive json : Type :=
| JUndefined
| JNull
| JBool (b : bool)
| JNum (n : Z)
| JStr (s : string)
| JArr (items : list json)
| JObj (fields : list (string * json)).

(** A plain object: its own enumerable properties in creation order. *)
Definition object : Type := list (string * json).

(** [o[k]]; a missing property reads as [undefined]. *)
Fixpoint prop (k : string) (o : object) : json :=
  match o with
  | [] => JUndefined
  | (k', v) :: o' => if String.eqb k k' then v else prop k o'
  end.

(** [o[k] = v]: an existing property keeps its place. *)
Fixpoint set_prop (k : string) (v : json) (o : object) : object :=
  match o with
  | [] => [(k, v)]
  | (k', v') :: o' =>
      if String.eqb k k' then (k, v) :: o' else (k', v') :: set_prop k v o'
  end.

(** Truthiness of a value in a condition. *)
Definition truthy (v : json) : bool :=
  match v with
  | JUndefined | JNull => false
  | JBool b => b
  | JNum n => negb (n =? 0)
  | JStr s => negb (String.eqb s EmptyString)
  | JArr _ | JObj _ => true
  end.

(** A property that holds a non-empty string; any other value reads as
    absent: the fields read this way ([path], [file], [raw], [name],
    [type]) hold strings wherever the parser fills them. *)
Definition str_prop (k : string) (o : object) : option string :=
  match prop k o with
  | JStr s => if String.eqb s EmptyString then None else Some s
  | _ => None
  end.

Definition hex_digit (n : nat) : ascii :=
  if Nat.ltb n 10 then ascii_of_nat (48 + n) else ascii_of_nat (87 + n).

(** One character inside a JSON string literal. *)
Definition escape_char (c : ascii) : string :=
  let n := nat_of_ascii c in
  if Nat.eqb n 34 then String "\" (String c EmptyString)
  else if Nat.eqb n 92 then "\\"
  else if Nat.eqb n 8 then "\b"
  else if Nat.eqb n 12 then "\f"
  else if Nat.eqb n 10 then "\n"
  else if Nat.eqb n 13 then "\r"
  else if Nat.eqb n 9 then "\t"
  else if Nat.ltb n 32
       then String.append "\u00"
              (String (hex_digit (Nat.div n 16))
                 (String (hex_digit (Nat.modulo n 16)) EmptyString))
       else String c EmptyString.

Fixpoint escape (s : string) : string :=
  match s with
  | EmptyString => EmptyString
  | String c s' => String.append (escape_char c) (escape s')
  end.

Definition dquote : ascii := ascii_of_nat 34.

Definition quote (s : string) : string :=
  String dquote (String.append (escape s) (String dquote EmptyString)).

(** [JSON.stringify(v)]. [undefined] prints as [null] inside an array and
    a property that holds [undefined] is left out of its object. *)
Fixpoint stringify (v : json) : string :=
  match v with
  | JUndefined => "null"
  | JNull => "null"
  | JBool true => "true"
  | JBool false => "false"
  | JNum n => number_to_string n
  | JStr s => quote s
  | JArr items =>
      String.append "[" (String.append (join "," (map stringify items)) "]")
  | JObj fields =>
      String.append "{"
        (String.append
           (join ","
              (flat_map
                 (fun kv : string * json =>
                    let (k, v') := kv in
                    match v' with
                    | JUndefined => @nil string
                    | _ => [String.append (quote k)
                              (String.append ":" (stringify v'))]
                    end) fields))
           "}")
  end.

End Json.

Import Json.

(** ** Regular expressions: the fragment the search builds

    [new RegExp(`\\b${q}\\b`, 'g')] splices the query into the pattern
    unescaped. The model covers the patterns made of literal characters,
    [.], [\b] and escaped punctuation, and the patterns that cannot be
    compiled because a group or a class is never closed; [compile] answers
    [None] on any other pattern, which the model does not interpret. *)

Module Regex.

Inductive atom : Type :=
| Lit (c : ascii)
| AnyChar
| WordBoundary.

Definition is_alnum (c : ascii) : bool :=
  let n := nat_of_ascii c in
  ((Nat.leb 48 n && Nat.leb n 57) || (Nat.leb 65 n && Nat.leb n 90)
   || (Nat.leb 97 n && Nat.leb n 122))%bool.

(** The class [\w]. *)
Definition is_word (c : ascii) : bool :=
  (is_alnum c || Ascii.eqb c "_")%bool.

(** Characters with a meaning of their own in a pattern. *)
Definition is_syntax_char (c : ascii) : bool :=
  existsb (Ascii.eqb c)
    ["^"; "$"; "\"; "."; "*"; "+"; "?"; "("; ")"; "["; "]"; "{"; "}"; "|"]%char.

Fixpoint has_char (c : ascii) (s : string) : bool :=
  match s with
  | EmptyString => false
  | String c' s' => (Ascii.eqb c c' || has_char c s')%bool
  end.

(** [new RegExp(pattern)]: [Some (Ok atoms)] for a pattern of the
    fragment, [Some (Throw _)] where the constructor raises a
    [SyntaxError], [None] for a pattern outside the model. *)
Fixpoint compile (pattern : string) : option (result (list atom)) :=
  match pattern with
  | EmptyString => Some (Ok [])
  | String c rest =>
      let cons_atom a r :=
        match compile r with
        | Some (Ok atoms) => Some (Ok (a :: atoms))
        | other => other
        end in
      if Ascii.eqb c "\" then
        match rest with
        | EmptyString => Some (Throw (SyntaxError "\ at end of pattern"))
        | String e rest' =>
            if Ascii.eqb e "b" then cons_atom WordBoundary rest'
            else if is_alnum e then None
            else cons_atom (Lit e) rest'
        end
      else if Ascii.eqb c "." then cons_atom AnyChar rest
      else if Ascii.eqb c "(" then
        if has_char ")" rest then None
        else Some (Throw (SyntaxError "Unterminated group"))
      else if Ascii.eqb c ")" then
        Some (Throw (SyntaxError "Unmatched ')'"))
      else if Ascii.eqb c "[" then
        if has_char "]" rest then None
        else Some (Throw (SyntaxError "Unterminated character class"))
      else if is_syntax_char c then None
      else cons_atom (Lit c) rest
  end.

Definition is_line_terminator (c : ascii) : bool :=
  (Ascii.eqb c (ascii_of_nat 10) || Ascii.eqb c (ascii_of_nat 13))%bool.

Definition word_before (prev : option ascii) : bool :=
  match prev with Some c => is_word c | None => false end.

Definition word_after (s : string) : bool :=
  match s with String c _ => is_word c | EmptyString => false end.

(** A match of [atoms] at the head of [s], where [prev] is the character
    before it: the number of characters matched. *)
Fixpoint match_here (atoms : list atom) (prev : option ascii) (s : string)
  : option nat :=
  match atoms with
  | [] => Some O
  | Lit c :: atoms' =>
      match s with
      | String c' s' =>
          if Ascii.eqb c c'
          then option_map S (match_here atoms' (Some c') s')
          else None
      | EmptyString => None
      end
  | AnyChar :: atoms' =>
      match s with
      | String c' s' =>
          if is_line_terminator c' then None
          else option_map S (match_here atoms' (Some c') s')
      | EmptyString => None
      end
  | WordBoundary :: atoms' =>
      if Bool.eqb (word_before prev) (word_after s) then None
      else match_here atoms' prev s
  end.

(** [(s.match(re) || []).length] for a global [re]: matches are looked
    for from left to right, each search resuming where the last match
    ended, one character further after an empty match. [skip] counts the
    characters still covered by the last match. *)
Fixpoint count_from (atoms : list atom) (prev : option ascii) (s : string)
  (skip : nat) : nat :=
  match s with
  | EmptyString =>
      match skip, match_here atoms prev EmptyString with
      | O, Some _ => 1%nat
      | _, _ => O
      end
  | String c s' =>
      match skip with
      | S k => count_from atoms (Some c) s' k
      | O =>
          match match_here atoms prev s with
          | Some n => S (count_from atoms (Some c) s' (Nat.pred n))
          | None => count_from atoms (Some c) s' O
          end
      end
  end.

Definition count_matches (atoms : list atom) (s : string) : nat :=
  count_from atoms None s O.

End Regex.

(** ** The entity graph store ([KnowledgeGraph]) *)

(** An insertion-ordered [Map] with string keys. *)
Module OMap.

Definition omap (V : Type) : Type := list (string * V).

Fixpoint get {V} (k : string) (m : omap V) : option V :=
  match m with
  | [] => None
  | (k', v) :: m' => if String.eqb k k' then Some v else get k m'
  end.

Definition has {V} (k : string) (m : omap V) : bool :=
  match get k m with Some _ => true | None => false end.

(** [m.set(k, v)]: an existing key keeps its place. *)
Fixpoint set {V} (k : string) (v : V) (m : omap V) : omap V :=
  match m with
  | [] => [(k, v)]
  | (k', v') :: m' =>
      if String.eqb k k' then (k, v) :: m' else (k', v') :: set k v m'
  end.

Definition keys {V} (m : omap V) : list string := map fst m.
Definition values {V} (m : omap V) : list V := map snd m.

End OMap.

Import OMap.

Module KnowledgeGraph.

Record Node : Type := mkNode {
  n_id : string;
  n_type : string;
  n_data : object;
  n_timestamp : string
}.

Record Edge : Type := mkEdge {
  e_id : string;
  source : string;
  target : string;
  relationship : string;
  metadata : object;
  e_timestamp : string
}.

(** A value of the map [this.edges]: an edge under its id, or the array
    of the edges that leave a node under the id of that node. *)
Inductive EdgeEntry : Type :=
| EdgeObject (e : Edge)
| EdgeArray (es : list Edge).

(** The state of a [KnowledgeGraph]. The two counters are doubles in the
    code. A counter of the model is the counter of the code while it is
    at most [2^53]; a larger one stands for a double of at least [2^53]
    that [import] has read from an id ([parseInt] rounds, and [Math.max]
    keeps the order), and from which the model issues no id. *)
Record Graph : Type := mkGraph {
  nodes : omap Node;
  edges : omap EdgeEntry;
  repositories : omap string;
  nodeIdCounter : Z;
  edgeIdCounter : Z
}.

(** [constructor()] and the state after [clear()]. *)
Definition empty : Graph := mkGraph [] [] [] 0 0.

Definition clear (g : Graph) : Graph := empty.

Definition node_id_of (n : Z) : string := String.append "node_" (number_to_string n).
Definition edge_id_of (n : Z) : string := String.append "edge_" (number_to_string n).

(** [2^53]: up to it every integer is a double. *)
Definition max_exact : Z := 9007199254740992.

(** [++c] for a counter [c]: the value of the counter afterwards. Below
    [2^53] the sum [c + 1] is exact. [2^53 + 1] is no double and rounds
    to [2^53] (ties go to the even significand), so [++] leaves a counter
    of [2^53] where it is. [None]: a counter the model does not follow
    (above [2^53], or negative, which no counter of the code is). *)
Definition increment (c : Z) : option Z :=
  if ((0 <=? c) && (c <? max_exact))%bool then Some (c + 1)
  else if c =? max_exact then Some c
  else None.

(** [generateNodeId()] *)
Definition generateNodeId (g : Graph) : option (string * Graph) :=
  match increment (nodeIdCounter g) with
  | Some c =>
      Some (node_id_of c,
            mkGraph (nodes g) (edges g) (repositories g) c (edgeIdCounter g))
  | None => None
  end.

(** [generateEdgeId()] *)
Definition generateEdgeId (g : Graph) : option (string * Graph) :=
  match increment (edgeIdCounter g) with
  | Some c =>
      Some (edge_id_of c,
            mkGraph (nodes g) (edges g) (repositories g) (nodeIdCounter g) c)
  | None => None
  end.

Definition with_nodes (g : Graph) (ns : omap Node) : Graph :=
  mkGraph ns (edges g) (repositories g) (nodeIdCounter g) (edgeIdCounter g).

Definition with_edges (g : Graph) (es : omap EdgeEntry) : Graph :=
  mkGraph (nodes g) es (repositories g) (nodeIdCounter g) (edgeIdCounter g).

(** [data.id || this.generateNodeId()]: a [data.id] that is truthy is
    the id, and [generateNodeId] is not called; a falsy one ([undefined],
    [null], [false], [0], the empty string) is replaced by a generated
    id. [None]: a truthy [data.id] that is no string (a number, [true],
    an array, an object), which the code takes as the key of the node,
    or a counter the model does not follow. *)
Definition node_id_for (data : object) (g : Graph) : option (string * Graph) :=
  match prop "id" data with
  | JStr id => if String.eqb id EmptyString then generateNodeId g else Some (id, g)
  | v => if truthy v then None else generateNodeId g
  end.

(** [addNode(type, data)]; [now] is the reading of the clock. *)
Definition addNode (type : string) (data : object) (now : string) (g : Graph)
  : option (string * Graph) :=
  match node_id_for data g with
  | Some (id, g1) =>
      Some (id, with_nodes g1 (set id (mkNode id type data now) (nodes g1)))
  | None => None
  end.

(** [addEdge(sourceId, targetId, relationship, metadata)]. The edge is
    stored before the array of its source is looked up; [push] on an
    entry that is an edge raises a [TypeError]. [None]: a counter the
    model does not follow. *)
Definition addEdge (sourceId targetId rel : string) (meta : object)
  (now : string) (g : Graph) : option (result string * Graph) :=
  match generateEdgeId g with
  | Some (id, g1) =>
      let edge := mkEdge id sourceId targetId rel meta now in
      let es1 := set id (EdgeObject edge) (edges g1) in
      let es2 :=
        if has sourceId es1 then es1 else set sourceId (EdgeArray []) es1 in
      Some match get sourceId es2 with
           | Some (EdgeArray l) =>
               (Ok id, with_edges g1 (set sourceId (EdgeArray (l ++ [edge])) es2))
           | _ =>
               (Throw (TypeError "this.edges.get(...).push is not a function"),
                with_edges g1 es2)
           end
  | None => None
  end.

(** [findNodesByType(type)] *)
Definition findNodesByType (g : Graph) (type : string) : list Node :=
  List.filter (fun n => String.eqb (n_type n) type) (values (nodes g)).

(** [findNodesByProperty(property, value, type)] for a string [value];
    an absent or empty [type] does not filter. *)
Definition findNodesByProperty (g : Graph) (property value : string)
  (type : option string) : list Node :=
  List.filter
    (fun n =>
       (match type with
        | Some t => String.eqb t EmptyString || String.eqb (n_type n) t
        | None => true
        end
        && match prop property (n_data n) with
           | JStr s => String.eqb s value
           | _ => false
           end)%bool)
    (values (nodes g)).

(** The edges proper among the entries of [this.edges]. *)
Definition edge_objects (es : omap EdgeEntry) : list Edge :=
  flat_map (fun kv => match snd kv with
                      | EdgeObject e => [e]
                      | EdgeArray _ => []
                      end) es.

(** [getNodeConnections(nodeId, relationship)] *)
Definition getNodeConnections (g : Graph) (nodeId : string)
  (rel : option string) : list Edge :=
  List.filter
    (fun e =>
       ((String.eqb (source e) nodeId || String.eqb (target e) nodeId)
        && match rel with
           | Some r => String.eqb r EmptyString || String.eqb (relationship e) r
           | None => true
           end)%bool)
    (edge_objects (edges g)).

(** *** Populating the graph *)

(** An operation on the graph that may throw: the outcome and the state
    it leaves, or [None] outside the modelled fragment. *)
Definition Op (A : Type) : Type := Graph -> option (result A * Graph).

Definition op_ret {A} (a : A) : Op A := fun g => Some (Ok a, g).

Definition op_bind {A B} (m : Op A) (k : A -> Op B) : Op B :=
  fun g =>
    match m g with
    | Some (Ok a, g') => k a g'
    | Some (Throw e, g') => Some (Throw e, g')
    | None => None
    end.

Fixpoint op_for {X} (f : X -> Op unit) (xs : list X) : Op unit :=
  match xs with
  | [] => op_ret tt
  | x :: xs' => op_bind (f x) (fun _ => op_for f xs')
  end.

Definition op_addNode (type : string) (data : object) (now : string) : Op string :=
  fun g =>
    match addNode type data now g with
    | Some (id, g') => Some (Ok id, g')
    | None => None
    end.

Definition op_addEdge (s t rel : string) (now : string) : Op unit :=
  fun g =>
    match addEdge s t rel [] now g with
    | Some (Ok _, g') => Some (Ok tt, g')
    | Some (Throw e, g') => Some (Throw e, g')
    | None => None
    end.

(** [if (xs) for (const x of xs) body(x)]: the elements of an array, none
    for a falsy value. *)
Definition op_each (xs : json) (body : json -> Op unit) : Op unit :=
  match xs with
  | JArr items => op_for body items
  | _ => if truthy xs then (fun _ => None) else op_ret tt
  end.

(** [x == null]: [x] is [undefined] or [null]. *)
Definition nullish (x : json) : bool :=
  match x with
  | JUndefined | JNull => true
  | _ => false
  end.

(** [x.k] for one of the properties read from the entries of a parsed
    file ([name], [line], [type], [extends], [implements], [text],
    [level], [language], [code]). Reading a property of [undefined] or of
    [null] raises a [TypeError]; a number, a boolean, a string and an
    array have none of these properties. *)
Definition field (k : string) (x : json) : result json :=
  match x with
  | JObj o => Ok (prop k o)
  | JUndefined | JNull =>
      Throw (TypeError (String.append "Cannot read properties of undefined or null: " k))
  | _ => Ok JUndefined
  end.

Definition op_field (k : string) (x : json) : Op json :=
  fun g => Some (field k x, g).

(** [addFileToGraph(file, parentId)] for a parsed file. The properties
    of an entry are read in the order of the object literal that holds
    them, before [addNode] is called. *)
Definition addFileToGraph (file : object) (parentId : option string)
  (now : string) : Op string :=
  let path := prop "path" file in
  op_bind (op_addNode "file"
             [("path", path); ("extension", prop "extension" file);
              ("size", prop "size" file); ("type", prop "type" file);
              ("raw", prop "raw" file); ("functions", prop "functions" file);
              ("classes", prop "classes" file); ("imports", prop "imports" file);
              ("exports", prop "exports" file); ("comments", prop "comments" file)]
             now) (fun fileId =>
  op_bind (match parentId with
           | Some p => if String.eqb p EmptyString then op_ret tt
                       else op_addEdge p fileId "contains" now
           | None => op_ret tt
           end) (fun _ =>
  op_bind (op_each (prop "functions" file) (fun func =>
    op_bind (op_field "name" func) (fun name =>
    op_bind (op_field "line" func) (fun line =>
    op_bind (op_field "type" func) (fun type =>
    op_bind (op_addNode "function"
               [("name", name); ("file", path); ("line", line); ("type", type)]
               now)
      (fun funcId => op_addEdge fileId funcId "defines" now)))))) (fun _ =>
  op_bind (op_each (prop "classes" file) (fun cls =>
    op_bind (op_field "name" cls) (fun name =>
    op_bind (op_field "line" cls) (fun line =>
    op_bind (op_field "extends" cls) (fun extends =>
    op_bind (op_field "implements" cls) (fun implements =>
    op_bind (op_addNode "class"
               [("name", name); ("file", path); ("line", line);
                ("extends", extends); ("implements", implements)] now)
      (fun classId =>
    op_bind (op_addEdge fileId classId "defines" now) (fun _ =>
    if truthy extends then
      match extends with
      | JStr super =>
          fun g =>
            op_for (fun parentNode =>
                      op_addEdge classId (n_id parentNode) "extends" now)
              (findNodesByProperty g "name" super (Some "class")) g
      | _ => fun _ => None
      end
    else op_ret tt)))))))) (fun _ =>
  op_bind (op_each (prop "imports" file) (fun imp =>
    op_bind (op_addNode "import" [("module", imp); ("file", path)] now)
      (fun importId =>
    op_bind (op_addEdge fileId importId "imports" now) (fun _ =>
    match imp with
    | JStr module =>
        fun g =>
          op_for (fun moduleFile =>
                    op_addEdge importId (n_id moduleFile) "references" now)
            (findNodesByProperty g "path" module (Some "file")) g
    | _ => fun _ => None
    end)))) (fun _ =>
  op_bind (op_each (prop "exports" file) (fun exp =>
    op_bind (op_addNode "export" [("name", exp); ("file", path)] now)
      (fun exportId => op_addEdge fileId exportId "exports" now))) (fun _ =>
  op_bind (match prop "comments" file with
           | JArr (c :: cs) =>
               op_bind (op_addNode "documentation"
                          [("file", path); ("comments", JArr (c :: cs))] now)
                 (fun docId => op_addEdge fileId docId "documents" now)
           | JArr [] => op_ret tt
           | other => if truthy other then (fun _ => None) else op_ret tt
           end) (fun _ =>
  op_bind (op_each (prop "headings" file) (fun heading =>
    op_bind (op_field "text" heading) (fun text =>
    op_bind (op_field "level" heading) (fun level =>
    op_bind (op_field "line" heading) (fun line =>
    op_bind (op_addNode "heading"
               [("text", text); ("level", level); ("file", path); ("line", line)]
               now)
      (fun headingId => op_addEdge fileId headingId "contains" now)))))) (fun _ =>
  op_bind (op_each (prop "codeBlocks" file) (fun block =>
    op_bind (op_field "language" block) (fun language =>
    op_bind (op_field "line" block) (fun line =>
    op_bind (op_field "code" block) (fun code =>
    op_bind (op_addNode "codeblock"
               [("language", language); ("file", path); ("line", line);
                ("code", code)] now)
      (fun blockId => op_addEdge fileId blockId "contains" now)))))) (fun _ =>
  op_ret fileId))))))))).

(** [addFile(parsedFile)] *)
Definition addFile (file : object) (now : string) : Op string :=
  addFileToGraph file None now.

(** The loop of [traverseGraph] over the connections of [startNodeId];
    [visit] is the recursive call. *)
Fixpoint traverse_edges
  (visit : string -> gset string -> option (list Node * gset string))
  (startNodeId : string) (connections : list Edge)
  (result : list Node) (visited : gset string)
  : option (list Node * gset string) :=
  match connections with
  | [] => Some (result, visited)
  | edge :: rest =>
      let nextNodeId :=
        if String.eqb (source edge) startNodeId then target edge
        else source edge in
      match visit nextNodeId visited with
      | Some (subResults, visited') =>
          traverse_edges visit startNodeId rest (result ++ subResults) visited'
      | None => None
      end
  end.

(** [traverseGraph(startNodeId, maxDepth, visited)]. The set [visited] is
    shared by all recursive calls and is returned with the result.
    [fuel] bounds the nesting of calls; [None] means it ran out. *)
Fixpoint traverseGraph (fuel : nat) (g : Graph) (startNodeId : string)
  (maxDepth : Z) (visited : gset string)
  : option (list Node * gset string) :=
  match fuel with
  | O => None
  | S fuel' =>
      if (bool_decide (startNodeId ∈ visited) || (maxDepth =? 0))%bool
      then Some ([], visited)
      else
        let visited1 := visited ∪ {[startNodeId]} in
        match get startNodeId (nodes g) with
        | None => Some ([], visited1)
        | Some node =>
            traverse_edges
              (fun next v => traverseGraph fuel' g next (maxDepth - 1) v)
              startNodeId (getNodeConnections g startNodeId None)
              [node] visited1
        end
  end.

(** Every id a traversal can reach: the endpoints of the edges. *)
Definition endpoints (g : Graph) : gset string :=
  list_to_set (flat_map (fun e => [source e; target e]) (edge_objects (edges g))).

(** Fuel that [traverseGraph] never exhausts (see [traverseGraph_total]). *)
Definition enough_fuel (g : Graph) : nat := S (size (endpoints g)).

(** What a call of [traverseGraph] entered with the set [w] yields: a
    result without repeated ids, none of them in [w], and the set [w]
    grown by at least these ids. *)
Definition visit_ok (w : gset string)
  (out : option (list Node * gset string)) : Prop :=
  exists r w', out = Some (r, w')
    /\ (w ⊆ w')
    /\ List.NoDup (map n_id r)
    /\ (forall n, In n r -> (n_id n ∉ w) /\ (n_id n ∈ w')).

(** [getNodeCount()] *)
Definition getNodeCount (g : Graph) : Z := Z.of_nat (List.length (nodes g)).

(** [getEdgeCount()] *)
Definition getEdgeCount (g : Graph) : Z :=
  Z.of_nat (List.length (edge_objects (edges g))).

(** The relevance [searchNodes] gives a node. *)
Definition relevance (queryLower : string) (node : Node) : option (result Z) :=
  let r0 := if includes queryLower (n_type node) then 2 else 0 in
  let dataStr := toLowerCase (stringify (JObj (n_data node))) in
  if includes queryLower dataStr then
    match Regex.compile (String.append "\b" (String.append queryLower "\b")) with
    | Some (Ok re) =>
        let exactMatches := Z.of_nat (Regex.count_matches re dataStr) in
        Some (Ok (r0 + 1 + exactMatches * 3))
    | Some (Throw e) => Some (Throw e)
    | None => None
    end
  else Some (Ok r0).

(** The loop of [searchNodes] over the nodes in map order. *)
Fixpoint score_nodes (queryLower : string) (ns : list Node)
  : option (result (list (Node * Z))) :=
  match ns with
  | [] => Some (Ok [])
  | node :: ns' =>
      match relevance queryLower node with
      | Some (Ok r) =>
          match score_nodes queryLower ns' with
          | Some (Ok results) =>
              Some (Ok (if 0 <? r then (node, r) :: results else results))
          | other => other
          end
      | Some (Throw e) => Some (Throw e)
      | None => None
      end
  end.

(** [searchNodes(query)]. [None]: the query builds a pattern outside
    the modelled fragment of regular expressions. *)
Definition searchNodes (g : Graph) (query : string)
  : option (result (list Node)) :=
  match score_nodes (toLowerCase query) (values (nodes g)) with
  | Some (Ok results) =>
      Some (Ok (map fst (sort (fun a b => snd b - snd a) results)))
  | Some (Throw e) => Some (Throw e)
  | None => None
  end.

(** The snapshot [export()] returns (its [metadata] holds the two counts
    and a timestamp). *)
Record Snapshot : Type := mkSnapshot {
  s_nodes : list Node;
  s_edges : list Edge;
  s_repositories : list (string * string);
  s_nodeCount : Z;
  s_edgeCount : Z
}.

(** [export()]: [{ id, ...node }] has the fields of [node]. *)
Definition export (g : Graph) : Snapshot :=
  mkSnapshot
    (map (fun kv => mkNode (n_id (snd kv)) (n_type (snd kv)) (n_data (snd kv))
                      (n_timestamp (snd kv))) (nodes g))
    (edge_objects (edges g))
    (repositories g)
    (getNodeCount g)
    (getEdgeCount g).

(** The body of the loops of [import]. The counter is raised to
    [parseInt(id.replace('node_', '')) || 0]; a number above [2^53] is
    kept as it is read (see [Graph]). *)
Definition import_node (g : Graph) (node : Node) : Graph :=
  mkGraph (set (n_id node) node (nodes g)) (edges g) (repositories g)
    (Z.max (nodeIdCounter g)
       (or_zero (parseInt (remove_first "node_" (n_id node)))))
    (edgeIdCounter g).

Definition import_edge (g : Graph) (edge : Edge) : Graph :=
  mkGraph (nodes g) (set (e_id edge) (EdgeObject edge) (edges g))
    (repositories g) (nodeIdCounter g)
    (Z.max (edgeIdCounter g)
       (or_zero (parseInt (remove_first "edge_" (e_id edge))))).

Definition import_repository (g : Graph) (r : string * string) : Graph :=
  mkGraph (nodes g) (edges g) (set (fst r) (snd r) (repositories g))
    (nodeIdCounter g) (edgeIdCounter g).

(** [import(data)] *)
Definition import (g : Graph) (data : Snapshot) : Graph :=
  let g0 := clear g in
  let g1 := fold_left import_node (s_nodes data) g0 in
  let g2 := fold_left import_edge (s_edges data) g1 in
  fold_left import_repository (s_repositories data) g2.

(** The shape of every state the operations build: a node is stored
    under its id, an edge under its id, and the keys of a map are
    distinct. *)
Fixpoint distinct (ks : list string) : bool :=
  match ks with
  | [] => true
  | k :: ks' => (negb (existsb (String.eqb k) ks') && distinct ks')%bool
  end.

Definition node_keyed (kv : string * Node) : bool :=
  String.eqb (n_id (snd kv)) (fst kv).

Definition edge_keyed (kv : string * EdgeEntry) : bool :=
  match snd kv with
  | EdgeObject e => String.eqb (e_id e) (fst kv)
  | EdgeArray _ => true
  end.

Definition wf_check (g : Graph) : bool :=
  (distinct (keys (nodes g)) && forallb node_keyed (nodes g)
   && distinct (keys (edges g)) && forallb edge_keyed (edges g)
   && distinct (keys (repositories g)))%bool.

Definition wf (g : Graph) : Prop := wf_check g = true.

(** An operation that leaves a well-formed state well-formed, whatever
    its outcome. *)
Definition preserves_wf {A} (m : Op A) : Prop :=
  forall g r g', wf g -> m g = Some (r, g') -> wf g'.

End KnowledgeGraph.

Import KnowledgeGraph.

(** ** The relevance ranker and the section merge ([QueryEngine]) *)

Module QueryEngine.

(** [{ original, stemmed }] as [extractKeywords] builds them; the stem
    comes from the stemmer of the [natural] package. *)
Record Keyword : Type := mkKeyword {
  original : string;
  stemmed : string
}.

(** A node as [JSON.stringify] sees it. *)
Definition node_json (node : Node) : json :=
  JObj [("id", JStr (n_id node)); ("type", JStr (n_type node));
        ("data", JObj (n_data node)); ("timestamp", JStr (n_timestamp node))].

(** The body of the loop of [calculateRelevance]: what one keyword adds. *)
Definition keyword_relevance (node : Node) (nodeStr : string) (keyword : Keyword)
  : Z :=
  (if includes (original keyword) nodeStr then 2 else 0)
  + (if includes (stemmed keyword) nodeStr then 1 else 0)
  + match str_prop "name" (n_data node) with
    | Some n =>
        let name := toLowerCase n in
        if String.eqb name (original keyword) then 5
        else if includes (original keyword) name then 3
        else 0
    | None => 0
    end.

(** [calculateRelevance(node, keywords)] *)
Definition calculateRelevance (node : Node) (keywords : list Keyword) : Z :=
  let nodeStr := toLowerCase (stringify (node_json node)) in
  fold_left (fun relevance keyword =>
               relevance + keyword_relevance node nodeStr keyword)
    keywords 0.

(** [mergeSections(sections)] *)
Definition mergeSections (sections : list Range) : list Range :=
  match sort (fun a b => start a - start b) sections with
  | [] => []
  | s0 :: rest => coalesce_loop 5 [] s0 rest
  end.

End QueryEngine.

(** ** The context builder ([LLMIntegration]) *)

Module LLMIntegration.

(** The options of [getContext]. *)
Record Options : Type := mkOptions {
  maxNodes : Z;
  maxFiles : Z;
  maxCodeLength : Z;
  includeFullFiles : bool
}.

(** [options = {}] *)
Definition default_options : Options := mkOptions 50 10 5000 true.

(** An element of [filesWithContent]. *)
Record FileContent : Type := mkFileContent {
  fc_path : string;
  fc_content : string;
  fc_fullLength : Z;
  fc_type : string;
  fc_functions : json;
  fc_classes : json;
  fc_exports : json;
  fc_imports : json;
  fc_relevanceScore : Z
}.

(** The part of the context object the properties below are about
    ([summary], [relationships] and [codeSnippets] are computed from
    [nodes] by loops that read fields only). *)
Record Context : Type := mkContext {
  c_query : string;
  c_nodes : list Node;
  c_filesWithContent : list FileContent
}.

(** [mergeRanges(ranges)]; the caller has sorted [ranges]. *)
Definition mergeRanges (ranges : list Range) : list Range :=
  match ranges with
  | [] => []
  | r0 :: rest => coalesce_loop 1 [] r0 rest
  end.

(** The identifier [fileData] as [findFunctionEnd] resolves it. It is a
    parameter of [extractRelevantSections] only: in [findFunctionEnd],
    whose parameters are [lines] and [startLine], and in the module
    around it, nothing of that name is declared. *)
Definition fileData_in_findFunctionEnd : option object := None.

(** The inner loop of [findFunctionEnd] over the characters of a line:
    [inl (braceCount, inFunction)] at the end of the line, [inr tt] when
    the brace that closes the function is met. *)
Fixpoint scan_braces (line : string) (braceCount : Z) (inFunction : bool)
  : (Z * bool) + unit :=
  match line with
  | EmptyString => inl (braceCount, inFunction)
  | String char line' =>
      if Ascii.eqb char "{" then scan_braces line' (braceCount + 1) true
      else if Ascii.eqb char "}" then
        if (inFunction && (braceCount - 1 =? 0))%bool then inr tt
        else scan_braces line' (braceCount - 1) inFunction
      else scan_braces line' braceCount inFunction
  end.

(** [line.match(/^\s*/)[0].length] *)
Fixpoint indent_of (line : string) : Z :=
  match line with
  | String c line' => if is_space c then 1 + indent_of line' else 0
  | EmptyString => 0
  end.

(** [line.trim() !== ''] *)
Definition is_blank (line : string) : bool :=
  String.eqb (trim_start line) EmptyString.

(** The outer loop of [findFunctionEnd], at line [i], over the lines
    from [i] on. *)
Fixpoint findFunctionEnd_loop (total startLine : Z) (startText : string)
  (i : Z) (lines_from_i : list string) (braceCount : Z) (inFunction : bool)
  : M Z :=
  match lines_from_i with
  | [] => ret (Z.min (startLine + 50) total)
  | line :: rest =>
      match scan_braces line braceCount inFunction with
      | inr _ => ret (i + 1)
      | inl (braceCount', inFunction') =>
          match fileData_in_findFunctionEnd with
          | None => throw (ReferenceError "fileData is not defined")
          | Some fileData =>
              if (match prop "type" fileData with
                  | JStr t => String.eqb t "python"
                  | _ => false
                  end
                  && (startLine <? i)
                  && (indent_of line <=? indent_of startText)
                  && negb (is_blank line))%bool
              then ret i
              else findFunctionEnd_loop total startLine startText (i + 1)
                     rest braceCount' inFunction'
          end
      end
  end.

(** [findFunctionEnd(lines, startLine)]. A negative [startLine] reads
    [lines[startLine]], which is [undefined] and cannot be iterated. *)
Definition findFunctionEnd (lines : list string) (startLine : Z) : M Z :=
  let total := Z.of_nat (List.length lines) in
  if startLine <? 0 then
    if startLine <? total
    then throw (TypeError "line is not iterable")
    else ret (Z.min (startLine + 50) total)
  else
    findFunctionEnd_loop total startLine
      (nth (Z.to_nat startLine) lines EmptyString)
      startLine (skipn (Z.to_nat startLine) lines) 0 false.

(** [findClassEnd(lines, startLine)] *)
Definition findClassEnd (lines : list string) (startLine : Z) : M Z :=
  findFunctionEnd lines startLine.

(** [line.match(/^(import|export|from|require)/)] *)
Definition is_import_export (line : string) : bool :=
  (startsWith "import" line || startsWith "export" line
   || startsWith "from" line || startsWith "require" line)%bool.

(** The indices of the lines [p] holds for, from index [i] on. *)
Fixpoint indices_where (p : string -> bool) (i : Z) (lines : list string)
  : list Z :=
  match lines with
  | [] => []
  | line :: rest =>
      if p line then i :: indices_where p (i + 1) rest
      else indices_where p (i + 1) rest
  end.

(** [{ name, line }] of [fileData.functions] and [fileData.classes]: the
    name is a string and the line an integer, as the parsers write
    them. *)
Definition entity_view (v : json) : option (string * Z) :=
  match v with
  | JObj fields =>
      match prop "name" fields, prop "line" fields with
      | JStr name, JNum line => Some (name, line)
      | _, _ => None
      end
  | _ => None
  end.

(** [if (fileData.xs) fileData.xs.forEach(x => m.set(x.name, { start:
    x.line - 1, end: findEnd(lines, x.line - 1) }))] *)
Definition entity_ranges (findEnd : list string -> Z -> M Z)
  (lines : list string) (xs : json) : M (omap Range) :=
  if truthy xs then
    match xs with
    | JArr items =>
        forM (fun m item =>
                match entity_view item with
                | Some (name, line) =>
                    let startLine := line - 1 in
                    bindM (findEnd lines startLine) (fun endLine =>
                    ret (set name (range startLine endLine) m))
                | None => unmodelled
                end) [] items
    | _ => unmodelled
    end
  else ret [].

(** [Math.max(...xs)] for a non-empty [xs]. *)
Definition maximum (x : Z) (xs : list Z) : Z := fold_left Z.max xs x.

(** The range of the import block, if any. *)
Definition import_range (importExportLines : list Z) : list Range :=
  match List.filter (fun i => i <? 50) importExportLines with
  | [] => []
  | i :: rest =>
      let importEnd := maximum i rest in
      if 0 <=? importEnd then [range 0 (importEnd + 1)] else []
  end.


(** [lines.slice(range.start, range.end).join('\n')] *)
Definition section_of (lines : list string) (r : Range) : string :=
  join (String newline EmptyString) (slice (start r) (end_ r) lines).

(** The loop that fills [contentParts]. *)
Fixpoint emit_sections (maxLength : Z) (sections : list string)
  (contentParts : list string) (currentLength : Z) : list string :=
  match sections with
  | [] => contentParts
  | section :: rest =>
      if ((maxLength <? currentLength + strlen section)
          && (0 <? Z.of_nat (List.length contentParts)))%bool
      then contentParts
      else emit_sections maxLength rest (contentParts ++ [section])
             (currentLength + strlen section)
  end.

(** The separator between two sections: a blank line, [// ...], a blank
    line. *)
Definition elision : string :=
  String newline (String newline
    (String.append "// ..." (String newline (String newline EmptyString)))).

(** [extractRelevantSections(fileData, maxLength)] for a [fileData] whose
    [raw] is a non-empty string. *)
Definition extractRelevantSections (fileData : object) (maxLength : Z)
  : M string :=
  match str_prop "raw" fileData with
  | Some raw =>
      let lines := split_lines raw in
      let importExportLines := indices_where is_import_export 0 lines in
      bindM (entity_ranges findFunctionEnd lines (prop "functions" fileData))
        (fun functionLines =>
      bindM (entity_ranges findClassEnd lines (prop "classes" fileData))
        (fun classLines =>
      let includedRanges :=
        import_range importExportLines
        ++ values functionLines ++ values classLines in
      let mergedRanges :=
        mergeRanges (sort (fun a b => start a - start b) includedRanges) in
      let contentParts :=
        emit_sections maxLength (map (section_of lines) mergedRanges) [] 0 in
      ret (join elision contentParts)))
  | None => ret EmptyString
  end.

(** [prioritizeNodesByRelevance(nodes)] *)
Definition prioritizeNodesByRelevance (nodes : list Node) : list Node :=
  let of_type t n := String.eqb (n_type n) t in
  let files := List.filter (of_type "file") nodes in
  let functionsAndClasses :=
    List.filter (fun n => (of_type "function" n || of_type "class" n)%bool) nodes in
  let exports := List.filter (of_type "export") nodes in
  let others :=
    List.filter (fun n => negb (of_type "file" n || of_type "function" n
                           || of_type "class" n || of_type "export" n)%bool)
      nodes in
  files ++ functionsAndClasses ++ exports ++ others.

(** [x || []] *)
Definition or_empty_array (v : json) : json :=
  if truthy v then v else JArr [].

(** The object pushed on [filesWithContent] for the file at [path] whose
    node is [fileNode]; [relevanceScore] is [node.relevanceScore || 0],
    and no node carries that property. *)
Definition file_content (path raw : string) (fileData : object)
  (maxCodeLength : Z) (includeFullFiles : bool) : M FileContent :=
  let fc content :=
    mkFileContent path content (strlen raw)
      (match str_prop "type" fileData with Some t => t | None => "unknown" end)
      (or_empty_array (prop "functions" fileData))
      (or_empty_array (prop "classes" fileData))
      (or_empty_array (prop "exports" fileData))
      (or_empty_array (prop "imports" fileData))
      0 in
  if (negb includeFullFiles && (maxCodeLength <? strlen raw))%bool
  then bindM (extractRelevantSections fileData maxCodeLength)
         (fun content => ret (fc content))
  else ret (fc (if includeFullFiles then raw else substring0 maxCodeLength raw)).

(** The loop of [getFilesWithContent] over the prioritized nodes. *)
Fixpoint collect_files (g : Graph) (maxFiles maxCodeLength : Z)
  (includeFullFiles : bool) (nodes : list Node)
  (filesWithContent : list FileContent) (processedPaths : gset string)
  : M (list FileContent) :=
  match nodes with
  | [] => ret filesWithContent
  | node :: rest =>
      let continue files processed :=
        if maxFiles <=? Z.of_nat (List.length files) then ret files
        else collect_files g maxFiles maxCodeLength includeFullFiles rest
               files processed in
      let skip :=
        collect_files g maxFiles maxCodeLength includeFullFiles rest
          filesWithContent processedPaths in
      let by_reference :=
        match str_prop "file" (n_data node) with
        | Some file =>
            if bool_decide (file ∈ processedPaths) then skip
            else
              match findNodesByProperty g "path" file (Some "file") with
              | fileNode :: _ =>
                  match str_prop "raw" (n_data fileNode) with
                  | Some raw =>
                      bindM (file_content file raw (n_data fileNode)
                               maxCodeLength includeFullFiles)
                        (fun fc =>
                           continue (filesWithContent ++ [fc])
                             (processedPaths ∪ {[file]}))
                  | None => continue filesWithContent processedPaths
                  end
              | [] => continue filesWithContent processedPaths
              end
        | None => skip
        end in
      if String.eqb (n_type node) "file" then
        match str_prop "path" (n_data node) with
        | Some path =>
            if bool_decide (path ∈ processedPaths) then by_reference
            else
              let processed := processedPaths ∪ {[path]} in
              match findNodesByProperty g "path" path (Some "file") with
              | fileNode :: _ =>
                  match str_prop "raw" (n_data fileNode) with
                  | Some raw =>
                      bindM (file_content path raw (n_data fileNode)
                               maxCodeLength includeFullFiles)
                        (fun fc => continue (filesWithContent ++ [fc]) processed)
                  | None => continue filesWithContent processed
                  end
              | [] => continue filesWithContent processed
              end
        | None => by_reference
        end
      else by_reference
  end.

(** [getFilesWithContent(nodes, maxFiles, maxCodeLength, includeFullFiles)] *)
Definition getFilesWithContent (g : Graph) (nodes : list Node)
  (maxFiles maxCodeLength : Z) (includeFullFiles : bool)
  : M (list FileContent) :=
  bindM (collect_files g maxFiles maxCodeLength includeFullFiles
           (prioritizeNodesByRelevance nodes) [] ∅)
    (fun files =>
       ret (sort (fun a b => fc_relevanceScore b - fc_relevanceScore a) files)).

(** One of the loops of [getRepositoryOverview]: push the nodes not added
    yet, while [room] holds of the nodes gathered so far. *)
Fixpoint add_new (room : list Node -> bool) (candidates : list Node)
  (nodes : list Node) (addedIds : gset string)
  : list Node * gset string :=
  match candidates with
  | [] => (nodes, addedIds)
  | n :: rest =>
      if (negb (bool_decide (n_id n ∈ addedIds)) && room nodes)%bool
      then add_new room rest (nodes ++ [n]) (addedIds ∪ {[n_id n]})
      else add_new room rest nodes addedIds
  end.

(** [getRepositoryOverview(maxNodes)]; [maxNodes / 3] rounds down. *)
Definition getRepositoryOverview (g : Graph) (maxNodes : Z) : list Node :=
  let third := maxNodes / 3 in
  let files := slice 0 third (findNodesByType g "file") in
  let '(nodes1, added1) := add_new (fun _ => true) files [] ∅ in
  let functions := slice 0 third (findNodesByType g "function") in
  let '(nodes2, added2) := add_new (fun _ => true) functions nodes1 added1 in
  let classes := slice 0 third (findNodesByType g "class") in
  let '(nodes3, added3) := add_new (fun _ => true) classes nodes2 added2 in
  let exports := findNodesByType g "export" in
  fst (add_new (fun nodes => Z.of_nat (List.length nodes) <? maxNodes)
         exports nodes3 added3).

(** [getSampleNodes(count)] *)
Definition getSampleNodes (g : Graph) (count : Z) : list Node :=
  slice 0 count (values (nodes g)).

(** [this.knowledgeGraph.traverseGraph(id, depth)] with a fresh [visited];
    the fuel never runs out ([traverseGraph_total]). *)
Definition traverse (g : Graph) (id : string) (depth : Z) : list Node :=
  match traverseGraph (enough_fuel g) g id depth ∅ with
  | Some (result, _) => result
  | None => []
  end.

(** The loop of [findRelevantNodes] over the nodes to process. *)
Fixpoint expand_nodes (g : Graph) (maxNodes : Z) (toProcess : list Node)
  (relevantNodes : list Node) (addedIds : gset string) : list Node :=
  match toProcess with
  | [] => relevantNodes
  | node :: rest =>
      if bool_decide (n_id node ∈ addedIds)
      then expand_nodes g maxNodes rest relevantNodes addedIds
      else
        let connected := slice 0 5 (traverse g (n_id node) 2) in
        let '(nodes', added') :=
          add_new (fun nodes => Z.of_nat (List.length nodes) <? maxNodes)
            connected (relevantNodes ++ [node]) (addedIds ∪ {[n_id node]}) in
        expand_nodes g maxNodes rest nodes' added'
  end.

(** [findRelevantNodes(query, maxNodes)] *)
Definition findRelevantNodes (g : Graph) (query : string) (maxNodes : Z)
  : M (list Node) :=
  bindM (searchNodes g query) (fun searchResults =>
    let nodesToProcess :=
      match searchResults with
      | [] => getSampleNodes g maxNodes
      | _ => searchResults
      end in
    ret (expand_nodes g maxNodes (slice 0 maxNodes nodesToProcess) [] ∅)).

(** The test that sends [getContext] to the overview. *)
Definition is_overview_query (query : string) : bool :=
  (String.eqb query EmptyString
   || includes "overview" (toLowerCase query)
   || includes "module" (toLowerCase query))%bool.

(** The choice of [relevantNodes] in [getContext]. *)
Definition select_nodes (g : Graph) (query : string) (maxNodes : Z)
  : M (list Node) :=
  if is_overview_query query then ret (getRepositoryOverview g maxNodes)
  else findRelevantNodes g query maxNodes.

(** [getContext(query, options)], in the structured format. *)
Definition getContext (g : Graph) (query : string) (options : Options)
  : M Context :=
  bindM (select_nodes g query (maxNodes options)) (fun relevantNodes =>
  bindM (getFilesWithContent g relevantNodes (maxFiles options)
           (maxCodeLength options) (includeFullFiles options))
    (fun filesWithContent =>
  ret (mkContext query relevantNodes filesWithContent))).


End LLMIntegration.

Import QueryEngine LLMIntegration.

(** ** The selection of nodes as the specification words it *)

Module ContextSpec.

(** Up to a third of [maxNodes] nodes of each of the types file,
    function and class, in that order, then export nodes while fewer
    than [maxNodes] nodes are selected. *)
Definition overview_nodes (g : Graph) (maxNodes : Z) : list Node :=
  let third := Z.to_nat (maxNodes / 3) in
  let selected :=
    firstn third (findNodesByType g "file")
    ++ firstn third (findNodesByType g "function")
    ++ firstn third (findNodesByType g "class") in
  selected
  ++ firstn (Z.to_nat (maxNodes - Z.of_nat (List.length selected)))
       (findNodesByType g "export").

(** The rank of a node type in the choice of files: files, then
    functions and classes, then exports, then the rest. *)
Definition priority (n : Node) : Z :=
  if String.eqb (n_type n) "file" then 0
  else if (String.eqb (n_type n) "function" || String.eqb (n_type n) "class")%bool
       then 1
  else if String.eqb (n_type n) "export" then 2
  else 3.

(** The file a candidate node stands for when files are chosen: its own
    path for a file node, else the file that holds the entity. *)
Definition file_of (n : Node) : option string :=
  match (if String.eqb (n_type n) "file" then str_prop "path" (n_data n)
         else None) with
  | Some path => Some path
  | None => str_prop "file" (n_data n)
  end.

(** The files a list of candidate nodes stands for, one entry per node
    that stands for a file. *)
Definition files_of (nodes : list Node) : list string :=
  flat_map (fun n => match file_of n with Some path => [path] | None => [] end)
    nodes.

(** The graph holds the text of the file at [path]: its first file node
    with that path has a text. *)
Definition has_text (g : Graph) (path : string) : bool :=
  match findNodesByProperty g "path" path (Some "file") with
  | fileNode :: _ =>
      match str_prop "raw" (n_data fileNode) with
      | Some _ => true
      | None => false
      end
  | [] => false
  end.

(** The paths of [paths] that are not in [seen], each at its first
    occurrence. *)
Fixpoint unseen (seen : gset string) (paths : list string) : list string :=
  match paths with
  | [] => []
  | path :: rest =>
      if bool_decide (path ∈ seen) then unseen seen rest
      else path :: unseen (seen ∪ {[path]}) rest
  end.

(** The files to show for the candidates [nodes]: the files the nodes
    stand for, in the order of the nodes, each once, those left out
    whose text the graph does not hold. *)
Definition files_to_show (g : Graph) (nodes : list Node) : list string :=
  unseen ∅ (List.filter (has_text g) (files_of nodes)).

(** A string, or a falsy value. *)
Definition text_or_nothing (v : json) : bool :=
  match v with
  | JStr _ => true
  | _ => negb (truthy v)
  end.

(** A node as [addFileToGraph] writes it for a parsed file: [path],
    [file] and [raw] hold a string or nothing, and a file node with a
    path has no [file]. *)
Definition plain_node (n : Node) : bool :=
  (text_or_nothing (prop "path" (n_data n))
   && text_or_nothing (prop "file" (n_data n))
   && text_or_nothing (prop "raw" (n_data n))
   && negb (String.eqb (n_type n) "file"
            && truthy (prop "path" (n_data n))
            && truthy (prop "file" (n_data n))))%bool.

(** A graph of plain files: all its nodes are of that kind. *)
Definition plain_files (g : Graph) : bool :=
  forallb plain_node (values (nodes g)).

(** The ids of the nodes a search returns. *)
Definition ids (r : M (list Node)) : M (list string) :=
  bindM r (fun ns => ret (map n_id ns)).

(** The node [node] with the name [name], otherwise the same. *)
Definition with_name (name : string) (node : Node) : Node :=
  mkNode (n_id node) (n_type node) (set_prop "name" (JStr name) (n_data node))
    (n_timestamp node).

(** A word boundary between [prev] and the head of [s]. *)
Definition boundary (prev : option ascii) (s : string) : bool :=
  xorb (Regex.word_before prev) (Regex.word_after s).

Fixpoint last_char (prev : option ascii) (q : string) : option ascii :=
  match q with
  | EmptyString => prev
  | String c q' => last_char (Some c) q'
  end.

(** [q] occurs at the head of [s], as a whole word. *)
Definition whole_word_at (q : string) (prev : option ascii) (s : string) : bool :=
  (boundary prev s && startsWith q s
   && boundary (last_char prev q) (drop (String.length q) s))%bool.

(** The number of places of [s] where [q] occurs as a whole word. *)
Fixpoint occurrences_from (q : string) (prev : option ascii) (s : string) : nat :=
  ((if whole_word_at q prev s then 1 else 0)
   + match s with
     | EmptyString => 0
     | String c s' => occurrences_from q (Some c) s'
     end)%nat.

Definition whole_word_occurrences (q s : string) : Z :=
  Z.of_nat (occurrences_from q None s).

(** The relevance of a node for a lower-case query, in the words of the
    specification. *)
Definition relevance (q : string) (node : Node) : Z :=
  let dataStr := toLowerCase (stringify (JObj (n_data node))) in
  (if includes q (n_type node) then 2 else 0)
  + (if includes q dataStr then 1 else 0)
  + 3 * whole_word_occurrences q dataStr.

(** The nodes of positive relevance, by relevance descending, ties in
    insertion order. *)
Definition search (g : Graph) (query : string) : list Node :=
  let q := toLowerCase query in
  sort (fun a b => relevance q b - relevance q a)
    (List.filter (fun n => 0 <? relevance q n) (values (nodes g))).

(** A query made of letters, digits and underscores. *)
Fixpoint word_only (q : string) : bool :=
  match q with
  | EmptyString => true
  | String c q' => (Regex.is_word c && word_only q')%bool
  end.


(** The characters of a list of sections, separators not counted. *)
Definition total_length (sections : list string) : Z :=
  fold_right (fun s acc => strlen s + acc) 0 sections.




End ContextSpec.

(** ** Sample graphs *)

Module Samples.

(** Two files that reference each other: the edge relation has a
    cycle. *)
Definition cyclic_graph : Graph :=
  match op_bind (op_addNode "file" [("path", JStr "a.js")] "t0") (fun a =>
        op_bind (op_addNode "file" [("path", JStr "b.js")] "t1") (fun b =>
        op_bind (op_addEdge a b "references" "t2") (fun _ =>
        op_addEdge b a "references" "t3"))) empty with
  | Some (_, g) => g
  | None => empty
  end.

(** A graph whose one node was added with the id
    [node_9007199254740992]: the number is [2^53]. *)
Definition last_id_graph : Graph :=
  match addNode "file"
          [("id", JStr "node_9007199254740992"); ("path", JStr "a.js")]
          "t0" empty with
  | Some (_, g) => g
  | None => empty
  end.

Definition lines (ls : list string) : string :=
  join (String newline EmptyString) ls.

(** What [parseFile] returns for [a.js] with the text [small_source]. *)
Definition small_source : string :=
  lines ["function f() {"; "  return 1;"; "}"].

Definition small_file : object :=
  [("path", JStr "a.js"); ("extension", JStr ".js"); ("size", JNum 28);
   ("type", JStr "javascript");
   ("functions",
    JArr [JObj [("name", JStr "f"); ("line", JNum 1); ("type", JStr "regular")]]);
   ("classes", JArr []); ("imports", JArr []); ("exports", JArr []);
   ("comments", JArr []); ("raw", JStr small_source)].

(** The state of a graph after [addFile(small_file)]. *)
Definition graph_of (file : object) : Graph :=
  match addFile file "t0" empty with
  | Some (_, g) => g
  | None => empty
  end.

Definition small_graph : Graph := graph_of small_file.

(** What [parseFile] returns for [b.js] with the text [import_source]. *)
Definition import_source : string :=
  lines ["import 'some/long/module/path'"; "x();"].

Definition import_file : object :=
  [("path", JStr "b.js"); ("extension", JStr ".js"); ("size", JNum 35);
   ("type", JStr "javascript");
   ("functions", JArr []); ("classes", JArr []);
   ("imports", JArr [JStr "some/long/module/path"]); ("exports", JArr []);
   ("comments", JArr []); ("raw", JStr import_source)].


(** A project of three files with functions, a class and exports. *)
Definition auth_file : object :=
  [("path", JStr "auth.js"); ("extension", JStr ".js"); ("size", JNum 69);
   ("type", JStr "javascript");
   ("functions",
    JArr [JObj [("name", JStr "login"); ("line", JNum 1); ("type", JStr "regular")];
          JObj [("name", JStr "logout"); ("line", JNum 2); ("type", JStr "regular")]]);
   ("classes", JArr []); ("imports", JArr []);
   ("exports", JArr [JStr "login"]); ("comments", JArr []);
   ("raw", JStr (lines ["export function login() { return 1; }";
                        "function logout() { return 2; }"]))].

Definition user_file : object :=
  [("path", JStr "user.js"); ("extension", JStr ".js"); ("size", JNum 26);
   ("type", JStr "javascript");
   ("functions", JArr []);
   ("classes",
    JArr [JObj [("name", JStr "User"); ("extends", JNull); ("line", JNum 1)]]);
   ("imports", JArr []); ("exports", JArr [JStr "User"]);
   ("comments", JArr []);
   ("raw", JStr (lines ["export class User { }"; "x();"]))].

Definition project_graph : Graph :=
  match op_bind (addFile auth_file "t0")
          (fun _ => op_bind (addFile user_file "t1")
          (fun _ => addFile small_file "t2")) empty with
  | Some (_, g) => g
  | None => empty
  end.

(** A file [user.js] that exports [user_js], and a file [b.js] that
    imports it, as [parseFile] returns them. *)
Definition dotted_user_file : object :=
  [("path", JStr "user.js"); ("extension", JStr ".js"); ("size", JNum 25);
   ("type", JStr "javascript");
   ("functions", JArr []); ("classes", JArr []); ("imports", JArr []);
   ("exports", JArr [JStr "user_js"]); ("comments", JArr []);
   ("raw", JStr "export const user_js = 1;")].

Definition dotted_b_file : object :=
  [("path", JStr "b.js"); ("extension", JStr ".js"); ("size", JNum 18);
   ("type", JStr "javascript");
   ("functions", JArr []); ("classes", JArr []);
   ("imports", JArr [JStr "./user.js"]); ("exports", JArr []);
   ("comments", JArr []);
   ("raw", JStr "import './user.js'")].

Definition dotted_graph : Graph :=
  match op_bind (addFile dotted_b_file "t0")
          (fun _ => addFile dotted_user_file "t1") empty with
  | Some (_, g) => g
  | None => empty
  end.




(** A function node as [addFileToGraph] builds it, and the keywords of
    the query [parse file]. *)
Definition parse_node : Node :=
  mkNode "node_2" "function"
    [("name", JStr "parse"); ("file", JStr "a.js"); ("line", JNum 1);
     ("type", JStr "regular")] "t0".

Definition parse_file_keywords : list Keyword :=
  [mkKeyword "parse" "pars"; mkKeyword "file" "file"].

End Samples.

(** ** The graph store: repositories, statistics and reachability *)

Module KnowledgeGraphOps.

(** [getRepositoryCount()] *)
Definition getRepositoryCount (g : Graph) : Z :=
  Z.of_nat (List.length (repositories g)).

(** [this.repositories.set(url, id)] *)
Definition op_setRepository (url id : string) : Op unit :=
  fun g =>
    Some (Ok tt,
          mkGraph (nodes g) (edges g) (set url id (repositories g))
            (nodeIdCounter g) (edgeIdCounter g)).

(** [await this.addFileToGraph(file, parentId)] for one element of
    [files]: a parsed file is an object. *)
Definition op_addFileUnder (parentId now : string) (file : json) : Op unit :=
  match file with
  | JObj f => op_bind (addFileToGraph f (Some parentId) now) (fun _ => op_ret tt)
  | _ => fun _ => None
  end.

(** [addRepository(parsedRepo)]. The URL is the key of [repositories],
    a string; [for ... of] raises a [TypeError] on [undefined] and
    [null]. *)
Definition addRepository (parsedRepo : object) (now : string) : Op string :=
  op_bind (op_addNode "repository"
             [("url", prop "repository" parsedRepo);
              ("owner", prop "owner" parsedRepo);
              ("name", prop "repo" parsedRepo);
              ("branch", prop "branch" parsedRepo);
              ("metadata", prop "metadata" parsedRepo)] now) (fun repoId =>
  match prop "repository" parsedRepo with
  | JStr url =>
      op_bind (op_setRepository url repoId) (fun _ =>
      op_bind (match prop "files" parsedRepo with
               | JArr files => op_for (op_addFileUnder repoId now) files
               | JUndefined | JNull =>
                   fun g =>
                     Some (Throw (TypeError "parsedRepo.files is not iterable"), g)
               | _ => fun _ => None
               end) (fun _ =>
      op_ret repoId))
  | _ => fun _ => None
  end).

(** [addPath(parsedPath)] *)
Definition addPath (parsedPath : object) (now : string) : Op string :=
  op_bind (op_addNode "path"
             [("path", prop "path" parsedPath);
              ("repository", prop "repository" parsedPath);
              ("type", prop "type" parsedPath)] now) (fun pathId =>
  op_bind (op_each (prop "files" parsedPath) (op_addFileUnder pathId now)) (fun _ =>
  op_ret pathId)).

(** The names every object inherits from [Object.prototype]: on a
    counter object [{}], [counts[k]] reads the inherited property for
    such a [k]. *)
Definition prototype_names : list string :=
  ["constructor"; "__proto__"; "hasOwnProperty"; "isPrototypeOf";
   "propertyIsEnumerable"; "toLocaleString"; "toString"; "valueOf";
   "__defineGetter__"; "__defineSetter__"; "__lookupGetter__";
   "__lookupSetter__"].

(** [counts[k] = (counts[k] || 0) + 1] on a counter object; [None] for
    an inherited name, where the sum is not a number. *)
Definition tally (counts : gmap string Z) (k : string) : option (gmap string Z) :=
  if existsb (String.eqb k) prototype_names then None
  else Some (<[k := default 0 (counts !! k) + 1]> counts).

Fixpoint tally_all (counts : gmap string Z) (ks : list string)
  : option (gmap string Z) :=
  match ks with
  | [] => Some counts
  | k :: ks' =>
      match tally counts k with
      | Some counts' => tally_all counts' ks'
      | None => None
      end
  end.

(** What [getStatistics()] returns. *)
Record Statistics : Type := mkStatistics {
  totalNodes : Z;
  totalEdges : Z;
  nodeTypes : gmap string Z;
  relationshipTypes : gmap string Z;
  st_repositories : Z
}.

(** [getStatistics()] *)
Definition getStatistics (g : Graph) : option Statistics :=
  match tally_all ∅ (map n_type (values (nodes g))),
        tally_all ∅ (map relationship (edge_objects (edges g))) with
  | Some nt, Some rt =>
      Some (mkStatistics (getNodeCount g) (getEdgeCount g) nt rt
              (getRepositoryCount g))
  | _, _ => None
  end.

(** [counts[k]] of a counter read back; an absent key counts zero. *)
Definition count_of (counts : gmap string Z) (k : string) : Z :=
  default 0 (counts !! k).

(** No type and no relationship of the graph is an inherited name. *)
Definition plain_names (g : Graph) : bool :=
  (forallb (fun n => negb (existsb (String.eqb (n_type n)) prototype_names))
     (values (nodes g))
   && forallb (fun e => negb (existsb (String.eqb (relationship e)) prototype_names))
        (edge_objects (edges g)))%bool.

(** [b] is at most [k] edges away from [a], edges followed in either
    direction. *)
Inductive within (g : Graph) : nat -> string -> string -> Prop :=
| within_here k a : within g k a a
| within_step k a b c e :
    In e (edge_objects (edges g)) ->
    (source e = a /\ target e = b) \/ (target e = a /\ source e = b) ->
    within g k b c ->
    within g (S k) a c.

(** The ids [generateNodeId] has still to hand out are not in use. *)
Definition fresh_ids (g : Graph) : Prop :=
  0 <= nodeIdCounter g
  /\ forall k, nodeIdCounter g < k -> get (node_id_of k) (nodes g) = None.

(** Every edge is stored under a key that begins with [edge_]. *)
Definition edge_keys_ok (g : Graph) : bool :=
  forallb (fun kv : string * EdgeEntry =>
             match snd kv with
             | EdgeObject _ => startsWith "edge_" (fst kv)
             | EdgeArray _ => true
             end) (edges g).

(** The operation [m] keeps the property [P] of the graph, whatever its
    outcome. *)
Definition keeps {A} (P : Graph -> Prop) (m : Op A) : Prop :=
  forall g r g', P g -> m g = Some (r, g') -> P g'.

(** The operation [m] never lowers the counter of node ids. *)
Definition counts_up {A} (m : Op A) : Prop :=
  forall g r g', m g = Some (r, g') -> nodeIdCounter g <= nodeIdCounter g'.

(** From a state that satisfies [P], the operation [m], where the model
    covers it and when it leaves the counter of node ids below [2^53],
    returns a value that satisfies [Q] and leaves a state that satisfies
    [P]: it does not throw. *)
Definition returns {A} (P : Graph -> Prop) (m : Op A) (Q : A -> Prop) : Prop :=
  forall g r g',
    P g -> m g = Some (r, g') -> nodeIdCounter g' < max_exact ->
    P g' /\ exists a, r = Ok a /\ Q a.

(** No entry of the array [xs] is [undefined] or [null]. *)
Definition entries_defined (xs : json) : bool :=
  match xs with
  | JArr items => forallb (fun x => negb (nullish x)) items
  | _ => true
  end.

(** The entries of a parsed file whose properties [addFileToGraph]
    reads are there: no function, class, heading or code block is
    [undefined] or [null]. *)
Definition entities_defined (file : object) : bool :=
  (entries_defined (prop "functions" file)
   && entries_defined (prop "classes" file)
   && entries_defined (prop "headings" file)
   && entries_defined (prop "codeBlocks" file))%bool.


(** An id as [generateNodeId] writes it. *)
Definition is_node_id (id : string) : bool := startsWith "node_" id.

(** Every node of [g0] is in [g], as it was. *)
Definition nodes_kept (g0 g : Graph) : Prop :=
  forall k n, get k (nodes g0) = Some n -> get k (nodes g) = Some n.

(** A state reached from [g0] by adding nodes under generated ids and
    edges between them. *)
Definition populated_from (g0 g : Graph) : Prop :=
  edge_keys_ok g = true /\ fresh_ids g /\ nodes_kept g0 g
  /\ repositories g = repositories g0.



End KnowledgeGraphOps.

Import KnowledgeGraphOps.

(** ** The query engine: snippets, ranking and suggestions *)

Module QueryEngineOps.

(** The line [i] lies in the section [r]: [lines.slice(r.start, r.end)]
    takes the lines from [r.start] up to [r.end], the latter left out. *)
Definition covers (r : Range) (i : Z) : Prop := start r <= i < end_ r.

(** The inner [lines.forEach] of [extractRelevantCodeSection] for one
    keyword, from the line of index [idx] on: ten lines before a line
    that contains the keyword and the ten lines from it, within the
    file. *)
Fixpoint keyword_sections (total : Z) (keywordLower : string) (idx : Z)
  (lines : list string) : list Range :=
  match lines with
  | [] => []
  | line :: rest =>
      if includes keywordLower (toLowerCase line)
      then mkRange (Z.max 0 (idx - 10)) (Z.min total (idx + 10)) (Some idx)
             :: keyword_sections total keywordLower (idx + 1) rest
      else keyword_sections total keywordLower (idx + 1) rest
  end.

(** [relevantSections] after the two loops, merged. *)
Definition relevant_sections (lines : list string) (keywords : list Keyword)
  : list Range :=
  mergeSections
    (flat_map (fun keyword =>
                 keyword_sections (Z.of_nat (List.length lines))
                   (toLowerCase (original keyword)) 0 lines) keywords).

(** [fileData.raw] where a text is expected: the text, or nothing when
    the value is falsy; a truthy value of another type has no method
    [split]. *)
Definition raw_text (fileData : object) : M (option string) :=
  match prop "raw" fileData with
  | JStr raw => ret (if String.eqb raw EmptyString then None else Some raw)
  | v => if truthy v
         then throw (TypeError "fileData.raw.split is not a function")
         else ret None
  end.

(** [extractRelevantCodeSection(fileData, keywords)]; [JNull] is
    [null]. *)
Definition extractRelevantCodeSection (fileData : object)
  (keywords : list Keyword) : M json :=
  bindM (raw_text fileData) (fun raw =>
  match raw with
  | None => ret JNull
  | Some raw =>
      let lines := split_lines raw in
      ret (JStr (join elision
                   (map (section_of lines) (relevant_sections lines keywords))))
  end).

(** The first loop of [extractFunctionOrClassCode], at the line [i], over
    the lines it still has to read: the value of [endLine] when the loop
    is left. *)
Fixpoint brace_scan (i : Z) (window : list string) (braceCount : Z)
  (started : bool) (endLine : Z) : Z :=
  match window with
  | [] => endLine
  | line :: rest =>
      match scan_braces line braceCount started with
      | inr _ => i + 1
      | inl (braceCount', started') =>
          if (started' && (braceCount' =? 0))%bool then endLine
          else brace_scan (i + 1) rest braceCount' started' endLine
      end
  end.

(** The loop for Python, at the line [i]: the index of the first line
    that is not blank and is indented no deeper than [baseIndent]. *)
Fixpoint dedent_line (baseIndent : Z) (i : Z) (rest : list string) : option Z :=
  match rest with
  | [] => None
  | line :: rest' =>
      if is_blank line then dedent_line baseIndent (i + 1) rest'
      else if indent_of line <=? baseIndent then Some i
      else dedent_line baseIndent (i + 1) rest'
  end.

(** [(targetNode.data.line || 1) - 1] for a line that is a number or is
    missing. *)
Definition start_line (targetNode : Node) : option Z :=
  match prop "line" (n_data targetNode) with
  | JNum n => Some ((if n =? 0 then 1 else n) - 1)
  | JUndefined | JNull => Some 0
  | _ => None
  end.

(** [fileData.type === 'python'] *)
Definition is_python (fileData : object) : bool :=
  match prop "type" fileData with
  | JStr t => String.eqb t "python"
  | _ => false
  end.

(** The lines [extractFunctionOrClassCode] returns: [startLine] and
    [endLine]. A negative [startLine] reads a line that is [undefined],
    which cannot be iterated; for Python the line [startLine] has to
    exist. *)
Definition code_span (fileData : object) (lines : list string) (startLine : Z)
  : M (Z * Z) :=
  if startLine <? 0 then throw (TypeError "line is not iterable")
  else
    let endLine :=
      brace_scan startLine (firstn 100 (skipn (Z.to_nat startLine) lines))
        0 false (startLine + 1) in
    if is_python fileData then
      match nth_error lines (Z.to_nat startLine) with
      | None =>
          throw (TypeError "Cannot read properties of undefined (reading 'match')")
      | Some first =>
          ret (startLine,
               match dedent_line (indent_of first) (startLine + 1)
                       (skipn (S (Z.to_nat startLine)) lines) with
               | Some i => i
               | None => endLine
               end)
      end
    else ret (startLine, endLine).

(** [extractFunctionOrClassCode(fileData, targetNode)] *)
Definition extractFunctionOrClassCode (fileData : object) (targetNode : Node)
  : M json :=
  bindM (raw_text fileData) (fun raw =>
  match raw with
  | None => ret JNull
  | Some raw =>
      let lines := split_lines raw in
      match start_line targetNode with
      | Some startLine =>
          bindM (code_span fileData lines startLine) (fun span =>
          ret (JStr (section_of lines (range (fst span) (snd span)))))
      | None => unmodelled
      end
  end).

(** A line without braces. *)
Definition no_brace (line : string) : bool :=
  negb (Regex.has_char "{" line || Regex.has_char "}" line).

(** [patternIndicators] *)
Definition patternIndicators : list string :=
  ["handler"; "listener"; "callback"; "async"; "promise";
   "fetch"; "api"; "request"; "response"; "middleware";
   "component"; "hook"; "state"; "effect"; "render"].

(** [calculatePatternRelevance(node, query, keywords)] *)
Definition calculatePatternRelevance (node : Node) (query : string)
  (keywords : list Keyword) : Z :=
  let nodeStr := toLowerCase (stringify (node_json node)) in
  let queryLower := toLowerCase query in
  fold_left (fun relevance indicator =>
               if (includes indicator queryLower && includes indicator nodeStr)%bool
               then relevance + 3 else relevance)
    patternIndicators (calculateRelevance node keywords).

(** [rankResults(results, keywords)]; [relevance] reads the property
    [relevance] of a result, which the results of [searchRelationships]
    do not have. *)
Definition rankResults {A} (relevance : A -> option Z) (results : list A)
  : list A :=
  slice 0 50
    (sort (fun a b => or_zero (relevance b) - or_zero (relevance a)) results).

(** [suggestions.add(x)]: a [Set] keeps its elements in insertion
    order. *)
Definition add_unique (x : string) (suggestions : list string) : list string :=
  if existsb (String.eqb x) suggestions then suggestions else suggestions ++ [x].

(** [node.data[k]] where [toLowerCase] is called on it when truthy. *)
Definition text_field (k : string) (data : object) : M (option string) :=
  match prop k data with
  | JStr s => ret (if String.eqb s EmptyString then None else Some s)
  | v => if truthy v
         then throw (TypeError "toLowerCase is not a function")
         else ret None
  end.

(** The body of the loop of [getSuggestions]. *)
Definition suggest_node (queryLower : string) (suggestions : list string)
  (node : Node) : M (list string) :=
  bindM (text_field "name" (n_data node)) (fun name =>
  let suggestions1 :=
    match name with
    | Some name =>
        if startsWith queryLower (toLowerCase name)
        then add_unique name suggestions else suggestions
    | None => suggestions
    end in
  bindM (text_field "path" (n_data node)) (fun path =>
  ret match path with
      | Some path =>
          if includes queryLower (toLowerCase path)
          then add_unique path suggestions1 else suggestions1
      | None => suggestions1
      end)).

(** [getSuggestions(partialQuery)] *)
Definition getSuggestions (g : Graph) (partialQuery : string) : M (list string) :=
  bindM (forM (suggest_node (toLowerCase partialQuery)) [] (values (nodes g)))
    (fun suggestions => ret (slice 0 10 suggestions)).

(** [s] is the name of a node, and that name begins with the query, or
    the path of a node, and that path contains the query, letter case
    apart. *)
Definition sound_suggestion (g : Graph) (queryLower s : string) : Prop :=
  exists node,
    In node (values (nodes g))
    /\ ((str_prop "name" (n_data node) = Some s
         /\ startsWith queryLower (toLowerCase s) = true)
        \/ (str_prop "path" (n_data node) = Some s
            /\ includes queryLower (toLowerCase s) = true)).

End QueryEngineOps.

Import QueryEngineOps.

(** A Python file whose last definition runs to the end of the text, as
    [parseFile] returns it, and the node [addFileToGraph] makes of that
    definition. *)
Definition python_source : string :=
  Samples.lines ["def first():"; "    return 1"; ""; "def last():";
                 "    x = 2"; "    return x"; ""].

Definition python_file : object :=
  [("path", JStr "m.py"); ("extension", JStr ".py"); ("size", JNum 62);
   ("type", JStr "python");
   ("functions",
    JArr [JObj [("name", JStr "first"); ("line", JNum 1)];
          JObj [("name", JStr "last"); ("line", JNum 4)]]);
   ("classes", JArr []); ("imports", JArr []); ("comments", JArr []);
   ("raw", JStr python_source)].

Definition last_node : Node :=
  mkNode "node_3" "function"
    [("name", JStr "last"); ("file", JStr "m.py"); ("line", JNum 4);
     ("type", JUndefined)] "t0".




(** ** The context builder: what the files and the summary hold *)

Module LLMIntegrationOps.

(** The element [fc] of [filesWithContent] describes the first file node
    of the graph with its path: the length of the text of that node,
    the relevance score 0, and the whole text as content when complete
    files are asked for or the text fits in [maxCodeLength]. *)
Definition from_first_file_node (g : Graph) (maxCodeLength : Z)
  (includeFullFiles : bool) (fc : FileContent) : Prop :=
  exists fileNode others raw,
    findNodesByProperty g "path" (fc_path fc) (Some "file") = fileNode :: others
    /\ str_prop "raw" (n_data fileNode) = Some raw
    /\ fc_fullLength fc = strlen raw
    /\ fc_relevanceScore fc = 0
    /\ (includeFullFiles = true \/ strlen raw <= maxCodeLength ->
        fc_content fc = raw).

(** What [generateSummary] returns; [files] is the array made of the
    [Set]. *)
Record Summary : Type := mkSummary {
  sum_totalNodes : Z;
  sum_nodeTypes : gmap string Z;
  sum_files : list string;
  sum_functions : list object;
  sum_classes : list object
}.

(** [{ name: node.data.name, file: node.data.file, line: node.data.line }] *)
Definition summary_entry (node : Node) : object :=
  [("name", prop "name" (n_data node)); ("file", prop "file" (n_data node));
   ("line", prop "line" (n_data node))].

(** The body of the loop of [generateSummary]. A path that is added to
    the [Set] is a string; [None] for a truthy path of another type and
    for a type that is an inherited name. *)
Definition summarize (summary : Summary) (node : Node) : option Summary :=
  match tally (sum_nodeTypes summary) (n_type node) with
  | None => None
  | Some nodeTypes =>
      let counted files functions classes :=
        Some (mkSummary (sum_totalNodes summary) nodeTypes files functions classes) in
      let unchanged :=
        counted (sum_files summary) (sum_functions summary) (sum_classes summary) in
      if String.eqb (n_type node) "file" then
        match prop "path" (n_data node) with
        | JStr path =>
            if String.eqb path EmptyString then unchanged
            else counted (add_unique path (sum_files summary))
                   (sum_functions summary) (sum_classes summary)
        | v => if truthy v then None else unchanged
        end
      else if (String.eqb (n_type node) "function"
               && truthy (prop "name" (n_data node)))%bool then
        counted (sum_files summary)
          (sum_functions summary ++ [summary_entry node]) (sum_classes summary)
      else if (String.eqb (n_type node) "class"
               && truthy (prop "name" (n_data node)))%bool then
        counted (sum_files summary) (sum_functions summary)
          (sum_classes summary ++ [summary_entry node])
      else unchanged
  end.

Fixpoint summarize_all (summary : Summary) (nodes : list Node) : option Summary :=
  match nodes with
  | [] => Some summary
  | node :: rest =>
      match summarize summary node with
      | Some summary' => summarize_all summary' rest
      | None => None
      end
  end.

(** [generateSummary(nodes)] *)
Definition generateSummary (nodes : list Node) : option Summary :=
  summarize_all (mkSummary (Z.of_nat (List.length nodes)) ∅ [] [] []) nodes.

(** The nodes [generateSummary] lists under [functions] (for the type
    [function]) and under [classes] (for the type [class]). *)
Definition named_of_type (type : string) (node : Node) : bool :=
  (String.eqb (n_type node) type && truthy (prop "name" (n_data node)))%bool.

(** A Markdown file as [parseFile] returns it, and the data of the file
    node [addFileToGraph] makes of it. *)
Definition readme_source : string :=
  Samples.lines ["# Shop"; ""; "A small shop."; ""; "## Usage"; ""; "Run it."].

Definition readme_file : object :=
  [("path", JStr "README.md"); ("extension", JStr ".md"); ("size", JNum 40);
   ("type", JStr "markdown");
   ("headings",
    JArr [JObj [("level", JNum 1); ("text", JStr "Shop"); ("line", JNum 1)];
          JObj [("level", JNum 2); ("text", JStr "Usage"); ("line", JNum 5)]]);
   ("codeBlocks", JArr []); ("links", JArr []);
   ("raw", JStr readme_source)].

Definition readme_data : object :=
  match get "node_1" (nodes (Samples.graph_of readme_file)) with
  | Some node => n_data node
  | None => []
  end.

End LLMIntegrationOps.

Import LLMIntegrationOps.



(** ** The context builder: relationships *)

Module ContextRelations.

(** [getNodeLabel(node)]: the first truthy value among the name, the
    path and the text of the node, else its type. *)
Definition getNodeLabel (node : Node) : json :=
  let data := n_data node in
  if truthy (prop "name" data) then prop "name" data
  else if truthy (prop "path" data) then prop "path" data
  else if truthy (prop "text" data) then prop "text" data
  else JStr (n_type node).

(** An element of [relationships]. *)
Record Relationship : Type := mkRelationship {
  rel_source : json;
  rel_target : json;
  rel_relationship : string
}.

(** The body of the inner loop of [extractRelationships]: what one
    connection adds. *)
Definition relationship_of (g : Graph) (nodeIds : gset string) (edge : Edge)
  : list Relationship :=
  if (bool_decide (target edge ∈ nodeIds) || bool_decide (source edge ∈ nodeIds))%bool
  then
    match get (source edge) (nodes g), get (target edge) (nodes g) with
    | Some sourceNode, Some targetNode =>
        [mkRelationship (getNodeLabel sourceNode) (getNodeLabel targetNode)
           (relationship edge)]
    | _, _ => []
    end
  else [].

(** [extractRelationships(nodes)] *)
Definition extractRelationships (g : Graph) (nodes : list Node)
  : list Relationship :=
  let nodeIds : gset string := list_to_set (map n_id nodes) in
  flat_map (fun node =>
              flat_map (relationship_of g nodeIds)
                (getNodeConnections g (n_id node) None)) nodes.

(** The number of selected ids among the ends of the edge [e], when the
    graph holds a node for each end; none otherwise. *)
Definition selected_ends (g : Graph) (ids : list string) (e : Edge) : nat :=
  if (has (source e) (nodes g) && has (target e) (nodes g))%bool then
    ((if existsb (String.eqb (source e)) ids then 1 else 0)
     + (if (negb (String.eqb (source e) (target e))
            && existsb (String.eqb (target e)) ids)%bool then 1 else 0))%nat
  else O.

End ContextRelations.

Import ContextRelations.



(** ** The query engine: searches *)

Module QuerySearches.

(** What [getNodeContext] returns. *)
Record NodeContext : Type := mkNodeContext {
  primary : option Node;
  related : list Node;
  connections : list Edge
}.

(** [getNodeContext(nodeId, depth)] *)
Definition getNodeContext (g : Graph) (nodeId : string) (depth : Z) : NodeContext :=
  mkNodeContext (get nodeId (nodes g))
    (List.filter (fun n => negb (String.eqb (n_id n) nodeId)) (traverse g nodeId depth))
    (getNodeConnections g nodeId None).

(** A result of [generalSearch], and of [searchClasses] with its
    [methods]. *)
Record SearchResult : Type := mkSearchResult {
  r_node : Node;
  r_relevance : Z;
  r_context : NodeContext;
  r_methods : option (list Node)
}.

(** [keywords.map(k => k.original).join(' ')] *)
Definition queryString (keywords : list Keyword) : string :=
  join " " (map original keywords).

(** [generalSearch(keywords)] *)
Definition generalSearch (g : Graph) (keywords : list Keyword)
  : M (list SearchResult) :=
  bindM (searchNodes g (queryString keywords)) (fun searchResults =>
  ret (map (fun node =>
              mkSearchResult node (calculateRelevance node keywords)
                (getNodeContext g (n_id node) 2) None)
         (slice 0 20 searchResults))).

(** [getNodeConnections(id, 'defines').map(edge => nodes.get(edge.target))
    .filter(n => n && n.type === 'function')] *)
Definition methods_of (g : Graph) (nodeId : string) : list Node :=
  List.filter (fun n => String.eqb (n_type n) "function")
    (flat_map (fun edge => match get (target edge) (nodes g) with
                           | Some n => [n]
                           | None => []
                           end)
       (getNodeConnections g nodeId (Some "defines"))).

(** [searchClasses(keywords)] *)
Definition searchClasses (g : Graph) (keywords : list Keyword) : list SearchResult :=
  flat_map (fun node =>
              let relevance := calculateRelevance node keywords in
              if 0 <? relevance
              then [mkSearchResult node relevance (getNodeContext g (n_id node) 2)
                      (Some (methods_of g (n_id node)))]
              else [])
    (findNodesByType g "class").

(** Every edge [defines] leaves a file node. *)
Definition defines_leave_files (g : Graph) : bool :=
  forallb (fun e =>
             (negb (String.eqb (relationship e) "defines")
              || match get (source e) (nodes g) with
                 | Some n => String.eqb (n_type n) "file"
                 | None => false
                 end)%bool)
    (edge_objects (edges g)).

(** The node holds the text [q] in its type or, letter case apart, in
    its serialized data. *)
Definition mentions (q : string) (node : Node) : bool :=
  (includes q (n_type node)
   || includes q (toLowerCase (stringify (JObj (n_data node)))))%bool.

End QuerySearches.

Import QuerySearches.



(* ===================================================================== *)
(** * Part II: properties                                                 *)
(* ===================================================================== *)

(** ** The stable sort *)

Section SortFacts.

Context {A : Type} (cmp : A -> A -> Z) (key : A -> Z).
Hypothesis cmp_key : forall x y, cmp x y = key x - key y.

Lemma insert_by_perm x xs : Permutation (insert_by cmp x xs) (x :: xs).
Proof.
  induction xs as [|y ys IH]; simpl; [reflexivity|].
  destruct (0 <? cmp x y); [|reflexivity].
  rewrite IH. apply perm_swap.
Qed.

Lemma sort_perm xs : Permutation (sort cmp xs) xs.
Proof.
  induction xs as [|x xs IH]; simpl; [constructor|].
  rewrite insert_by_perm. now constructor.
Qed.

Lemma insert_by_sorted x xs :
  StronglySorted (fun a b => key a <= key b) xs ->
  StronglySorted (fun a b => key a <= key b) (insert_by cmp x xs).
Proof.
  induction 1 as [|y ys Hs IH Hy]; simpl.
  - repeat constructor.
  - rewrite cmp_key. destruct (0 <? key x - key y) eqn:E.
    + constructor; [exact IH|].
      apply Z.ltb_lt in E.
      eapply Permutation_Forall; [symmetry; apply insert_by_perm|].
      constructor; [lia|exact Hy].
    + apply Z.ltb_ge in E. constructor; [now constructor|].
      constructor; [lia|].
      eapply List.Forall_impl; [|exact Hy]. simpl. intros; lia.
Qed.

Lemma sort_sorted xs : StronglySorted (fun a b => key a <= key b) (sort cmp xs).
Proof.
  induction xs as [|x xs IH]; simpl; [constructor|].
  now apply insert_by_sorted.
Qed.

(** Elements with the same key keep their relative order. *)
Lemma insert_by_stable k x xs :
  List.filter (fun a => key a =? k) (insert_by cmp x xs)
  = List.filter (fun a => key a =? k) (x :: xs).
Proof.
  induction xs as [|y ys IH]; [reflexivity|].
  cbn [insert_by]. rewrite cmp_key.
  destruct (0 <? key x - key y) eqn:E; [|reflexivity].
  apply Z.ltb_lt in E. cbn [List.filter] in *. rewrite IH.
  destruct (key x =? k) eqn:Ex, (key y =? k) eqn:Ey; try reflexivity.
  apply Z.eqb_eq in Ex, Ey. lia.
Qed.

Lemma sort_stable k xs :
  List.filter (fun a => key a =? k) (sort cmp xs)
  = List.filter (fun a => key a =? k) xs.
Proof.
  induction xs as [|x xs IH]; [reflexivity|].
  cbn [sort]. rewrite insert_by_stable. cbn [List.filter]. now rewrite IH.
Qed.

End SortFacts.

(** ** The merge of line ranges *)

Lemma coalesce_loop_spec slack rest : forall done last,
  coalesce_loop slack done last rest
  = done ++ MergeSpec.coalesce_from slack last rest.
Proof.
  induction rest as [|current rest IH]; intros done last; simpl; [reflexivity|].
  destruct (start current <=? end_ last + slack).
  - apply IH.
  - rewrite IH, <- app_assoc. reflexivity.
Qed.

Lemma coalesce_from_separated slack rest : forall prev,
  MergeSpec.separated slack (MergeSpec.coalesce_from slack prev rest)
  /\ (exists e tl, MergeSpec.coalesce_from slack prev rest
                   = mkRange (start prev) e (matchLine prev) :: tl).
Proof.
  induction rest as [|next rest IH]; intros prev; simpl.
  - split; [exact I|]. destruct prev; eauto.
  - destruct (start next <=? end_ prev + slack) eqn:E.
    + destruct (IH (extend prev next)) as [Hs (e & tl & Heq)].
      split; [exact Hs|]. rewrite Heq. simpl. eauto.
    + destruct (IH next) as [Hs (e & tl & Heq)].
      split; [|destruct prev; eauto].
      rewrite Heq in *. simpl. split; [|exact Hs].
      apply Z.leb_gt in E. simpl. lia.
Qed.

Lemma merge_separated slack ranges :
  MergeSpec.separated slack (MergeSpec.merge slack ranges).
Proof.
  unfold MergeSpec.merge.
  destruct (sort _ ranges) as [|r rest]; [exact I|].
  apply coalesce_from_separated.
Qed.

Lemma mergeSections_merge sections :
  mergeSections sections = MergeSpec.merge 5 sections.
Proof.
  unfold mergeSections, MergeSpec.merge.
  destruct (sort _ sections); [reflexivity|]. apply coalesce_loop_spec.
Qed.

Lemma mergeRanges_merge ranges :
  mergeRanges (sort (fun a b => start a - start b) ranges)
  = MergeSpec.merge 1 ranges.
Proof.
  unfold mergeRanges, MergeSpec.merge.
  destruct (sort _ ranges); [reflexivity|]. apply coalesce_loop_spec.
Qed.

(** C3, as the code has it. [mergeSections] of the query engine sorts its
    sections by start line and coalesces a section into the previous one
    exactly when its start is at most the previous end plus 5.
    [mergeRanges] of the context builder, which [extractRelevantSections]
    calls on the ranges it has sorted by start line, coalesces with a
    slack of 1. The sort puts the ranges in the order of their start
    lines and keeps them all; in both results two consecutive ranges lie
    further apart than the slack, and both merge [(0,5),(4,10),(20,25)]
    into [(0,10),(20,25)]. *)
Theorem range_merge_sorts_then_coalesces :
  (forall sections, mergeSections sections = MergeSpec.merge 5 sections)
  /\ (forall ranges,
        mergeRanges (sort (fun a b => start a - start b) ranges)
        = MergeSpec.merge 1 ranges)
  /\ (forall ranges,
        StronglySorted (fun a b => start a <= start b)
          (sort (fun a b => start a - start b) ranges)
        /\ Permutation (sort (fun a b => start a - start b) ranges) ranges)
  /\ (forall sections, MergeSpec.separated 5 (mergeSections sections))
  /\ (forall ranges,
        MergeSpec.separated 1
          (mergeRanges (sort (fun a b => start a - start b) ranges)))
  /\ mergeSections [range 0 5; range 4 10; range 20 25]
     = [range 0 10; range 20 25]
  /\ mergeRanges
       (sort (fun a b => start a - start b) [range 0 5; range 4 10; range 20 25])
     = [range 0 10; range 20 25].
Proof.
  split; [apply mergeSections_merge|].
  split; [apply mergeRanges_merge|].
  split.
  { intros ranges. split.
    - now apply (sort_sorted _ start).
    - apply sort_perm. }
  split; [intros; rewrite mergeSections_merge; apply merge_separated|].
  split; [intros; rewrite mergeRanges_merge; apply merge_separated|].
  split; reflexivity.
Qed.

(** C3 as stated fails for [mergeRanges]: the ranges (0,5) and (9,12) are
    within 5 lines of each other and stay apart. *)
Lemma mergeRanges_slack_is_one :
  mergeRanges (sort (fun a b => start a - start b) [range 0 5; range 9 12])
  = [range 0 5; range 9 12]
  /\ MergeSpec.merge 5 [range 0 5; range 9 12] = [range 0 12]
  /\ mergeRanges (sort (fun a b => start a - start b) [range 0 5; range 9 12])
     <> MergeSpec.merge 5 [range 0 5; range 9 12].
Proof. repeat split; discriminate. Qed.

(** ** Insertion-ordered maps *)

Section OMapFacts.

Context {V : Type}.
Implicit Types (m : omap V) (k : string) (v : V).

Lemma distinct_NoDup (ks : list string) : distinct ks = true <-> List.NoDup ks.
Proof.
  induction ks as [|k ks IH]; simpl.
  - split; [constructor|reflexivity].
  - rewrite andb_true_iff, negb_true_iff, IH, List.NoDup_cons_iff.
    assert (existsb (String.eqb k) ks = false <-> ~ In k ks) as ->; [|tauto].
    rewrite <- not_true_iff_false, existsb_exists.
    split; intros H C; apply H.
    + exists k. split; [exact C|apply String.eqb_refl].
    + destruct C as (x & Hx & E). apply String.eqb_eq in E. now subst.
Qed.

Lemma get_None_keys k m : get k m = None <-> ~ In k (keys m).
Proof.
  induction m as [|[k' v'] m IH]; simpl; [tauto|].
  destruct (String.eqb_spec k k') as [->|Hne].
  - split; [discriminate|]. intros H. exfalso. apply H. now left.
  - rewrite IH. split; [intros H [E|C]; [congruence|tauto]|tauto].
Qed.

Lemma set_fresh k v m : ~ In k (keys m) -> set k v m = m ++ [(k, v)].
Proof.
  induction m as [|[k' v'] m IH]; simpl; intros H; [reflexivity|].
  destruct (String.eqb_spec k k') as [->|Hne]; [tauto|].
  rewrite IH; [reflexivity|tauto].
Qed.

Lemma keys_set k v m :
  keys (set k v m) = if has k m then keys m else keys m ++ [k].
Proof.
  unfold has. induction m as [|[k' v'] m IH]; simpl; [reflexivity|].
  destruct (String.eqb_spec k k') as [->|Hne]; simpl; [reflexivity|].
  rewrite IH. now destruct (get k m).
Qed.

Lemma in_keys_set k k' v m : In k' (keys (set k v m)) <-> k' = k \/ In k' (keys m).
Proof.
  rewrite keys_set. unfold has. destruct (get k m) eqn:E.
  - split; [tauto|]. intros [->|H]; [|exact H].
    destruct (in_dec string_dec k (keys m)) as [Hin|Hn]; [exact Hin|].
    apply get_None_keys in Hn. congruence.
  - rewrite in_app_iff. simpl. intuition.
Qed.

Lemma NoDup_keys_set k v m : List.NoDup (keys m) -> List.NoDup (keys (set k v m)).
Proof.
  intros H. rewrite keys_set. unfold has. destruct (get k m) eqn:E; [exact H|].
  apply get_None_keys in E.
  apply List.NoDup_app; [exact H|repeat constructor; simpl; tauto|].
  intros x Hx [<-|[]]. exact (E Hx).
Qed.

Lemma Forall_set (P : string * V -> Prop) k v m :
  P (k, v) -> Forall P m -> Forall P (set k v m).
Proof.
  intros Hk. induction 1 as [|[k' v'] m Hx Hm IH]; simpl.
  - now repeat constructor.
  - destruct (String.eqb k k'); constructor; assumption.
Qed.

Lemma get_set_eq k v m : get k (set k v m) = Some v.
Proof.
  induction m as [|[k' v'] m IH]; simpl.
  - now rewrite String.eqb_refl.
  - destruct (String.eqb k k') eqn:E; simpl; rewrite ?E, ?String.eqb_refl;
      [reflexivity|exact IH].
Qed.

Lemma get_set_ne k k' v m : k' <> k -> get k' (set k v m) = get k' m.
Proof.
  intros Hne. induction m as [|[k2 v2] m IH]; simpl.
  - apply String.eqb_neq in Hne. now rewrite Hne.
  - destruct (String.eqb_spec k k2) as [->|Hk]; simpl.
    + apply String.eqb_neq in Hne. now rewrite Hne.
    + now rewrite IH.
Qed.

Lemma get_Some_In k v m : get k m = Some v -> In (k, v) m.
Proof.
  induction m as [|[k' v'] m IH]; simpl; [discriminate|].
  destruct (String.eqb_spec k k') as [->|Hne].
  - intros [= ->]. now left.
  - intros H. right. now apply IH.
Qed.

End OMapFacts.

(** ** Decimal numerals and [parseInt] *)

Lemma digit_cases d : 0 <= d <= 9 ->
  d = 0 \/ d = 1 \/ d = 2 \/ d = 3 \/ d = 4 \/ d = 5 \/ d = 6 \/ d = 7
  \/ d = 8 \/ d = 9.
Proof. lia. Qed.

Lemma digit_value_digit_char d :
  0 <= d <= 9 -> digit_value 10 (digit_char d) = Some d.
Proof.
  intros H. destruct (digit_cases d H) as [-> | H1]; [reflexivity|].
  repeat (destruct H1 as [-> | H1]; [reflexivity|]). now subst.
Qed.

Lemma digits_acc_S fuel n acc :
  digits_acc (S fuel) n acc
  = if n <? 10 then String (digit_char (n mod 10)) acc
    else digits_acc fuel (n / 10) (String (digit_char (n mod 10)) acc).
Proof. reflexivity. Qed.

Lemma parse_digits_digits_acc fuel : forall n rest a,
  0 <= n < 2 ^ Z.of_nat (S fuel) ->
  exists k, 0 <= k
            /\ parse_digits 10 a (digits_acc (S fuel) n rest)
               = parse_digits 10 (Some (or_zero a * 10 ^ k + n)) rest.
Proof.
  induction fuel as [|fuel IH]; intros n rest a Hn.
  - assert (n = 0 \/ n = 1) as [-> | ->]
      by (change (2 ^ Z.of_nat 1) with 2 in Hn; lia);
      exists 1; (split; [lia|]); simpl; destruct a; simpl; f_equal; f_equal; lia.
  - rewrite digits_acc_S. destruct (n <? 10) eqn:E.
    + apply Z.ltb_lt in E. exists 1. split; [lia|]. cbn [parse_digits].
      rewrite Z.mod_small by lia. rewrite digit_value_digit_char by lia.
      destruct a; simpl; f_equal; f_equal; lia.
    + apply Z.ltb_ge in E.
      assert (Hdiv : 0 <= n / 10 < 2 ^ Z.of_nat (S fuel)).
      { split; [apply Z.div_pos; lia|].
        apply Z.div_lt_upper_bound; [lia|].
        replace (Z.of_nat (S (S fuel))) with (Z.succ (Z.of_nat (S fuel))) in Hn by lia.
        rewrite Z.pow_succ_r in Hn by lia. lia. }
      destruct (IH (n / 10) (String (digit_char (n mod 10)) rest) a Hdiv)
        as (k & Hk0 & Hk).
      exists (k + 1). split; [lia|]. rewrite Hk. cbn [parse_digits].
      rewrite digit_value_digit_char by (pose proof (Z.mod_pos_bound n 10); lia).
      f_equal. f_equal.
      rewrite Z.pow_add_r, Z.pow_1_r by lia.
      pose proof (Z.div_mod n 10). lia.
Qed.

Lemma digits_acc_head fuel : forall n rest,
  1 <= n < 2 ^ Z.of_nat (S fuel) ->
  exists d s, digits_acc (S fuel) n rest = String (digit_char d) s /\ 1 <= d <= 9.
Proof.
  induction fuel as [|fuel IH]; intros n rest Hn.
  - assert (n = 1) as -> by (change (2 ^ Z.of_nat 1) with 2 in Hn; lia).
    exists 1, rest. split; [reflexivity|lia].
  - rewrite digits_acc_S. destruct (n <? 10) eqn:E.
    + apply Z.ltb_lt in E. exists n, rest. rewrite Z.mod_small by lia.
      split; [reflexivity|lia].
    + apply Z.ltb_ge in E. apply IH. split.
      * apply Z.div_le_lower_bound; lia.
      * apply Z.div_lt_upper_bound; [lia|].
        replace (Z.of_nat (S (S fuel))) with (Z.succ (Z.of_nat (S fuel))) in Hn by lia.
        rewrite Z.pow_succ_r in Hn by lia. lia.
Qed.

Lemma digits_bound n : 0 <= n -> 0 <= n < 2 ^ Z.of_nat (S (Z.to_nat (Z.log2 n))).
Proof.
  intros H. split; [exact H|].
  destruct (Z.eq_dec n 0) as [->|Hne]; [reflexivity|].
  rewrite Nat2Z.inj_succ, Z2Nat.id by apply Z.log2_nonneg.
  apply Z.log2_spec. lia.
Qed.

Lemma parseInt_leading_digit c s :
  is_space c = false -> c <> "-"%char -> c <> "+"%char -> c <> "0"%char ->
  parseInt (String c s) = parse_digits 10 None (String c s).
Proof.
  intros Hs Hm Hp H0. unfold parseInt. cbn [trim_start]. rewrite Hs.
  destruct c as [[] [] [] [] [] [] [] []]; try congruence;
    cbn -[parse_digits]; destruct (parse_digits _ _ _) as [v|];
    try reflexivity; f_equal; lia.
Qed.

(** Reading the numeral of a positive counter gives the counter back. *)
Lemma parseInt_number_to_string n :
  1 <= n -> parseInt (number_to_string n) = Some n.
Proof.
  intros H. unfold number_to_string.
  destruct (n <? 0) eqn:E; [apply Z.ltb_lt in E; lia|].
  unfold digits.
  destruct (digits_acc_head (Z.to_nat (Z.log2 n)) n EmptyString) as (d & s & Hd & Hr).
  { pose proof (digits_bound n). lia. }
  destruct (parse_digits_digits_acc (Z.to_nat (Z.log2 n)) n EmptyString None)
    as (k & _ & Hk).
  { apply digits_bound. lia. }
  rewrite Hd in *.
  assert (Hc : d = 1 \/ d = 2 \/ d = 3 \/ d = 4 \/ d = 5 \/ d = 6 \/ d = 7
               \/ d = 8 \/ d = 9) by lia.
  rewrite parseInt_leading_digit.
  - rewrite Hk. simpl. f_equal; lia.
  - repeat (destruct Hc as [-> | Hc]; [reflexivity|]). now subst.
  - repeat (destruct Hc as [-> | Hc]; [discriminate|]). now subst.
  - repeat (destruct Hc as [-> | Hc]; [discriminate|]). now subst.
  - repeat (destruct Hc as [-> | Hc]; [discriminate|]). now subst.
Qed.

(** ** The graph store: well-formed states *)

Lemma forallb_Forall {A} (p : A -> bool) (xs : list A) :
  forallb p xs = true <-> List.Forall (fun x => p x = true) xs.
Proof.
  rewrite forallb_forall, List.Forall_forall. reflexivity.
Qed.

Lemma wf_spec g :
  wf g <->
  List.NoDup (keys (nodes g))
  /\ List.Forall (fun kv => node_keyed kv = true) (nodes g)
  /\ List.NoDup (keys (edges g))
  /\ List.Forall (fun kv => edge_keyed kv = true) (edges g)
  /\ List.NoDup (keys (repositories g)).
Proof.
  unfold wf, wf_check. rewrite !andb_true_iff, !distinct_NoDup, !forallb_Forall.
  tauto.
Qed.

Lemma wf_empty : wf empty.
Proof. reflexivity. Qed.

Lemma wf_clear g : wf (clear g).
Proof. reflexivity. Qed.

(** ** The id counters *)

Lemma increment_spec c c' :
  increment c = Some c' ->
  0 <= c <= max_exact
  /\ (c < max_exact -> c' = c + 1) /\ (c = max_exact -> c' = c).
Proof.
  unfold increment, max_exact. intros E. revert E.
  destruct (Z.leb_spec 0 c); destruct (Z.ltb_spec c 9007199254740992);
    destruct (Z.eqb_spec c 9007199254740992); cbn [andb]; intros E;
    try discriminate; inversion E; subst; lia.
Qed.

Lemma increment_below c :
  0 <= c < max_exact -> increment c = Some (c + 1).
Proof.
  intros H. unfold increment.
  replace (0 <=? c) with true by (symmetry; apply Z.leb_le; lia).
  replace (c <? max_exact) with true by (symmetry; apply Z.ltb_lt; lia).
  reflexivity.
Qed.

Lemma increment_at_max_exact : increment max_exact = Some max_exact.
Proof. reflexivity. Qed.

(** The id [addNode] uses: the string the caller supplies, or the next
    generated id. *)
Lemma node_id_for_spec data g id g1 :
  node_id_for data g = Some (id, g1) ->
  (prop "id" data = JStr id /\ id <> EmptyString /\ g1 = g)
  \/ (truthy (prop "id" data) = false
      /\ exists c,
           increment (nodeIdCounter g) = Some c
           /\ id = node_id_of c
           /\ g1 = mkGraph (nodes g) (edges g) (repositories g) c
                     (edgeIdCounter g)).
Proof.
  unfold node_id_for, generateNodeId. intros H.
  assert (Hgen : match increment (nodeIdCounter g) with
                 | Some c =>
                     Some (node_id_of c,
                           mkGraph (nodes g) (edges g) (repositories g) c
                             (edgeIdCounter g))
                 | None => None
                 end = Some (id, g1) ->
                 exists c,
                   increment (nodeIdCounter g) = Some c
                   /\ id = node_id_of c
                   /\ g1 = mkGraph (nodes g) (edges g) (repositories g) c
                             (edgeIdCounter g)).
  { destruct (increment (nodeIdCounter g)) as [c|]; [|discriminate].
    intros E. inversion E. eauto. }
  destruct (prop "id" data) as [| |b|n|s|items|fields] eqn:Eid; cbn [truthy] in H |- *.
  - right. split; [reflexivity|auto].
  - right. split; [reflexivity|auto].
  - destruct b; [discriminate|]. right. split; [reflexivity|auto].
  - destruct (n =? 0) eqn:En; cbn [negb] in H |- *; [|discriminate].
    right. split; [reflexivity|auto].
  - destruct (String.eqb_spec s EmptyString) as [->|Hne].
    + right. split; [reflexivity|auto].
    + left. inversion H. subst. repeat split. exact Hne.
  - discriminate.
  - discriminate.
Qed.

Lemma node_id_for_generated data g c :
  truthy (prop "id" data) = false ->
  increment (nodeIdCounter g) = Some c ->
  node_id_for data g
  = Some (node_id_of c,
          mkGraph (nodes g) (edges g) (repositories g) c (edgeIdCounter g)).
Proof.
  intros Hid Hc. unfold node_id_for, generateNodeId. rewrite Hc.
  destruct (prop "id" data) as [| |b|n|s|items|fields];
    cbn [truthy] in Hid |- *; try discriminate; try reflexivity.
  - rewrite Hid. reflexivity.
  - rewrite Hid. reflexivity.
  - apply negb_false_iff in Hid. rewrite Hid. reflexivity.
Qed.

Lemma node_id_for_given data g id :
  prop "id" data = JStr id -> id <> EmptyString ->
  node_id_for data g = Some (id, g).
Proof.
  intros Hid Hne. unfold node_id_for. rewrite Hid.
  destruct (String.eqb_spec id EmptyString); [contradiction|reflexivity].
Qed.

Lemma wf_addNode type data now g id g' :
  wf g -> addNode type data now g = Some (id, g') -> wf g'.
Proof.
  rewrite !wf_spec. intros (Hn & Hk & He & Hek & Hr) H. unfold addNode in H.
  destruct (node_id_for data g) as [[i g1]|] eqn:E; [|discriminate].
  inversion H; subst i g'; clear H.
  assert (Hg1 : nodes g1 = nodes g /\ edges g1 = edges g
                /\ repositories g1 = repositories g).
  { destruct (node_id_for_spec _ _ _ _ E) as [(_ & _ & ->)|(_ & c & _ & _ & ->)];
      repeat split. }
  destruct Hg1 as (N & Ed & R). unfold with_nodes. cbn [nodes edges repositories].
  rewrite N, Ed, R.
  repeat split; [now apply NoDup_keys_set| |assumption..].
  apply Forall_set; [|assumption]. unfold node_keyed. simpl. apply String.eqb_refl.
Qed.

(** The three ways [addEdge] ends, [c] being the counter after [++]:
    the source is an edge id, the source has an array, or it has none
    yet. *)
Lemma addEdge_cases s t rel meta now g c :
  increment (edgeIdCounter g) = Some c ->
  let id := edge_id_of c in
  let edge := mkEdge id s t rel meta now in
  let g1 := mkGraph (nodes g) (edges g) (repositories g) (nodeIdCounter g) c in
  let es1 := set id (EdgeObject edge) (edges g) in
  ((s = id \/ exists e, get s (edges g) = Some (EdgeObject e))
   /\ addEdge s t rel meta now g
      = Some (Throw (TypeError "this.edges.get(...).push is not a function"),
              with_edges g1 es1))
  \/ (s <> id
      /\ exists l, get s (edges g) = Some (EdgeArray l)
         /\ addEdge s t rel meta now g
            = Some (Ok id, with_edges g1 (set s (EdgeArray (l ++ [edge])) es1)))
  \/ (s <> id /\ get s (edges g) = None
      /\ addEdge s t rel meta now g
         = Some (Ok id,
                 with_edges g1
                   (set s (EdgeArray [edge]) (set s (EdgeArray []) es1)))).
Proof.
  intros Hc. cbv zeta. unfold addEdge, generateEdgeId. rewrite Hc.
  cbv beta iota zeta. cbn [edges nodes repositories nodeIdCounter edgeIdCounter].
  set (id := edge_id_of c).
  set (edge := mkEdge id s t rel meta now).
  set (es1 := set id (EdgeObject edge) (edges g)).
  pose proof (get_set_eq id (EdgeObject edge) (edges g)) as Hget1.
  fold es1 in Hget1.
  destruct (String.eqb_spec s id) as [Heq|Hne].
  - left. split; [auto|]. unfold has. rewrite Heq, Hget1. cbn iota.
    rewrite Hget1. reflexivity.
  - assert (Hs : get s es1 = get s (edges g))
      by (apply get_set_ne; exact Hne).
    unfold has. rewrite Hs.
    destruct (get s (edges g)) as [[e|l]|] eqn:Hg; cbn iota.
    + left. split; [eauto|]. rewrite Hs. reflexivity.
    + right. left. split; [exact Hne|]. exists l. split; [reflexivity|].
      rewrite Hs. reflexivity.
    + right. right. split; [exact Hne|]. split; [reflexivity|].
      rewrite get_set_eq. reflexivity.
Qed.

Lemma wf_addEdge s t rel meta now g r g' :
  wf g -> addEdge s t rel meta now g = Some (r, g') -> wf g'.
Proof.
  rewrite !wf_spec. intros (Hn & Hk & He & Hek & Hr) H.
  destruct (increment (edgeIdCounter g)) as [c|] eqn:Hc.
  2:{ unfold addEdge, generateEdgeId in H. rewrite Hc in H. discriminate. }
  set (id := edge_id_of c).
  set (edge := mkEdge id s t rel meta now).
  set (es1 := set id (EdgeObject edge) (edges g)).
  assert (H1 : List.NoDup (keys es1)) by now apply NoDup_keys_set.
  assert (K1 : List.Forall (fun kv => edge_keyed kv = true) es1).
  { apply Forall_set; [|assumption]. unfold edge_keyed. simpl. apply String.eqb_refl. }
  destruct (addEdge_cases s t rel meta now g c Hc)
    as [[_ E]|[(_ & l & _ & E)|(_ & _ & E)]];
    rewrite E in H; inversion H; subst r g'; clear H;
    cbn [with_edges nodes edges repositories]; fold id edge es1;
    repeat split; try assumption.
  - now apply NoDup_keys_set.
  - apply Forall_set; [reflexivity|assumption].
  - now apply NoDup_keys_set, NoDup_keys_set.
  - apply Forall_set; [reflexivity|]. apply Forall_set; [reflexivity|assumption].
Qed.

(** Populating the graph keeps it well-formed. *)
Lemma preserves_wf_ret {A} (a : A) : preserves_wf (op_ret a).
Proof. intros g r g' Hwf H. inversion H. now subst. Qed.

Lemma preserves_wf_unmodelled {A} : preserves_wf (fun _ => None : option (result A * Graph)).
Proof. intros g r g' Hwf H. discriminate. Qed.

Lemma preserves_wf_bind {A B} (m : Op A) (k : A -> Op B) :
  preserves_wf m -> (forall a, preserves_wf (k a)) -> preserves_wf (op_bind m k).
Proof.
  intros Hm Hk g r g' Hwf H. unfold op_bind in H.
  destruct (m g) as [[[a|e] g1]|] eqn:E; try discriminate.
  - eapply Hk; [eapply Hm; eassumption|exact H].
  - inversion H. subst. eapply Hm; eassumption.
Qed.

Lemma preserves_wf_for {X} (f : X -> Op unit) (xs : list X) :
  (forall x, preserves_wf (f x)) -> preserves_wf (op_for f xs).
Proof.
  intros Hf. induction xs as [|x xs IH]; simpl.
  - apply preserves_wf_ret.
  - apply preserves_wf_bind; [apply Hf|intros _; exact IH].
Qed.

Lemma preserves_wf_addNode type data now : preserves_wf (op_addNode type data now).
Proof.
  intros g r g' Hwf H. unfold op_addNode in H.
  destruct (addNode type data now g) as [[id g1]|] eqn:E; [|discriminate].
  inversion H; subst. eapply wf_addNode; eassumption.
Qed.

Lemma preserves_wf_addEdge s t rel now : preserves_wf (op_addEdge s t rel now).
Proof.
  intros g r g' Hwf H. unfold op_addEdge in H.
  destruct (addEdge s t rel [] now g) as [[[id|e] g1]|] eqn:E; [| |discriminate];
    inversion H; subst; eapply wf_addEdge; eassumption.
Qed.

Lemma preserves_wf_field k x : preserves_wf (op_field k x).
Proof. intros g r g' Hwf H. inversion H. now subst. Qed.

Lemma preserves_wf_each xs body :
  (forall x, preserves_wf (body x)) -> preserves_wf (op_each xs body).
Proof.
  intros Hb. unfold op_each.
  destruct xs; simpl;
    try apply preserves_wf_ret; try apply preserves_wf_unmodelled;
    try (destruct b; [apply preserves_wf_unmodelled|apply preserves_wf_ret]);
    try (destruct (negb _); [apply preserves_wf_unmodelled|apply preserves_wf_ret]).
  now apply preserves_wf_for.
Qed.

Lemma preserves_wf_with_graph {A} (m : Graph -> Op A) :
  (forall g0, preserves_wf (m g0)) -> preserves_wf (fun g => m g g).
Proof. intros H g r g' Hwf E. eapply H; eassumption. Qed.

Lemma wf_addFileToGraph file parentId now :
  preserves_wf (addFileToGraph file parentId now).
Proof.
  unfold addFileToGraph.
  repeat first
    [ apply preserves_wf_ret
    | apply preserves_wf_unmodelled
    | apply preserves_wf_addNode
    | apply preserves_wf_addEdge
    | apply preserves_wf_field
    | apply preserves_wf_bind; [|intros ?]
    | apply preserves_wf_each; intros ?
    | apply preserves_wf_for; intros ?
    | match goal with
      | |- preserves_wf (fun g => op_for _ _ g) =>
          apply (preserves_wf_with_graph (fun g0 => op_for _ _))
      | |- preserves_wf (match ?x with _ => _ end) => destruct x
      end ];
    intros g0; apply preserves_wf_for; intros ?; apply preserves_wf_addEdge.
Qed.

(** ** Snapshots: [export] and [import] *)

Lemma set_all_fresh {X V} (kf : X -> string) (vf : X -> V) (xs : list X) :
  forall m : omap V,
    List.NoDup (keys m ++ map kf xs) ->
    fold_left (fun acc x => set (kf x) (vf x) acc) xs m
    = m ++ map (fun x => (kf x, vf x)) xs.
Proof.
  induction xs as [|x xs IH]; intros m H; simpl.
  - now rewrite app_nil_r.
  - rewrite set_fresh.
    + rewrite IH; [now rewrite <- app_assoc|].
      unfold keys in *. rewrite map_app, <- app_assoc. exact H.
    + simpl in H. apply NoDup_remove_2 in H.
      intros C. apply H. apply in_or_app. now left.
Qed.

Lemma import_node_fold l : forall g,
  let g' := fold_left import_node l g in
  nodes g' = fold_left (fun acc n => set (n_id n) n acc) l (nodes g)
  /\ edges g' = edges g /\ repositories g' = repositories g
  /\ edgeIdCounter g' = edgeIdCounter g
  /\ nodeIdCounter g <= nodeIdCounter g'
  /\ (forall n, In n l ->
        or_zero (parseInt (remove_first "node_" (n_id n))) <= nodeIdCounter g').
Proof.
  induction l as [|n l IH]; intros g; simpl.
  - repeat split; try reflexivity; try lia; tauto.
  - destruct (IH (import_node g n)) as (Hn & He & Hr & Hc & Hle & Hall).
    simpl in *. repeat split; try assumption; try lia.
    intros n' [<-|Hin]; [lia|now apply Hall].
Qed.

Lemma import_edge_fold l : forall g,
  let g' := fold_left import_edge l g in
  nodes g' = nodes g
  /\ edges g' = fold_left (fun acc e => set (e_id e) (EdgeObject e) acc) l (edges g)
  /\ repositories g' = repositories g
  /\ nodeIdCounter g' = nodeIdCounter g.
Proof.
  induction l as [|e l IH]; intros g; simpl; [tauto|].
  destruct (IH (import_edge g e)) as (Hn & He & Hr & Hc). simpl in *. tauto.
Qed.

Lemma import_repository_fold l : forall g,
  let g' := fold_left import_repository l g in
  nodes g' = nodes g /\ edges g' = edges g
  /\ repositories g'
     = fold_left (fun acc r => set (fst r) (snd r) acc) l (repositories g)
  /\ nodeIdCounter g' = nodeIdCounter g.
Proof.
  induction l as [|r l IH]; intros g; simpl; [tauto|].
  destruct (IH (import_repository g r)) as (Hn & He & Hr & Hc). simpl in *. tauto.
Qed.

Lemma fold_set_NoDup {X V} (kf : X -> string) (vf : X -> V) (xs : list X) :
  forall m : omap V,
    List.NoDup (keys m) ->
    List.NoDup (keys (fold_left (fun acc x => set (kf x) (vf x) acc) xs m)).
Proof.
  induction xs as [|x xs IH]; intros m Hm; simpl; [exact Hm|].
  apply IH. now apply NoDup_keys_set.
Qed.

Lemma fold_set_Forall {X V} (P : string * V -> Prop) (kf : X -> string)
  (vf : X -> V) (xs : list X) :
  (forall x, P (kf x, vf x)) ->
  forall m : omap V,
    List.Forall P m ->
    List.Forall P (fold_left (fun acc x => set (kf x) (vf x) acc) xs m).
Proof.
  intros HP. induction xs as [|x xs IH]; intros m Hm; simpl; [exact Hm|].
  apply IH. now apply Forall_set.
Qed.

(** Whatever the snapshot, [import] builds a well-formed state. *)
Lemma wf_import h data : wf (import h data).
Proof.
  unfold import.
  destruct (import_node_fold (s_nodes data) (clear h)) as (N1 & E1 & R1 & _).
  destruct (import_edge_fold (s_edges data)
              (fold_left import_node (s_nodes data) (clear h)))
    as (N2 & E2 & R2 & _).
  destruct (import_repository_fold (s_repositories data)
              (fold_left import_edge (s_edges data)
                 (fold_left import_node (s_nodes data) (clear h))))
    as (N3 & E3 & R3 & _).
  cbv zeta in *. apply wf_spec.
  rewrite N3, N2, N1, E3, E2, E1, R3, R2, R1.
  cbn [clear empty nodes edges repositories].
  repeat split.
  - apply (fold_set_NoDup n_id (fun n => n)). constructor.
  - apply (fold_set_Forall _ n_id (fun n => n)); [|constructor].
    intros n. apply String.eqb_refl.
  - apply (fold_set_NoDup e_id EdgeObject). constructor.
  - apply (fold_set_Forall _ e_id EdgeObject); [|constructor].
    intros e. apply String.eqb_refl.
  - apply (fold_set_NoDup fst snd). constructor.
Qed.

Lemma export_nodes g : s_nodes (export g) = values (nodes g).
Proof.
  unfold export, values. simpl. apply map_ext. intros [k []]. reflexivity.
Qed.

Lemma keyed_entries (m : omap Node) :
  List.Forall (fun kv => node_keyed kv = true) m ->
  map (fun n => (n_id n, n)) (values m) = m /\ map n_id (values m) = keys m.
Proof.
  induction 1 as [|[k n] m Hk Hm [IH1 IH2]]; simpl; [split; reflexivity|].
  unfold node_keyed in Hk. simpl in Hk. apply String.eqb_eq in Hk. subst k.
  now rewrite IH1, IH2.
Qed.

Lemma edge_objects_keys (es : omap EdgeEntry) :
  List.Forall (fun kv => edge_keyed kv = true) es ->
  incl (map e_id (edge_objects es)) (keys es).
Proof.
  induction 1 as [|[k [e|l]] es Hk Hes IH]; simpl.
  - apply incl_nil_l.
  - unfold edge_keyed in Hk. simpl in Hk. apply String.eqb_eq in Hk. subst k.
    apply incl_cons; [now left|now apply incl_tl].
  - now apply incl_tl.
Qed.

Lemma edge_objects_NoDup (es : omap EdgeEntry) :
  List.NoDup (keys es) ->
  List.Forall (fun kv => edge_keyed kv = true) es ->
  List.NoDup (map e_id (edge_objects es)).
Proof.
  intros Hnd H. induction H as [|[k [e|l]] es Hk Hes IH]; simpl in *.
  - constructor.
  - apply List.NoDup_cons_iff in Hnd as [Hnot Hnd].
    unfold edge_keyed in Hk. simpl in Hk. apply String.eqb_eq in Hk. subst k.
    constructor; [|now apply IH].
    intros C. apply Hnot. now apply (edge_objects_keys es Hes).
  - apply List.NoDup_cons_iff in Hnd as [_ Hnd]. now apply IH.
Qed.

Lemma edge_objects_rebuilt (l : list Edge) :
  edge_objects (map (fun e => (e_id e, EdgeObject e)) l) = l.
Proof. induction l as [|e l IH]; simpl; [reflexivity|now rewrite IH]. Qed.

Lemma remove_first_node_id m :
  remove_first "node_" (node_id_of m) = number_to_string m.
Proof. reflexivity. Qed.

(** What [import] builds from the snapshot of a well-formed graph. *)
Lemma import_export_state g h :
  wf g ->
  let g' := import h (export g) in
  nodes g' = nodes g
  /\ edge_objects (edges g') = edge_objects (edges g)
  /\ repositories g' = repositories g
  /\ 0 <= nodeIdCounter g'
  /\ (forall n, In n (values (nodes g)) ->
        or_zero (parseInt (remove_first "node_" (n_id n))) <= nodeIdCounter g').
Proof.
  rewrite wf_spec. intros (Hn & Hk & He & Hek & Hr). unfold import.
  rewrite export_nodes. cbn [s_edges s_repositories export].
  destruct (import_node_fold (values (nodes g)) (clear h))
    as (N1 & E1 & R1 & _ & C1 & B1).
  destruct (import_edge_fold (edge_objects (edges g))
              (fold_left import_node (values (nodes g)) (clear h)))
    as (N2 & E2 & R2 & C2).
  destruct (import_repository_fold (repositories g)
              (fold_left import_edge (edge_objects (edges g))
                 (fold_left import_node (values (nodes g)) (clear h))))
    as (N3 & E3 & R3 & C3).
  cbv zeta in *.
  destruct (keyed_entries (nodes g) Hk) as [K1 K2].
  repeat split.
  - rewrite N3, N2, N1. cbn [clear empty nodes].
    rewrite (set_all_fresh n_id (fun n => n)); [exact K1|].
    simpl. now rewrite K2.
  - rewrite E3, E2, E1. cbn [clear empty edges].
    rewrite (set_all_fresh e_id EdgeObject).
    + apply edge_objects_rebuilt.
    + simpl. now apply edge_objects_NoDup.
  - rewrite R3, R2, R1. cbn [clear empty repositories].
    rewrite (set_all_fresh fst snd); simpl.
    + clear. induction (repositories g) as [|[] l IH]; simpl; congruence.
    + exact Hr.
  - rewrite C3, C2. simpl in C1. exact C1.
  - intros n Hin. rewrite C3, C2. now apply B1.
Qed.

Lemma node_id_of_inj a b : 1 <= a -> 1 <= b -> node_id_of a = node_id_of b -> a = b.
Proof.
  intros Ha Hb H.
  apply (f_equal (remove_first "node_")) in H.
  rewrite !remove_first_node_id in H.
  apply (f_equal parseInt) in H.
  rewrite !parseInt_number_to_string in H by assumption.
  congruence.
Qed.

(** A [data.id] that is a number is the key of the node in the code; the
    model, whose keys are strings, does not cover it. *)
Example addNode_numeric_id :
  addNode "file" [("id", JNum 5); ("path", JStr "a.js")] "t0" empty = None.
Proof. reflexivity. Qed.

(** A generated id in a graph where the ids still to come are unused:
    the node is appended. *)
Lemma addNode_generated type data now g :
  fresh_ids g ->
  truthy (prop "id" data) = false ->
  nodeIdCounter g < max_exact ->
  let id := node_id_of (nodeIdCounter g + 1) in
  let g' :=
    mkGraph (nodes g ++ [(id, mkNode id type data now)])
      (edges g) (repositories g) (nodeIdCounter g + 1) (edgeIdCounter g) in
  addNode type data now g = Some (id, g')
  /\ get id (nodes g) = None
  /\ nodes_kept g g'
  /\ fresh_ids g'.
Proof.
  intros [Hc Hfresh] Hid Hmax. cbv zeta. unfold addNode.
  rewrite (node_id_for_generated data g (nodeIdCounter g + 1) Hid)
    by (apply increment_below; lia).
  unfold with_nodes. cbn [nodes edges repositories nodeIdCounter edgeIdCounter].
  assert (Hnew : get (node_id_of (nodeIdCounter g + 1)) (nodes g) = None)
    by (apply Hfresh; lia).
  rewrite set_fresh by (apply get_None_keys; exact Hnew).
  split; [reflexivity|]. split; [exact Hnew|].
  assert (Hkeep : forall k n, get k (nodes g) = Some n ->
            get k (nodes g ++ [(node_id_of (nodeIdCounter g + 1),
                                mkNode (node_id_of (nodeIdCounter g + 1)) type data now)])
            = Some n).
  { intros k n Hk. rewrite <- (set_fresh _ _ _ (proj1 (get_None_keys _ _) Hnew)).
    rewrite get_set_ne; [exact Hk|]. intros ->. congruence. }
  split; [exact Hkeep|].
  split; cbn; [lia|].
  intros k Hk. rewrite <- (set_fresh _ _ _ (proj1 (get_None_keys _ _) Hnew)).
  rewrite get_set_ne; [apply Hfresh; lia|].
  intros H. apply node_id_of_inj in H; lia.
Qed.

(** Below [2^53] the snapshot round trip does what C5 says. For a
    well-formed graph [g] (every state the operations build is one) and
    any graph [h], importing into [h] the snapshot exported from [g] does
    not depend on the former state of [h], gives the nodes of [g] in
    their order, hence the same node count, the same edge count and the
    same [findNodesByType] for every type, and leaves the counter of node
    ids at a value above the number of every restored id: while that
    counter is below [2^53], the id generated next is not among the
    restored ones, and the same holds again of the graph with the new
    node. *)
Lemma import_export_roundtrip g h :
  wf g ->
  let g' := import h (export g) in
  g' = import empty (export g)
  /\ getNodeCount g' = getNodeCount g
  /\ getEdgeCount g' = getEdgeCount g
  /\ (forall type, findNodesByType g' type = findNodesByType g type)
  /\ fresh_ids g'
  /\ (nodeIdCounter g' < max_exact ->
      forall type data now,
        truthy (prop "id" data) = false ->
        exists id g'',
          addNode type data now g' = Some (id, g'')
          /\ ~ In id (keys (nodes g'))
          /\ nodes_kept g' g''
          /\ fresh_ids g'').
Proof.
  intros Hwf. destruct (import_export_state g h Hwf) as (N & E & R & C0 & B).
  cbv zeta.
  assert (Hfresh : fresh_ids (import h (export g))).
  { split; [exact C0|]. intros k Hk. apply get_None_keys. intros Hin.
    rewrite N in Hin.
    apply wf_spec in Hwf as (_ & Hkeyed & _).
    destruct (keyed_entries (nodes g) Hkeyed) as [_ K2].
    rewrite <- K2 in Hin. apply in_map_iff in Hin as (n & Hid & Hn).
    specialize (B n Hn). rewrite Hid, remove_first_node_id in B.
    rewrite parseInt_number_to_string in B by lia. simpl in B. lia. }
  repeat split.
  - unfold getNodeCount. now rewrite N.
  - unfold getEdgeCount. now rewrite E.
  - intros type. unfold findNodesByType. now rewrite N.
  - apply Hfresh.
  - apply Hfresh.
  - intros Hlt type data now Hid.
    destruct (addNode_generated type data now _ Hfresh Hid Hlt)
      as (Ea & Hnew & Hkept & Hfresh').
    do 2 eexists. split; [exact Ea|]. split; [|split; [exact Hkept|exact Hfresh']].
    apply get_None_keys. exact Hnew.
Qed.

(** C5 fails on the code. A graph holds one node, added with the id
    [node_9007199254740992]. After [import(export())] the counter of node
    ids is [2^53], the number of that id. [++] leaves a counter of
    [2^53] where it is, so the next [addNode] without [data.id]
    generates [node_9007199254740992] again: the new node replaces the
    restored one, the node count stays 1, and the file [a.js] is no
    longer in the graph. *)
Theorem generated_id_collides_after_import :
  let g := import empty (export Samples.last_id_graph) in
  wf Samples.last_id_graph
  /\ map (fun n => (n_id n, prop "path" (n_data n))) (values (nodes g))
     = [("node_9007199254740992", JStr "a.js")]
  /\ nodeIdCounter g = max_exact
  /\ increment (nodeIdCounter g) = Some max_exact
  /\ exists g',
       addNode "file" [("path", JStr "b.js")] "t1" g
       = Some ("node_9007199254740992", g')
       /\ In "node_9007199254740992" (keys (nodes g))
       /\ getNodeCount g' = getNodeCount g
       /\ map (fun n => (n_id n, prop "path" (n_data n))) (values (nodes g'))
          = [("node_9007199254740992", JStr "b.js")].
Proof.
  cbv zeta. split; [reflexivity|]. split; [vm_compute; reflexivity|].
  split; [vm_compute; reflexivity|]. split; [vm_compute; reflexivity|].
  eexists. split; [vm_compute; reflexivity|].
  split; [vm_compute; auto|]. split; vm_compute; reflexivity.
Qed.

(** ** Traversal *)

Lemma edge_object_endpoints g e :
  In e (edge_objects (edges g)) ->
  (source e ∈ endpoints g) /\ (target e ∈ endpoints g).
Proof.
  unfold endpoints. intros H.
  split; apply elem_of_list_to_set, list_elem_of_In, in_flat_map;
    exists e; simpl; auto.
Qed.

Lemma connection_endpoints g s e :
  In e (getNodeConnections g s None) ->
  (s ∈ endpoints g) /\ (source e ∈ endpoints g) /\ (target e ∈ endpoints g).
Proof.
  unfold getNodeConnections. rewrite filter_In.
  intros [Hin Hc]. destruct (edge_object_endpoints g e Hin) as [Hs Ht].
  repeat split; try assumption.
  rewrite andb_true_r in Hc. apply orb_true_iff in Hc as [E|E];
    apply String.eqb_eq in E; now subst.
Qed.

Lemma traverse_edges_ok (U : gset string) (fuel : nat)
  (visit : string -> gset string -> option (list Node * gset string))
  (s : string) (v0 : gset string) :
  (forall next w, (size (U ∖ w) < fuel)%nat -> visit_ok w (visit next w)) ->
  forall cs res w,
    (cs <> [] -> (size (U ∖ w) < fuel)%nat) ->
    v0 ⊆ w ->
    List.NoDup (map n_id res) ->
    (forall n, In n res -> (n_id n ∉ v0) /\ (n_id n ∈ w)) ->
    exists r' w', traverse_edges visit s cs res w = Some (r', w')
      /\ (w ⊆ w')
      /\ List.NoDup (map n_id r')
      /\ (forall n, In n r' -> (n_id n ∉ v0) /\ (n_id n ∈ w')).
Proof.
  intros Hvisit. induction cs as [|e cs IH]; intros res w Hfuel Hsub Hnd Hres.
  - exists res, w. simpl. repeat split; try assumption; try reflexivity;
      now apply Hres.
  - cbn [traverse_edges].
    set (next := if String.eqb (source e) s then target e else source e).
    destruct (Hvisit next w) as (sub & w1 & Hv & Hsub1 & Hnd1 & Hin1);
      [apply Hfuel; discriminate|].
    rewrite Hv.
    destruct (IH (res ++ sub) w1) as (r' & w' & Hr & Hsub' & Hnd' & Hin').
    + intros _. eapply Nat.le_lt_trans; [|apply Hfuel; discriminate].
      apply subseteq_size. set_solver.
    + set_solver.
    + rewrite map_app. apply List.NoDup_app; try assumption.
      intros x Hx1 Hx2.
      apply in_map_iff in Hx1 as (n1 & <- & Hn1).
      apply in_map_iff in Hx2 as (n2 & E & Hn2).
      destruct (Hres n1 Hn1) as [_ Hw]. destruct (Hin1 n2 Hn2) as [Hnw _].
      rewrite E in Hnw. contradiction.
    + intros n Hn. apply in_app_or in Hn as [Hn|Hn].
      * destruct (Hres n Hn). split; [assumption|set_solver].
      * destruct (Hin1 n Hn). split; [set_solver|assumption].
    + exists r', w'. repeat split; try assumption; [set_solver|..];
        now apply Hin'.
Qed.

Lemma traverseGraph_ok g :
  List.Forall (fun kv => node_keyed kv = true) (nodes g) ->
  forall fuel s d v,
    (size (endpoints g ∖ v) < fuel)%nat ->
    visit_ok v (traverseGraph fuel g s d v).
Proof.
  intros Hkeyed. induction fuel as [|fuel IH]; intros s d v Hfuel; [lia|].
  cbn [traverseGraph].
  destruct (bool_decide (s ∈ v) || (d =? 0))%bool eqn:Guard.
  - exists [], v. repeat split; [reflexivity|constructor|contradiction..].
  - apply orb_false_iff in Guard as [Hs _].
    apply bool_decide_eq_false in Hs.
    destruct (get s (nodes g)) as [node|] eqn:Hget.
    + assert (Hid : n_id node = s).
      { apply get_Some_In in Hget.
        rewrite List.Forall_forall in Hkeyed. specialize (Hkeyed _ Hget).
        unfold node_keyed in Hkeyed. simpl in Hkeyed.
        now apply String.eqb_eq in Hkeyed. }
      destruct (traverse_edges_ok (endpoints g) fuel
                  (fun next w => traverseGraph fuel g next (d - 1) w) s v
                  (fun next w Hw => IH next (d - 1) w Hw)
                  (getNodeConnections g s None) [node] (v ∪ {[s]}))
        as (r' & w' & Hr & Hsub & Hnd & Hin).
      * intros Hne.
        destruct (getNodeConnections g s None) as [|e cs] eqn:Hcs; [congruence|].
        destruct (connection_endpoints g s e) as [HsU _]; [rewrite Hcs; now left|].
        assert (endpoints g ∖ (v ∪ {[s]}) ⊂ endpoints g ∖ v) as Hstrict
          by set_solver.
        apply subset_size in Hstrict. lia.
      * set_solver.
      * simpl. repeat constructor. simpl. tauto.
      * intros n [<-|[]]. rewrite Hid. split; [assumption|set_solver].
      * exists r', w'. repeat split; try assumption; [set_solver|..];
          now apply Hin.
    + exists [], (v ∪ {[s]}).
      repeat split; [set_solver|constructor|contradiction..].
Qed.

(** More fuel does not change what a traversal returns. *)
Lemma traverse_edges_mono
  (visit visit' : string -> gset string -> option (list Node * gset string))
  (s : string) :
  (forall next w out, visit next w = Some out -> visit' next w = Some out) ->
  forall cs res w out,
    traverse_edges visit s cs res w = Some out ->
    traverse_edges visit' s cs res w = Some out.
Proof.
  intros Hv. induction cs as [|e cs IH]; intros res w out H; [exact H|].
  cbn [traverse_edges] in *.
  destruct (visit _ w) as [[sub w']|] eqn:E; [|discriminate].
  rewrite (Hv _ _ _ E). now apply IH.
Qed.

Lemma traverseGraph_more_fuel g fuel : forall s d v out,
  traverseGraph fuel g s d v = Some out ->
  traverseGraph (S fuel) g s d v = Some out.
Proof.
  induction fuel as [|fuel IH]; intros s d v out H; [discriminate|].
  cbn [traverseGraph] in H. cbn [traverseGraph].
  destruct (bool_decide (s ∈ v) || (d =? 0))%bool; [exact H|].
  destruct (get s (nodes g)); [|exact H].
  eapply traverse_edges_mono; [|exact H].
  intros next w out' Hn. now apply IH.
Qed.

(** C6. On a well-formed graph, cyclic or not, [traverseGraph] returns
    with any fuel from [enough_fuel] on, for every start node, depth (also
    a negative one, which no call ever brings to 0) and set of visited
    ids; no node id occurs twice in the result; with [maxDepth = 0] or a
    start node already visited the result is empty. *)
Theorem traverseGraph_terminates_visiting_once g start maxDepth visited fuel :
  wf g ->
  (enough_fuel g <= fuel)%nat ->
  exists result visited',
    traverseGraph fuel g start maxDepth visited = Some (result, visited')
    /\ List.NoDup (map n_id result)
    /\ (maxDepth = 0 \/ start ∈ visited -> result = []).
Proof.
  intros Hwf Hfuel. apply wf_spec in Hwf as (_ & Hkeyed & _).
  destruct (traverseGraph_ok g Hkeyed fuel start maxDepth visited)
    as (r & w' & Hr & _ & Hnd & _).
  { unfold enough_fuel in Hfuel.
    assert (size (endpoints g ∖ visited) <= size (endpoints g))%nat
      by (apply subseteq_size; set_solver).
    lia. }
  exists r, w'. repeat split; try assumption.
  intros Hguard. destruct fuel as [|fuel]; [discriminate|].
  cbn [traverseGraph] in Hr.
  assert (G : (bool_decide (start ∈ visited) || (maxDepth =? 0))%bool = true).
  { destruct Hguard as [-> | Hin]; [apply orb_true_r|].
    apply orb_true_iff. left. now apply bool_decide_eq_true. }
  rewrite G in Hr. now inversion Hr.
Qed.

Lemma traverseGraph_cycle_witness :
  exists result visited',
    traverseGraph (enough_fuel Samples.cyclic_graph) Samples.cyclic_graph
      "node_1" 3 ∅ = Some (result, visited')
    /\ List.NoDup (map n_id result)
    /\ (3 = 0 \/ "node_1" ∈ (∅ : gset string) -> result = []).
Proof.
  apply (traverseGraph_terminates_visiting_once Samples.cyclic_graph "node_1" 3 ∅
           (enough_fuel Samples.cyclic_graph)).
  - reflexivity.
  - apply Nat.le_refl.
Defined.

(** On the two-file cycle the traversal from the first file yields both
    files, each once. *)
Example traverseGraph_cycle_result :
  option_map (fun rv => map n_id (fst rv))
    (traverseGraph (enough_fuel Samples.cyclic_graph) Samples.cyclic_graph
       "node_1" 3 ∅)
  = Some ["node_1"; "node_2"].
Proof. vm_compute. reflexivity. Qed.

(** The sample graphs are built without an exception. *)
Example samples_built :
  option_map fst (addFile Samples.small_file "t0" empty) = Some (Ok "node_1")
  /\ option_map fst (addFile Samples.import_file "t0" empty) = Some (Ok "node_1")
  /\ map (fun n => (n_id n, n_type n)) (values (nodes Samples.project_graph))
     = [("node_1", "file"); ("node_2", "function"); ("node_3", "function");
        ("node_4", "export"); ("node_5", "file"); ("node_6", "class");
        ("node_7", "export"); ("node_8", "file"); ("node_9", "function")]
  /\ getEdgeCount Samples.project_graph = 6
  /\ wf Samples.project_graph.
Proof. vm_compute. repeat split; reflexivity. Qed.

(** ** The selection of nodes *)

Lemma firstn_min {A} (n : nat) (l : list A) :
  firstn (Nat.min n (List.length l)) l = firstn n l.
Proof.
  destruct (Nat.le_ge_cases n (List.length l)) as [H|H].
  - now rewrite Nat.min_l.
  - rewrite Nat.min_r by assumption. now rewrite !firstn_all2 by lia.
Qed.

Lemma slice_0 {A} (k : Z) (l : list A) :
  0 <= k -> slice 0 k l = firstn (Z.to_nat k) l.
Proof.
  intros Hk. unfold slice, rel_index.
  replace (0 <? 0) with false by reflexivity.
  replace (k <? 0) with false by (symmetry; apply Z.ltb_ge; lia).
  rewrite (Z.min_l 0) by lia. rewrite Z.sub_0_r. simpl skipn.
  rewrite <- (firstn_min (Z.to_nat k)). f_equal.
  rewrite Z2Nat.inj_min, Nat2Z.id. reflexivity.
Qed.

Lemma in_firstn {A} (n : nat) (l : list A) x : In x (firstn n l) -> In x l.
Proof.
  revert l. induction n as [|n IH]; intros [|y l]; simpl; try tauto.
  intros [->|H]; [now left|right; now apply IH].
Qed.

Lemma NoDup_map_firstn {A B} (f : A -> B) (n : nat) (l : list A) :
  List.NoDup (map f l) -> List.NoDup (map f (firstn n l)).
Proof.
  revert l. induction n as [|n IH]; intros [|y l]; simpl; try constructor.
  - intros C. apply in_map_iff in C as (x & E & Hx).
    apply List.NoDup_cons_iff in H as [Hn _]. apply Hn.
    apply in_map_iff. exists x. split; [exact E|now apply in_firstn in Hx].
  - apply IH. now apply List.NoDup_cons_iff in H as [_ H].
Qed.

Lemma NoDup_map_filter {A B} (f : A -> B) (p : A -> bool) (l : list A) :
  List.NoDup (map f l) -> List.NoDup (map f (List.filter p l)).
Proof.
  induction l as [|y l IH]; simpl; [constructor|].
  intros H. apply List.NoDup_cons_iff in H as [Hn H].
  destruct (p y); simpl; [|now apply IH].
  constructor; [|now apply IH].
  intros C. apply Hn. apply in_map_iff in C as (x & E & Hx).
  apply in_map_iff. exists x. split; [exact E|]. now apply filter_In in Hx.
Qed.

Lemma NoDup_map_injective {A B} (f : A -> B) (l : list A) x y :
  List.NoDup (map f l) -> In x l -> In y l -> f x = f y -> x = y.
Proof.
  induction l as [|z l IH]; simpl; [tauto|].
  intros H. apply List.NoDup_cons_iff in H as [Hn H].
  intros [->|Hx] [->|Hy] E; try reflexivity.
  - exfalso. apply Hn. rewrite E. now apply in_map.
  - exfalso. apply Hn. rewrite <- E. now apply in_map.
  - now apply IH.
Qed.

Section Selection.

Variable g : Graph.
Hypothesis g_wf : wf g.

Lemma node_ids_NoDup : List.NoDup (map n_id (values (nodes g))).
Proof.
  apply wf_spec in g_wf as (Hn & Hk & _).
  destruct (keyed_entries (nodes g) Hk) as [_ ->]. exact Hn.
Qed.

Lemma by_type_In type n :
  In n (findNodesByType g type) <-> In n (values (nodes g)) /\ n_type n = type.
Proof.
  unfold findNodesByType. rewrite filter_In, String.eqb_eq. reflexivity.
Qed.

Lemma by_type_NoDup type k :
  List.NoDup (map n_id (firstn k (findNodesByType g type))).
Proof.
  apply NoDup_map_firstn, NoDup_map_filter, node_ids_NoDup.
Qed.

(** Nodes of another type than those gathered so far have not been
    added. *)
Lemma other_type_fresh (prev : list Node) (type : string) (k : nat) n :
  (forall m, In m prev -> In m (values (nodes g)) /\ n_type m <> type) ->
  In n (firstn k (findNodesByType g type)) ->
  n_id n ∉ (list_to_set (map n_id prev) : gset string).
Proof.
  intros Hprev Hn C.
  apply in_firstn, by_type_In in Hn as [Hin Ht].
  apply elem_of_list_to_set, list_elem_of_In, in_map_iff in C as (m & E & Hm).
  destruct (Hprev m Hm) as [Hmin Hmt].
  apply Hmt. rewrite <- Ht. f_equal.
  eapply NoDup_map_injective; eauto using node_ids_NoDup.
Qed.

End Selection.

Lemma add_new_all (cands : list Node) : forall nodes (prev : list Node),
  List.NoDup (map n_id cands) ->
  (forall n, In n cands -> n_id n ∉ (list_to_set (map n_id prev) : gset string)) ->
  add_new (fun _ => true) cands nodes (list_to_set (map n_id prev))
  = (nodes ++ cands, list_to_set (map n_id (prev ++ cands))).
Proof.
  induction cands as [|n cands IH]; intros nodes prev Hnd Hfresh; simpl.
  - now rewrite !app_nil_r.
  - apply List.NoDup_cons_iff in Hnd as [Hn Hnd].
    rewrite bool_decide_eq_false_2 by (apply Hfresh; now left). simpl.
    replace (list_to_set (map n_id prev) ∪ {[n_id n]} : gset string)
      with (list_to_set (map n_id (prev ++ [n])) : gset string)
      by (rewrite map_app, list_to_set_app_L; simpl; set_solver).
    rewrite IH, <- !app_assoc; [reflexivity|assumption|].
    intros m Hm. rewrite map_app, list_to_set_app_L. simpl.
    assert (n_id m <> n_id n).
    { intros E. apply Hn. rewrite <- E. now apply in_map. }
    specialize (Hfresh m (or_intror Hm)). set_solver.
Qed.

Lemma add_new_room (maxNodes : Z) (cands : list Node) :
  forall nodes (prev : list Node),
    List.NoDup (map n_id cands) ->
    (forall n, In n cands -> n_id n ∉ (list_to_set (map n_id prev) : gset string)) ->
    fst (add_new (fun ns => Z.of_nat (List.length ns) <? maxNodes) cands nodes
           (list_to_set (map n_id prev)))
    = nodes ++ firstn (Z.to_nat (maxNodes - Z.of_nat (List.length nodes))) cands.
Proof.
  induction cands as [|n cands IH]; intros nodes prev Hnd Hfresh; simpl.
  - now rewrite firstn_nil, app_nil_r.
  - apply List.NoDup_cons_iff in Hnd as [Hn Hnd].
    rewrite bool_decide_eq_false_2 by (apply Hfresh; now left). simpl.
    destruct (Z.of_nat (List.length nodes) <? maxNodes) eqn:E.
    + apply Z.ltb_lt in E.
      replace (list_to_set (map n_id prev) ∪ {[n_id n]} : gset string)
        with (list_to_set (map n_id (prev ++ [n])) : gset string)
        by (rewrite map_app, list_to_set_app_L; simpl; set_solver).
      rewrite IH; [|assumption|].
      * rewrite <- app_assoc, length_app. simpl.
        replace (Z.to_nat (maxNodes - Z.of_nat (List.length nodes)))
          with (S (Z.to_nat (maxNodes - Z.of_nat (List.length nodes + 1)))) by lia.
        reflexivity.
      * intros m Hm. rewrite map_app, list_to_set_app_L. simpl.
        assert (n_id m <> n_id n).
        { intros E'. apply Hn. rewrite <- E'. now apply in_map. }
        specialize (Hfresh m (or_intror Hm)). set_solver.
    + apply Z.ltb_ge in E. rewrite IH; [|assumption|].
      * replace (Z.to_nat (maxNodes - Z.of_nat (List.length nodes))) with O by lia.
        now destruct cands.
      * intros m Hm. apply Hfresh. now right.
Qed.

(** [getRepositoryOverview] gathers a third of [maxNodes] of each of the
    three types and fills up with exports. *)
Lemma getRepositoryOverview_spec g maxNodes :
  wf g -> 0 <= maxNodes ->
  getRepositoryOverview g maxNodes = ContextSpec.overview_nodes g maxNodes.
Proof.
  intros Hwf Hmax. unfold getRepositoryOverview, ContextSpec.overview_nodes.
  assert (H3 : 0 <= maxNodes / 3) by (apply Z.div_pos; lia).
  rewrite !slice_0 by assumption.
  set (k := Z.to_nat (maxNodes / 3)).
  set (F := firstn k (findNodesByType g "file")).
  set (Fn := firstn k (findNodesByType g "function")).
  set (C := firstn k (findNodesByType g "class")).
  assert (HF : forall m, In m F -> In m (values (nodes g)) /\ n_type m = "file")
    by (intros m Hm; now apply in_firstn, by_type_In in Hm).
  assert (HFn : forall m, In m Fn -> In m (values (nodes g)) /\ n_type m = "function")
    by (intros m Hm; now apply in_firstn, by_type_In in Hm).
  assert (HC : forall m, In m C -> In m (values (nodes g)) /\ n_type m = "class")
    by (intros m Hm; now apply in_firstn, by_type_In in Hm).
  change (∅ : gset string) with (list_to_set (map n_id (@nil Node)) : gset string).
  rewrite (add_new_all F [] []);
    [|apply by_type_NoDup; assumption|intros; simpl; set_solver].
  rewrite (add_new_all Fn); [|apply by_type_NoDup; assumption|].
  2:{ intros n Hn. eapply other_type_fresh; eauto. simpl.
      intros m Hm. destruct (HF m Hm) as [? ->]. split; [assumption|discriminate]. }
  rewrite (add_new_all C); [|apply by_type_NoDup; assumption|].
  2:{ intros n Hn. eapply other_type_fresh; eauto. simpl.
      intros m Hm. apply in_app_or in Hm as [Hm|Hm];
        [destruct (HF m Hm) as [? ->]|destruct (HFn m Hm) as [? ->]];
        (split; [assumption|discriminate]). }
  simpl app.
  rewrite add_new_room.
  - now rewrite <- !app_assoc.
  - apply NoDup_map_filter, node_ids_NoDup. assumption.
  - intros n Hn.
    apply (other_type_fresh g Hwf _ "export" (List.length (findNodesByType g "export"))).
    + intros m Hm. apply in_app_or in Hm as [Hm|Hm];
        [apply in_app_or in Hm as [Hm|Hm]|];
        [destruct (HF m Hm) as [? ->]|destruct (HFn m Hm) as [? ->]
         |destruct (HC m Hm) as [? ->]];
        (split; [assumption|discriminate]).
    + now rewrite firstn_all.
Qed.

Lemma is_overview_query_spec query :
  is_overview_query query = true <->
  query = EmptyString
  \/ includes "overview" (toLowerCase query) = true
  \/ includes "module" (toLowerCase query) = true.
Proof.
  unfold is_overview_query. rewrite !orb_true_iff, String.eqb_eq. tauto.
Qed.

Lemma select_nodes_overview g query maxN :
  wf g -> 0 <= maxN -> is_overview_query query = true ->
  select_nodes g query maxN = Some (Ok (ContextSpec.overview_nodes g maxN)).
Proof.
  intros Hwf Hmax Hov. unfold select_nodes. rewrite Hov. unfold ret.
  now rewrite getRepositoryOverview_spec.
Qed.

Lemma getContext_nodes g query options nodes ctx :
  select_nodes g query (maxNodes options) = Some (Ok nodes) ->
  getContext g query options = Some (Ok ctx) ->
  c_nodes ctx = nodes
  /\ getFilesWithContent g nodes (maxFiles options) (maxCodeLength options)
       (includeFullFiles options) = Some (Ok (c_filesWithContent ctx)).
Proof.
  intros Hsel Hctx. unfold getContext in Hctx. rewrite Hsel in Hctx.
  cbn [bindM] in Hctx.
  destruct (getFilesWithContent _ _ _ _ _) as [[files|e]|];
    cbn in Hctx; [|discriminate..].
  inversion Hctx. simpl. split; reflexivity.
Qed.

(** C10. On a well-formed graph and for a budget [maxNodes >= 0], a query
    that is empty or whose lower-case form contains [overview] or [module]
    makes [getContext] select its nodes by [getRepositoryOverview], without
    any search: up to a third of [maxNodes] file nodes, as many function
    nodes and class nodes, then export nodes up to [maxNodes] in all,
    whatever else the query names. *)
Theorem overview_query_bypasses_search g query maxN :
  wf g -> 0 <= maxN ->
  query = EmptyString
  \/ includes "overview" (toLowerCase query) = true
  \/ includes "module" (toLowerCase query) = true ->
  select_nodes g query maxN = Some (Ok (ContextSpec.overview_nodes g maxN))
  /\ (forall options ctx,
        maxNodes options = maxN ->
        getContext g query options = Some (Ok ctx) ->
        c_nodes ctx = ContextSpec.overview_nodes g maxN)
  /\ Z.of_nat (List.length (ContextSpec.overview_nodes g maxN)) <= maxN.
Proof.
  intros Hwf Hmax Hq. apply is_overview_query_spec in Hq.
  pose proof (select_nodes_overview g query maxN Hwf Hmax Hq) as Hsel.
  repeat split; [exact Hsel| |].
  - intros options ctx Hopt Hctx. subst maxN.
    now apply (getContext_nodes g query options _ ctx Hsel).
  - unfold ContextSpec.overview_nodes.
    pose proof (Z.mul_div_le maxN 3 ltac:(lia)).
    assert (0 <= maxN / 3) by (apply Z.div_pos; lia).
    rewrite !length_app, !length_firstn. lia.
Qed.

Lemma overview_query_witness :
  select_nodes Samples.project_graph "the login module" 6
  = Some (Ok (ContextSpec.overview_nodes Samples.project_graph 6))
  /\ (forall options ctx,
        maxNodes options = 6 ->
        getContext Samples.project_graph "the login module" options = Some (Ok ctx) ->
        c_nodes ctx = ContextSpec.overview_nodes Samples.project_graph 6)
  /\ Z.of_nat (List.length (ContextSpec.overview_nodes Samples.project_graph 6)) <= 6.
Proof.
  apply (overview_query_bypasses_search Samples.project_graph "the login module" 6).
  - reflexivity.
  - lia.
  - right. right. reflexivity.
Defined.

(** With [maxNodes = 6] the overview of the sample project holds two
    files, two functions, the class and one export. *)
Example overview_of_project :
  map (fun n => (n_id n, n_type n))
    (getRepositoryOverview Samples.project_graph 6)
  = [("node_1", "file"); ("node_5", "file"); ("node_2", "function");
     ("node_3", "function"); ("node_6", "class"); ("node_4", "export")].
Proof. vm_compute. reflexivity. Qed.

(** ** The choice of files *)

Ltac break_match_in H :=
  repeat match type of H with
         | context [match ?x with _ => _ end] => destruct x eqn:?
         end.

Ltac break_match_goal :=
  repeat match goal with
         | |- context [match ?x with _ => _ end] => destruct x eqn:?
         end.

(** With complete files the content is the stored text. *)
Lemma file_content_full path raw fileData maxCodeLength :
  exists fc, file_content path raw fileData maxCodeLength true = Some (Ok fc)
             /\ fc_content fc = raw /\ fc_path fc = path.
Proof. unfold file_content. simpl. eexists. repeat split. Qed.

(** The loop stops as soon as [maxFiles] files are gathered; a pass
    through the loop adds one file at most. *)
Lemma collect_files_length g maxFiles maxCodeLength full nodes :
  forall files processed out,
    collect_files g maxFiles maxCodeLength full nodes files processed
    = Some (Ok out) ->
    Z.of_nat (List.length out)
    <= Z.max maxFiles (Z.of_nat (List.length files) + 1).
Proof.
  induction nodes as [|node nodes IH]; intros files processed out H.
  - inversion H. lia.
  - cbn [collect_files] in H. unfold bindM, ret in H.
    assert (Hcont : forall fs pr,
               (if maxFiles <=? Z.of_nat (List.length fs) then Some (Ok fs)
                else collect_files g maxFiles maxCodeLength full nodes fs pr)
               = Some (Ok out) ->
               (List.length fs <= List.length files + 1)%nat ->
               Z.of_nat (List.length out)
               <= Z.max maxFiles (Z.of_nat (List.length files) + 1)).
    { intros fs pr Hc Hlen. destruct (maxFiles <=? Z.of_nat (List.length fs)) eqn:E.
      - inversion Hc. subst. lia.
      - apply Z.leb_gt in E. apply IH in Hc. lia. }
    break_match_in H; try discriminate;
      try (apply IH in H; lia);
      try (inversion H; subst; rewrite ?length_app; simpl; lia);
      apply IH in H; rewrite ?length_app in H; simpl in H;
      match goal with E : (maxFiles <=? _) = false |- _ => apply Z.leb_gt in E end;
      rewrite ?length_app in *; simpl in *; lia.
Qed.

Lemma collect_files_full_returns g maxFiles maxCodeLength nodes :
  forall files processed,
    exists out,
      collect_files g maxFiles maxCodeLength true nodes files processed
      = Some (Ok out).
Proof.
  induction nodes as [|node nodes IH]; intros files processed.
  - eexists. reflexivity.
  - cbn [collect_files]. unfold bindM, ret, file_content. simpl.
    break_match_goal; try apply IH; eexists; reflexivity.
Qed.

Lemma getFilesWithContent_length g nodes maxFiles maxCodeLength full out :
  getFilesWithContent g nodes maxFiles maxCodeLength full = Some (Ok out) ->
  Z.of_nat (List.length out) <= Z.max maxFiles 1.
Proof.
  unfold getFilesWithContent, bindM, ret. intros H.
  destruct (collect_files _ _ _ _ _ _ _) as [[files|e]|] eqn:E; try discriminate.
  inversion H. subst out. apply collect_files_length in E. simpl in E.
  erewrite Permutation_length; [|apply sort_perm]. exact E.
Qed.

(** The overview is already in the order in which the files are chosen:
    files, functions and classes, exports. *)
Lemma filter_all {A} (p : A -> bool) (l : list A) :
  (forall x, In x l -> p x = true) -> List.filter p l = l.
Proof.
  induction l as [|x l IH]; simpl; intros H; [reflexivity|].
  rewrite (H x) by now left. f_equal. apply IH. intros; apply H; now right.
Qed.

Lemma filter_none {A} (p : A -> bool) (l : list A) :
  (forall x, In x l -> p x = false) -> List.filter p l = [].
Proof.
  induction l as [|x l IH]; simpl; intros H; [reflexivity|].
  rewrite (H x) by now left. apply IH. intros; apply H; now right.
Qed.

Lemma prioritize_overview g maxNodes :
  prioritizeNodesByRelevance (ContextSpec.overview_nodes g maxNodes)
  = ContextSpec.overview_nodes g maxNodes.
Proof.
  unfold ContextSpec.overview_nodes.
  set (k := Z.to_nat (maxNodes / 3)).
  set (F := firstn k (findNodesByType g "file")).
  set (Fn := firstn k (findNodesByType g "function")).
  set (C := firstn k (findNodesByType g "class")).
  set (E := firstn _ (findNodesByType g "export")).
  assert (HF : forall m, In m F -> n_type m = "file").
  { intros m Hm. apply in_firstn in Hm. unfold findNodesByType in Hm.
    apply filter_In in Hm as [_ Hm]. now apply String.eqb_eq. }
  assert (HFn : forall m, In m Fn -> n_type m = "function").
  { intros m Hm. apply in_firstn in Hm. unfold findNodesByType in Hm.
    apply filter_In in Hm as [_ Hm]. now apply String.eqb_eq. }
  assert (HC : forall m, In m C -> n_type m = "class").
  { intros m Hm. apply in_firstn in Hm. unfold findNodesByType in Hm.
    apply filter_In in Hm as [_ Hm]. now apply String.eqb_eq. }
  assert (HE : forall m, In m E -> n_type m = "export").
  { intros m Hm. apply in_firstn in Hm. unfold findNodesByType in Hm.
    apply filter_In in Hm as [_ Hm]. now apply String.eqb_eq. }
  unfold prioritizeNodesByRelevance. cbv zeta. rewrite !List.filter_app.
  repeat match goal with
         | |- context [List.filter ?p ?l] =>
             first
               [ rewrite (filter_all p l)
                   by (intros x Hx;
                       first [apply HF in Hx|apply HFn in Hx|apply HC in Hx
                             |apply HE in Hx]; rewrite Hx; reflexivity)
               | rewrite (filter_none p l)
                   by (intros x Hx;
                       first [apply HF in Hx|apply HFn in Hx|apply HC in Hx
                             |apply HE in Hx]; rewrite Hx; reflexivity) ]
         end.
  simpl. now rewrite !app_nil_r, <- !app_assoc.
Qed.


Lemma StronglySorted_app {A} (R : A -> A -> Prop) (l1 l2 : list A) :
  StronglySorted R l1 -> StronglySorted R l2 ->
  (forall x y, In x l1 -> In y l2 -> R x y) ->
  StronglySorted R (l1 ++ l2).
Proof.
  induction 1 as [|x l1 Hs IH Hx]; intros H2 Hc; simpl; [exact H2|].
  constructor.
  - apply IH; [exact H2|]. intros; apply Hc; [now right|assumption].
  - apply List.Forall_app. split; [exact Hx|].
    apply List.Forall_forall. intros y Hy. apply Hc; [now left|exact Hy].
Qed.

Lemma same_key_sorted {A} (key : A -> Z) (c : Z) (l : list A) :
  (forall x, In x l -> key x = c) ->
  StronglySorted (fun a b => key a <= key b) l.
Proof.
  induction l as [|x l IH]; intros H; constructor.
  - apply IH. intros; apply H; now right.
  - apply List.Forall_forall. intros y Hy.
    rewrite (H x), (H y) by (simpl; auto). lia.
Qed.

Lemma priority_of_filters (nodes : list Node) :
  let of_type t n := String.eqb (n_type n) t in
  (forall n, In n (List.filter (of_type "file") nodes) ->
             ContextSpec.priority n = 0)
  /\ (forall n, In n (List.filter
                        (fun n => (of_type "function" n || of_type "class" n)%bool)
                        nodes) ->
                ContextSpec.priority n = 1)
  /\ (forall n, In n (List.filter (of_type "export") nodes) ->
                ContextSpec.priority n = 2)
  /\ (forall n, In n (List.filter
                        (fun n => negb (of_type "file" n || of_type "function" n
                                        || of_type "class" n || of_type "export" n)%bool)
                        nodes) ->
                ContextSpec.priority n = 3).
Proof.
  cbv zeta. unfold ContextSpec.priority.
  repeat split; intros n Hn; apply filter_In in Hn as [_ Hn].
  - now rewrite Hn.
  - apply orb_true_iff in Hn as [Hn|Hn]; apply String.eqb_eq in Hn;
      rewrite Hn; reflexivity.
  - apply String.eqb_eq in Hn. rewrite Hn. reflexivity.
  - apply negb_true_iff in Hn.
    repeat (apply orb_false_iff in Hn as [Hn ?]).
    repeat match goal with H : _ = false |- _ => rewrite H; clear H end.
    reflexivity.
Qed.

(** [prioritizeNodesByRelevance] puts the nodes in the order of their
    rank and keeps them all. *)
Lemma prioritize_sorted nodes :
  StronglySorted (fun a b => ContextSpec.priority a <= ContextSpec.priority b)
    (prioritizeNodesByRelevance nodes)
  /\ Permutation (prioritizeNodesByRelevance nodes) nodes.
Proof.
  destruct (priority_of_filters nodes) as (P0 & P1 & P2 & P3).
  unfold prioritizeNodesByRelevance. cbv zeta in *. split.
  - assert (cross : forall (l1 l2 : list Node) c1 c2,
               (forall n, In n l1 -> ContextSpec.priority n = c1) ->
               (forall n, In n l2 -> c2 <= ContextSpec.priority n) ->
               c1 <= c2 ->
               forall x y, In x l1 -> In y l2 ->
                           ContextSpec.priority x <= ContextSpec.priority y).
    { intros l1 l2 c1 c2 H1 H2 Hc x y Hx Hy.
      rewrite (H1 x Hx). specialize (H2 y Hy). lia. }
    apply StronglySorted_app; [eapply same_key_sorted; exact P0| |].
    + apply StronglySorted_app; [eapply same_key_sorted; exact P1| |].
      * apply StronglySorted_app; eauto using same_key_sorted.
        apply (cross _ _ 2 3); [exact P2| |lia].
        intros n Hn. rewrite (P3 n Hn). lia.
      * apply (cross _ _ 1 2); [exact P1| |lia].
        intros n Hn. apply in_app_or in Hn as [Hn|Hn];
          [rewrite (P2 n Hn)|rewrite (P3 n Hn)]; lia.
    + apply (cross _ _ 0 1); [exact P0| |lia].
      intros n Hn. apply in_app_or in Hn as [Hn|Hn];
        [|apply in_app_or in Hn as [Hn|Hn]];
        [rewrite (P1 n Hn)|rewrite (P2 n Hn)|rewrite (P3 n Hn)]; lia.
  - clear P0 P1 P2 P3. induction nodes as [|n nodes IH]; [constructor|].
    cbn [List.filter].
    destruct (String.eqb_spec (n_type n) "file") as [E0|E0].
    { rewrite E0. simpl. apply perm_skip, IH. }
    destruct (String.eqb_spec (n_type n) "function") as [E1|E1].
    { rewrite E1. simpl.
      etransitivity; [symmetry; apply Permutation_middle|apply perm_skip, IH]. }
    destruct (String.eqb_spec (n_type n) "class") as [E2|E2].
    { rewrite E2. simpl.
      etransitivity; [symmetry; apply Permutation_middle|apply perm_skip, IH]. }
    destruct (String.eqb_spec (n_type n) "export") as [E3|E3].
    { simpl. rewrite (app_assoc (List.filter _ nodes)).
      etransitivity; [symmetry; apply Permutation_middle|].
      rewrite <- app_assoc. apply perm_skip, IH. }
    simpl. rewrite !app_assoc.
    etransitivity; [symmetry; apply Permutation_middle|].
    rewrite <- !app_assoc. apply perm_skip, IH.
Qed.

(** On the sample project the two files returned are those of the first
    two file nodes. *)
Example empty_query_on_project :
  option_map
    (fun r => match r with
              | Ok ctx => map fc_path (c_filesWithContent ctx)
              | Throw _ => []
              end)
    (getContext Samples.project_graph EmptyString (mkOptions 50 2 5000 true))
  = Some ["auth.js"; "user.js"].
Proof. vm_compute. reflexivity. Qed.

(** ** The excerpt and its budget *)

(** Where [findFunctionEnd] reads [fileData]: at the end of the first line
    it scans, unless that line closes the braces it opens. *)
Lemma findFunctionEnd_unbound_fileData lines startLine st :
  0 <= startLine < Z.of_nat (List.length lines) ->
  scan_braces (nth (Z.to_nat startLine) lines EmptyString) 0 false = inl st ->
  findFunctionEnd lines startLine
  = Some (Throw (ReferenceError "fileData is not defined")).
Proof.
  intros Hrange Hscan. unfold findFunctionEnd.
  replace (startLine <? 0) with false by (symmetry; apply Z.ltb_ge; lia).
  assert (Hskip : exists rest,
             skipn (Z.to_nat startLine) lines
             = nth (Z.to_nat startLine) lines EmptyString :: rest).
  { assert (Hn : (Z.to_nat startLine < List.length lines)%nat) by lia.
    revert Hn. generalize (Z.to_nat startLine). clear.
    induction lines as [|l lines IH]; intros [|n] Hn; simpl in *; try lia.
    - eauto.
    - apply IH. lia. }
  destruct Hskip as [rest ->]. cbn [findFunctionEnd_loop].
  rewrite Hscan. destruct st. reflexivity.
Qed.

(** C1 fails on the code. With complete files not asked for and a budget
    below the size of [a.js], whose function [f] spans three lines,
    [getContext] raises the [ReferenceError] of [findFunctionEnd]: the
    identifier [fileData] is not bound there. *)
Theorem getContext_raises_ReferenceError :
  getContext Samples.small_graph EmptyString (mkOptions 50 10 10 false)
  = Some (Throw (ReferenceError "fileData is not defined")).
Proof. vm_compute. reflexivity. Qed.

Lemma take_all (n : nat) (s : string) :
  (String.length s <= n)%nat -> take n s = s.
Proof.
  revert n. induction s as [|c s IH]; intros [|n] H; simpl in *;
    try reflexivity; try lia.
  f_equal. apply IH. lia.
Qed.

Lemma strlen_nonneg s : 0 <= strlen s.
Proof. unfold strlen. lia. Qed.

Lemma total_length_nonneg l : 0 <= ContextSpec.total_length l.
Proof.
  induction l as [|s l IH]; simpl; [lia|]. pose proof (strlen_nonneg s). lia.
Qed.













(** ** Search: the pattern of a plain query *)

Lemma word_char_is_literal c :
  Regex.is_word c = true ->
  Ascii.eqb c "\" = false /\ Ascii.eqb c "." = false /\ Ascii.eqb c "(" = false
  /\ Ascii.eqb c ")" = false /\ Ascii.eqb c "[" = false
  /\ Regex.is_syntax_char c = false.
Proof.
  intros H. destruct c as [[] [] [] [] [] [] [] []];
    vm_compute in H; try discriminate H; vm_compute; repeat split; reflexivity.
Qed.

Lemma compile_literals q :
  ContextSpec.word_only q = true ->
  Regex.compile (String.append q "\b")
  = Some (Ok (map Regex.Lit (list_ascii_of_string q) ++ [Regex.WordBoundary])).
Proof.
  induction q as [|c q IH]; intros H; [reflexivity|].
  simpl in H. apply andb_true_iff in H as [Hc Hq].
  destruct (word_char_is_literal c Hc) as (H1 & H2 & H3 & H4 & H5 & H6).
  change (String.append (String c q) "\b")
    with (String c (String.append q "\b")).
  cbn [Regex.compile]. rewrite H1, H2, H3, H4, H5, H6.
  rewrite (IH Hq). reflexivity.
Qed.

(** The pattern [\bq\b] of a query [q] of word characters. *)
Lemma compile_plain_query q :
  ContextSpec.word_only q = true ->
  Regex.compile (String.append "\b" (String.append q "\b"))
  = Some (Ok (Regex.WordBoundary
                :: map Regex.Lit (list_ascii_of_string q) ++ [Regex.WordBoundary])).
Proof.
  intros H. change (String.append "\b" (String.append q "\b"))
    with (String "\" (String "b" (String.append q "\b"))).
  cbn [Regex.compile]. change (Ascii.eqb "\" "\") with true.
  change (Ascii.eqb "b" "b") with true. cbv iota.
  now rewrite compile_literals.
Qed.

Lemma match_here_literals q : forall prev s,
  Regex.match_here
    (map Regex.Lit (list_ascii_of_string q) ++ [Regex.WordBoundary]) prev s
  = if (startsWith q s
        && ContextSpec.boundary (ContextSpec.last_char prev q)
             (drop (String.length q) s))%bool
    then Some (String.length q) else None.
Proof.
  induction q as [|c q IH]; intros prev s.
  - cbn. unfold ContextSpec.boundary.
    destruct (Regex.word_before prev), (Regex.word_after s), s; reflexivity.
  - destruct s as [|c' s]; [reflexivity|].
    cbn [list_ascii_of_string map app Regex.match_here startsWith
           ContextSpec.last_char String.length drop].
    destruct (Ascii.eqb_spec c c') as [->|Hne]; [|reflexivity].
    rewrite IH. cbn [andb].
    destruct (startsWith q s && _)%bool; reflexivity.
Qed.

Lemma match_here_plain q prev s :
  Regex.match_here
    (Regex.WordBoundary
       :: map Regex.Lit (list_ascii_of_string q) ++ [Regex.WordBoundary]) prev s
  = if ContextSpec.whole_word_at q prev s then Some (String.length q) else None.
Proof.
  cbn [Regex.match_here]. rewrite match_here_literals.
  unfold ContextSpec.whole_word_at. rewrite <- andb_assoc.
  set (rest := (startsWith q s && _)%bool).
  unfold ContextSpec.boundary.
  destruct (Regex.word_before prev), (Regex.word_after s); reflexivity.
Qed.

Lemma startsWith_take p : forall s,
  startsWith p s = true ->
  take (String.length p) s = p /\ (String.length p <= String.length s)%nat.
Proof.
  induction p as [|a p IH]; intros [|b s] H; simpl in *;
    try discriminate; try (split; [reflexivity|lia]).
  apply andb_true_iff in H as [Hab Hp]. apply Ascii.eqb_eq in Hab. subst b.
  destruct (IH s Hp) as [-> Hlen]. split; [reflexivity|lia].
Qed.

(** The matches of [\bq\b], found from left to right without overlap, are
    the whole-word occurrences of [q]: inside an occurrence no other one
    starts, as there is no word boundary there. *)
Lemma count_from_occurrences q :
  ContextSpec.word_only q = true -> q <> EmptyString ->
  forall s prev k,
    k = O \/ (Regex.word_before prev = true
              /\ ContextSpec.word_only (take k s) = true
              /\ (k <= String.length s)%nat) ->
    Regex.count_from
      (Regex.WordBoundary
         :: map Regex.Lit (list_ascii_of_string q) ++ [Regex.WordBoundary])
      prev s k
    = ContextSpec.occurrences_from q prev s.
Proof.
  intros Hq Hne. induction s as [|c s IH]; intros prev k Hk.
  - assert (k = O) as -> by (destruct Hk as [->|(_ & _ & H)]; [reflexivity|simpl in H; lia]).
    cbn [Regex.count_from ContextSpec.occurrences_from].
    rewrite match_here_plain.
    destruct (ContextSpec.whole_word_at q prev EmptyString); reflexivity.
  - cbn [Regex.count_from ContextSpec.occurrences_from].
    destruct k as [|k].
    + rewrite match_here_plain.
      destruct (ContextSpec.whole_word_at q prev (String c s)) eqn:W.
      * rewrite IH; [reflexivity|].
        unfold ContextSpec.whole_word_at in W.
        apply andb_true_iff in W as [W _]. apply andb_true_iff in W as [_ W].
        destruct q as [|c0 q]; [congruence|].
        simpl in W. apply andb_true_iff in W as [Hc W].
        apply Ascii.eqb_eq in Hc. subst c0.
        simpl in Hq. apply andb_true_iff in Hq as [Hc Hq].
        destruct (startsWith_take q s W) as [Ht Hl].
        right. simpl. rewrite Ht. auto.
      * rewrite IH; [reflexivity|now left].
    + destruct Hk as [Hk|(Hp & Hw & Hl)]; [discriminate|].
      simpl in Hw, Hl. apply andb_true_iff in Hw as [Hc Hw].
      assert (W : ContextSpec.whole_word_at q prev (String c s) = false).
      { unfold ContextSpec.whole_word_at, ContextSpec.boundary.
        simpl. rewrite Hp, Hc. reflexivity. }
      rewrite W. rewrite IH; [reflexivity|].
      right. simpl. repeat split; [exact Hc|exact Hw|lia].
Qed.

Lemma no_occurrence_without_inclusion q : forall s prev,
  includes q s = false -> ContextSpec.occurrences_from q prev s = O.
Proof.
  induction s as [|c s IH]; intros prev H; simpl in *.
  - unfold ContextSpec.whole_word_at. rewrite H, andb_false_r. reflexivity.
  - apply orb_false_iff in H as [H1 H2].
    unfold ContextSpec.whole_word_at. rewrite H1, andb_false_r. simpl.
    now apply IH.
Qed.

(** For a query of word characters the relevance that [searchNodes]
    computes is the one of the specification. *)
Lemma relevance_plain_query q node :
  ContextSpec.word_only q = true -> q <> EmptyString ->
  relevance q node = Some (Ok (ContextSpec.relevance q node)).
Proof.
  intros Hq Hne. unfold relevance, ContextSpec.relevance,
    ContextSpec.whole_word_occurrences.
  set (dataStr := toLowerCase (stringify (JObj (n_data node)))).
  destruct (includes q dataStr) eqn:Hin.
  - rewrite compile_plain_query by assumption.
    unfold Regex.count_matches.
    rewrite (count_from_occurrences q Hq Hne) by now left.
    do 2 f_equal. lia.
  - rewrite no_occurrence_without_inclusion by assumption.
    do 2 f_equal. lia.
Qed.

(** ** Search: results *)

Lemma StronglySorted_impl_key {A} (R R' : A -> A -> Prop) (l : list A) :
  (forall a b, R a b -> R' a b) -> StronglySorted R l -> StronglySorted R' l.
Proof.
  intros Himp. induction 1 as [|x l Hs IH Hx]; constructor; [exact IH|].
  eapply List.Forall_impl; [|exact Hx]. intros; now apply Himp.
Qed.


Lemma score_nodes_plain q ns :
  ContextSpec.word_only q = true -> q <> EmptyString ->
  score_nodes q ns
  = Some (Ok (map (fun n => (n, ContextSpec.relevance q n))
                (List.filter (fun n => 0 <? ContextSpec.relevance q n) ns))).
Proof.
  intros Hq Hne. induction ns as [|n ns IH]; [reflexivity|].
  cbn [score_nodes List.filter]. rewrite relevance_plain_query by assumption.
  rewrite IH. destruct (0 <? ContextSpec.relevance q n); reflexivity.
Qed.

Lemma sort_scored {A} (f : A -> Z) (l : list A) :
  sort (fun a b => snd b - snd a) (map (fun n => (n, f n)) l)
  = map (fun n => (n, f n)) (sort (fun a b => f b - f a) l).
Proof.
  induction l as [|x l IH]; [reflexivity|].
  cbn [map sort]. rewrite IH. clear IH.
  induction (sort (fun a b => f b - f a) l) as [|y s IHs]; [reflexivity|].
  cbn [map insert_by snd]. destruct (0 <? f y - f x); [|reflexivity].
  cbn [map]. now rewrite IHs.
Qed.

(** For a query of word characters [searchNodes] returns the nodes of
    positive relevance, by relevance descending, ties in insertion order,
    the relevance being 2 for the type, 1 for the data and 3 for each
    whole-word occurrence in the data. *)
Lemma searchNodes_plain_query g query :
  let q := toLowerCase query in
  ContextSpec.word_only q = true -> q <> EmptyString ->
  searchNodes g query = Some (Ok (ContextSpec.search g query))
  /\ StronglySorted
       (fun a b => ContextSpec.relevance q b <= ContextSpec.relevance q a)
       (ContextSpec.search g query)
  /\ (forall r,
        List.filter (fun n => ContextSpec.relevance q n =? r)
          (ContextSpec.search g query)
        = List.filter (fun n => ContextSpec.relevance q n =? r)
            (List.filter (fun n => 0 <? ContextSpec.relevance q n)
               (values (nodes g))))
  /\ (forall n, In n (ContextSpec.search g query) <->
                In n (values (nodes g)) /\ 0 < ContextSpec.relevance q n).
Proof.
  intros q Hq Hne. unfold ContextSpec.search. fold q.
  set (cmp := fun a b => ContextSpec.relevance q b - ContextSpec.relevance q a).
  set (key := fun n => - ContextSpec.relevance q n).
  assert (Hcmp : forall x y, cmp x y = key x - key y)
    by (intros; unfold cmp, key; lia).
  split; [|split; [|split]].
  - unfold searchNodes. fold q. rewrite score_nodes_plain by assumption.
    rewrite sort_scored. rewrite map_map. simpl. now rewrite map_id.
  - eapply StronglySorted_impl_key; [|apply (sort_sorted cmp key Hcmp)].
    unfold key. intros; lia.
  - intros r.
    rewrite (filter_ext _ (fun n => key n =? - r))
      by (intros n; unfold key; destruct (Z.eqb_spec (ContextSpec.relevance q n) r),
            (Z.eqb_spec (- ContextSpec.relevance q n) (- r)); try reflexivity; lia).
    rewrite (sort_stable cmp key Hcmp).
    apply filter_ext. intros n. unfold key.
    destruct (Z.eqb_spec (ContextSpec.relevance q n) r),
      (Z.eqb_spec (- ContextSpec.relevance q n) (- r)); try reflexivity; lia.
  - intros n. split.
    + intros Hin. eapply Permutation_in in Hin; [|apply sort_perm].
      apply filter_In in Hin as [Hin Hpos]. split; [exact Hin|now apply Z.ltb_lt].
    + intros [Hin Hpos]. eapply Permutation_in; [symmetry; apply sort_perm|].
      apply filter_In. split; [exact Hin|now apply Z.ltb_lt].
Qed.

(** A query that no node matches yields no node. *)
Lemma searchNodes_no_match g query :
  (forall n, In n (values (nodes g)) ->
             includes (toLowerCase query) (n_type n) = false
             /\ includes (toLowerCase query)
                  (toLowerCase (stringify (JObj (n_data n)))) = false) ->
  searchNodes g query = Some (Ok []).
Proof.
  intros H. unfold searchNodes.
  assert (Hs : score_nodes (toLowerCase query) (values (nodes g)) = Some (Ok [])).
  { induction (values (nodes g)) as [|n ns IH]; [reflexivity|].
    cbn [score_nodes]. unfold relevance.
    destruct (H n (or_introl eq_refl)) as [-> ->].
    rewrite IH by (intros; apply H; now right). reflexivity. }
  now rewrite Hs.
Qed.

(** The pattern built from the query [(] cannot be compiled: the search
    throws at the first node whose data contains a parenthesis. *)
Lemma relevance_open_parenthesis node :
  includes "(" (toLowerCase (stringify (JObj (n_data node)))) = true ->
  relevance "(" node = Some (Throw (SyntaxError "Unterminated group")).
Proof. intros H. unfold relevance. rewrite H. reflexivity. Qed.

(** C8 fails on the code. On the sample project, whose files contain
    parentheses, [searchNodes("(")] raises the [SyntaxError] of
    [new RegExp]: the query is spliced into the pattern unescaped. *)
Theorem searchNodes_raises_SyntaxError :
  searchNodes Samples.project_graph "("
  = Some (Throw (SyntaxError "Unterminated group")).
Proof. vm_compute. reflexivity. Qed.

(** C4 fails on the code for a query with a character that has a meaning
    in a pattern. For the query [user.js] the dot matches any character:
    [user_js] counts as an occurrence, the file [user.js] gets the
    relevance 10 where the formula gives 4, and it comes first in the
    result where the formula puts [b.js] first. *)
Theorem searchNodes_counts_pattern_matches :
  map (fun n => (n_id n, relevance "user.js" n, ContextSpec.relevance "user.js" n))
    (values (nodes Samples.dotted_graph))
  = [("node_1", Some (Ok 7), 7); ("node_2", Some (Ok 4), 4);
     ("node_3", Some (Ok 10), 4); ("node_4", Some (Ok 7), 4)]
  /\ ContextSpec.ids (searchNodes Samples.dotted_graph "user.js")
     = Some (Ok ["node_3"; "node_1"; "node_4"; "node_2"])
  /\ map n_id (ContextSpec.search Samples.dotted_graph "user.js")
     = ["node_1"; "node_2"; "node_3"; "node_4"].
Proof. vm_compute. repeat split; reflexivity. Qed.

(** On the sample project the query [login] is a query of word
    characters: the file that defines and exports [login] comes first. *)
Example searchNodes_login :
  ContextSpec.ids (searchNodes Samples.project_graph "login")
  = Some (Ok ["node_1"; "node_2"; "node_4"]).
Proof. vm_compute. reflexivity. Qed.

(** ** Strings: inclusion *)

Lemma append_cons c a b : String.append (String c a) b = String c (String.append a b).
Proof. reflexivity. Qed.

Lemma append_empty_l a : String.append EmptyString a = a.
Proof. reflexivity. Qed.

Lemma append_assoc a b c :
  String.append (String.append a b) c = String.append a (String.append b c).
Proof.
  induction a as [|x a IH]; [reflexivity|].
  now rewrite !append_cons, IH.
Qed.

Lemma startsWith_append p b : startsWith p (String.append p b) = true.
Proof.
  induction p as [|c p IH]; [reflexivity|].
  rewrite append_cons. simpl. now rewrite Ascii.eqb_refl, IH.
Qed.

Lemma includes_append p : forall a b,
  includes p (String.append a (String.append p b)) = true.
Proof.
  induction a as [|c a IH]; intros b.
  - rewrite append_empty_l.
    destruct (String.append p b) eqn:E; simpl.
    + destruct p; [reflexivity|discriminate].
    + rewrite <- E, startsWith_append. reflexivity.
  - rewrite append_cons. simpl. rewrite IH. apply orb_true_r.
Qed.

Lemma append_empty_r a : String.append a EmptyString = a.
Proof.
  induction a as [|c a IH]; [reflexivity|]. now rewrite append_cons, IH.
Qed.

Lemma occurs_in_trans x y s : occurs_in x y -> occurs_in y s -> occurs_in x s.
Proof.
  intros (a & b & ->) (a' & b' & ->).
  exists (String.append a' a), (String.append b b').
  now rewrite !append_assoc.
Qed.

Lemma occurs_in_includes x s : occurs_in x s -> includes x s = true.
Proof. intros (a & b & ->). apply includes_append. Qed.

Lemma toLowerCase_append a b :
  toLowerCase (String.append a b) = String.append (toLowerCase a) (toLowerCase b).
Proof.
  induction a as [|c a IH]; [reflexivity|].
  rewrite append_cons. simpl. now rewrite IH.
Qed.

Lemma occurs_in_toLowerCase x s :
  occurs_in x s -> occurs_in (toLowerCase x) (toLowerCase s).
Proof.
  intros (a & b & ->). exists (toLowerCase a), (toLowerCase b).
  now rewrite !toLowerCase_append.
Qed.

Lemma occurs_in_join sep x l : In x l -> occurs_in x (join sep l).
Proof.
  induction l as [|y l IH]; [contradiction|].
  intros [->|Hin].
  - destruct l as [|z l].
    + exists EmptyString, EmptyString.
      now rewrite append_empty_l, append_empty_r.
    + exists EmptyString, (String.append sep (join sep (z :: l))). reflexivity.
  - destruct (IH Hin) as (a & b & E). destruct l as [|z l]; [contradiction|].
    exists (String.append y (String.append sep a)), b.
    change (join sep (y :: z :: l))
      with (String.append y (String.append sep (join sep (z :: l)))).
    rewrite E. now rewrite !append_assoc.
Qed.

(** ** The relevance ranker *)

Lemma occurs_in_stringify_object (k : string) (v : json) (o : object) :
  In (k, v) o -> v <> JUndefined ->
  occurs_in (stringify v) (stringify (JObj o)).
Proof.
  intros Hin Hv. cbn [stringify].
  set (fields := flat_map _ o).
  assert (Hf : In (String.append (quote k) (String.append ":" (stringify v))) fields).
  { unfold fields. apply in_flat_map. exists (k, v). split; [exact Hin|].
    simpl. destruct v; try congruence; now left. }
  destruct (occurs_in_join "," _ _ Hf) as (a & b & E).
  exists (String.append "{" (String.append a (String.append (quote k) ":"))),
    (String.append b "}").
  rewrite E. now rewrite !append_assoc.
Qed.

Lemma In_set_prop k v o : In (k, v) (set_prop k v o).
Proof.
  induction o as [|[k' v'] o IH]; simpl; [now left|].
  destruct (String.eqb k k'); [now left|now right].
Qed.

Lemma prop_set_prop k v o : prop k (set_prop k v o) = v.
Proof.
  induction o as [|[k' v'] o IH]; simpl.
  - now rewrite String.eqb_refl.
  - destruct (String.eqb k k') eqn:E; simpl; [now rewrite String.eqb_refl|].
    now rewrite E.
Qed.

(** The text of a node contains its name, when the name has no character
    that a JSON string escapes. *)
Lemma name_occurs_in_node name node :
  escape name = name ->
  occurs_in name (stringify (node_json (ContextSpec.with_name name node))).
Proof.
  intros Hesc.
  apply occurs_in_trans with (y := quote name).
  { exists (String dquote EmptyString), (String dquote EmptyString).
    unfold quote. now rewrite Hesc. }
  apply occurs_in_trans
    with (y := stringify (JObj (n_data (ContextSpec.with_name name node)))).
  - apply (occurs_in_stringify_object "name" (JStr name)); [|discriminate].
    simpl. apply In_set_prop.
  - apply (occurs_in_stringify_object "data"); [|discriminate].
    simpl. auto.
Qed.

(** C7, as the code has it. For one keyword, a node whose name is the
    keyword up to case, the name having no character that a JSON string
    escapes, gets at least 7 from that keyword (2 for its text, 5 for its
    name) and the same node with a name that only contains the keyword
    gets at most 6 (2, 1 for the stem and 3): with a list of that one
    keyword the first scores strictly higher. The scores of the other
    keywords of a longer list add to both and can reverse the order. *)
Theorem exact_name_outranks_substring node nameA nameB keyword :
  nameA <> EmptyString ->
  escape nameA = nameA ->
  toLowerCase nameA = original keyword ->
  includes (original keyword) (toLowerCase nameB) = true ->
  toLowerCase nameB <> original keyword ->
  let A := ContextSpec.with_name nameA node in
  let B := ContextSpec.with_name nameB node in
  7 <= keyword_relevance A (toLowerCase (stringify (node_json A))) keyword
  /\ keyword_relevance B (toLowerCase (stringify (node_json B))) keyword <= 6
  /\ calculateRelevance B [keyword] < calculateRelevance A [keyword].
Proof.
  intros Hne Hesc Hexact Hsub Hproper A B.
  assert (HA : 7 <= keyword_relevance A (toLowerCase (stringify (node_json A)))
                      keyword).
  { unfold keyword_relevance.
    assert (Hin : includes (original keyword)
                    (toLowerCase (stringify (node_json A))) = true).
    { rewrite <- Hexact. apply occurs_in_includes, occurs_in_toLowerCase.
      now apply name_occurs_in_node. }
    rewrite Hin.
    unfold str_prop, A, ContextSpec.with_name. cbn [n_data].
    rewrite prop_set_prop.
    destruct (String.eqb_spec nameA EmptyString) as [E|_]; [contradiction|].
    rewrite Hexact, String.eqb_refl.
    match goal with |- context [if ?b then 1 else 0] => destruct b end; lia. }
  assert (HB : keyword_relevance B (toLowerCase (stringify (node_json B)))
                 keyword <= 6).
  { unfold keyword_relevance.
    unfold str_prop, B, ContextSpec.with_name. cbn [n_data].
    rewrite prop_set_prop.
    cbv iota.
    assert (Hname :
              match (if String.eqb nameB EmptyString then None else Some nameB) with
              | Some n =>
                  if String.eqb (toLowerCase n) (original keyword) then 5
                  else if includes (original keyword) (toLowerCase n)
                       then 3 else 0
              | None => 0
              end <= 3).
    { destruct (String.eqb nameB EmptyString); [lia|].
      destruct (String.eqb_spec (toLowerCase nameB) (original keyword));
        [contradiction|].
      destruct (includes (original keyword) (toLowerCase nameB)); lia. }
    revert Hname. generalize (match (if String.eqb nameB EmptyString
                                     then None else Some nameB) with
                              | Some n =>
                                  if String.eqb (toLowerCase n) (original keyword)
                                  then 5
                                  else if includes (original keyword) (toLowerCase n)
                                       then 3 else 0
                              | None => 0
                              end).
    intros z Hz.
    repeat match goal with
           | |- context [if ?b then _ else _] => destruct b
           end; lia. }
  repeat split; try assumption.
  unfold calculateRelevance. cbn [fold_left]. lia.
Qed.

Lemma exact_name_witness :
  let keyword := mkKeyword "parse" "pars" in
  let A := ContextSpec.with_name "Parse" Samples.parse_node in
  let B := ContextSpec.with_name "parseFile" Samples.parse_node in
  7 <= keyword_relevance A (toLowerCase (stringify (node_json A))) keyword
  /\ keyword_relevance B (toLowerCase (stringify (node_json B))) keyword <= 6
  /\ calculateRelevance B [keyword] < calculateRelevance A [keyword].
Proof.
  apply (exact_name_outranks_substring Samples.parse_node "Parse" "parseFile"
           (mkKeyword "parse" "pars")).
  - discriminate.
  - reflexivity.
  - reflexivity.
  - reflexivity.
  - discriminate.
Defined.

(** C7 as stated fails on the code for a list of two keywords. For the
    keywords of [parse file] the function named [parse] scores 11 and the
    same node named [parsefile] scores 12: its name contains the second
    keyword too. *)
Lemma substring_match_outranks_exact_name :
  let A := ContextSpec.with_name "parse" Samples.parse_node in
  let B := ContextSpec.with_name "parsefile" Samples.parse_node in
  calculateRelevance A Samples.parse_file_keywords = 11
  /\ calculateRelevance B Samples.parse_file_keywords = 12
  /\ ~ calculateRelevance B Samples.parse_file_keywords
       < calculateRelevance A Samples.parse_file_keywords.
Proof. vm_compute. repeat split; congruence. Qed.

(** ** The graph store: adding nodes and edges *)

Lemma length_set {V} k (v : V) m :
  List.length (set k v m) = (List.length m + if has k m then 0 else 1)%nat.
Proof.
  unfold has. induction m as [|[k' v'] m IH]; cbn; [reflexivity|].
  destruct (String.eqb k k'); cbn; [lia|].
  rewrite IH. destruct (get k m); lia.
Qed.

Lemma In_set_same {V} k (v : V) m : In (k, v) (set k v m).
Proof.
  induction m as [|[k' v'] m IH]; cbn; [now left|].
  destruct (String.eqb k k'); cbn; auto.
Qed.

Lemma In_set_other {V} k k' (v v' : V) m :
  k' <> k -> In (k', v') m -> In (k', v') (set k v m).
Proof.
  intros Hne. induction m as [|[k0 v0] m IH]; cbn; [tauto|].
  intros [H|H].
  - inversion H; subst. destruct (String.eqb_spec k k'); [congruence|now left].
  - destruct (String.eqb k k0); cbn; auto.
Qed.

Lemma In_edge_objects k e (es : omap EdgeEntry) :
  In (k, EdgeObject e) es -> In e (edge_objects es).
Proof.
  intros H. unfold edge_objects. apply in_flat_map.
  exists (k, EdgeObject e). split; [exact H|now left].
Qed.


(** X1. [addNode] takes as id the [data.id] of the caller when that is a
    non-empty string, and else, when [data.id] is falsy, the id generated
    from the counter after [++]; a [data.id] that is truthy and no string
    is outside the model. It stores the new node under the id it returns,
    leaves the node of every other id as it was and does not touch the
    edges. The node count grows by one when the id was not in use and
    stays the same when it was: a node added under a used id replaces the
    former one. *)
Theorem addNode_stores_under_returned_id type data now g :
  (forall given, prop "id" data = JStr given -> given <> EmptyString ->
     exists g', addNode type data now g = Some (given, g'))
  /\ (forall c, truthy (prop "id" data) = false ->
        increment (nodeIdCounter g) = Some c ->
        exists g', addNode type data now g = Some (node_id_of c, g'))
  /\ (forall id g',
        addNode type data now g = Some (id, g') ->
        (truthy (prop "id" data) = true -> prop "id" data = JStr id)
        /\ (truthy (prop "id" data) = false ->
            exists c, increment (nodeIdCounter g) = Some c /\ id = node_id_of c)
        /\ get id (nodes g') = Some (mkNode id type data now)
        /\ (forall k, k <> id -> get k (nodes g') = get k (nodes g))
        /\ getNodeCount g' = getNodeCount g + (if has id (nodes g) then 0 else 1)
        /\ edges g' = edges g).
Proof.
  split; [|split].
  - intros given Hid Hne. unfold addNode.
    rewrite (node_id_for_given data g given Hid Hne). eauto.
  - intros c Hid Hc. unfold addNode.
    rewrite (node_id_for_generated data g c Hid Hc). eauto.
  - intros id g' H. unfold addNode in H.
    destruct (node_id_for data g) as [[i g1]|] eqn:E; [|discriminate].
    inversion H; subst i g'; clear H.
    assert (Hg1 : nodes g1 = nodes g /\ edges g1 = edges g).
    { destruct (node_id_for_spec _ _ _ _ E) as [(_ & _ & ->)|(_ & c & _ & _ & ->)];
        split; reflexivity. }
    destruct Hg1 as [N Ed].
    unfold getNodeCount, with_nodes. cbn [nodes edges]. rewrite N, Ed.
    split; [|split; [|split; [apply get_set_eq|split; [|split; [|reflexivity]]]]].
    + intros Ht.
      destruct (node_id_for_spec _ _ _ _ E) as [(Hid & _)|(Hf & _)];
        [exact Hid|congruence].
    + intros Hf.
      destruct (node_id_for_spec _ _ _ _ E) as [(Hid & Hne & _)|(_ & c & Hc & -> & _)].
      * rewrite Hid in Hf. cbn [truthy] in Hf. apply negb_false_iff in Hf.
        apply String.eqb_eq in Hf. contradiction.
      * eauto.
    + intros k Hk. now apply get_set_ne.
    + rewrite length_set. destruct (has id (nodes g)); lia.
Qed.


(** X2. In a graph where no id that [generateNodeId] has still to hand
    out is in use (a new graph is one) and whose counter is below [2^53],
    a node added with a falsy [data.id] gets the id [node_<counter + 1>],
    which was not in use: the node count grows by one, every node already
    stored stays as it was, and the ids still to come remain unused. *)
Theorem generated_id_is_fresh type data now g :
  fresh_ids g ->
  truthy (prop "id" data) = false ->
  nodeIdCounter g < max_exact ->
  let id := node_id_of (nodeIdCounter g + 1) in
  exists g',
    addNode type data now g = Some (id, g')
    /\ nodeIdCounter g' = nodeIdCounter g + 1
    /\ get id (nodes g) = None
    /\ getNodeCount g' = getNodeCount g + 1
    /\ (forall k n, get k (nodes g) = Some n -> get k (nodes g') = Some n)
    /\ fresh_ids g'.
Proof.
  intros Hfresh Hid Hmax. cbv zeta.
  destruct (addNode_generated type data now g Hfresh Hid Hmax)
    as (E & Hnew & Hkept & Hfresh').
  eexists. split; [exact E|]. split; [reflexivity|]. split; [exact Hnew|].
  split; [|split; [exact Hkept|exact Hfresh']].
  unfold getNodeCount. cbn [nodes]. rewrite length_app. cbn [List.length]. lia.
Qed.

Lemma generated_id_witness :
  let g := empty in
  let id := node_id_of (nodeIdCounter g + 1) in
  exists g',
    addNode "file" [("path", JStr "a.js")] "t0" g = Some (id, g')
    /\ nodeIdCounter g' = nodeIdCounter g + 1
    /\ get id (nodes g) = None
    /\ getNodeCount g' = getNodeCount g + 1
    /\ (forall k n, get k (nodes g) = Some n -> get k (nodes g') = Some n)
    /\ fresh_ids g'.
Proof.
  apply (generated_id_is_fresh "file" [("path", JStr "a.js")] "t0" empty).
  - split; [cbn; lia | reflexivity].
  - reflexivity.
  - reflexivity.
Defined.

Lemma edge_objects_set_length k v (es : omap EdgeEntry) :
  (List.length (edge_objects (set k v es))
   + match get k es with Some (EdgeObject _) => 1 | _ => 0 end
   = List.length (edge_objects es)
     + match v with EdgeObject _ => 1 | _ => 0 end)%nat.
Proof.
  unfold edge_objects.
  induction es as [|[k' v'] es IH]; cbn.
  - destruct v; cbn; lia.
  - destruct (String.eqb k k') eqn:E; cbn.
    + destruct v, v'; cbn; lia.
    + destruct v'; cbn in *; lia.
Qed.


(** X3. Whatever its outcome, [addEdge] stores the edge under the id
    [edge_<c>], where [c] is the counter after [++]: [counter + 1] below
    [2^53], and [2^53] again at [2^53]. [getNodeConnections] lists the
    edge for the source and for the target, also when asked for its
    relationship; the edge count grows by one unless an edge was stored
    under that id already; the nodes are left as they were. *)
Theorem addEdge_stores_the_edge s t rel meta now g c :
  increment (edgeIdCounter g) = Some c ->
  let id := edge_id_of c in
  let edge := mkEdge id s t rel meta now in
  exists r g',
    addEdge s t rel meta now g = Some (r, g')
    /\ (edgeIdCounter g < max_exact -> c = edgeIdCounter g + 1)
    /\ edgeIdCounter g' = c
    /\ get id (edges g') = Some (EdgeObject edge)
    /\ In edge (getNodeConnections g' s None)
    /\ In edge (getNodeConnections g' t None)
    /\ In edge (getNodeConnections g' s (Some rel))
    /\ getEdgeCount g'
       = getEdgeCount g
         + match get id (edges g) with Some (EdgeObject _) => 0 | _ => 1 end
    /\ nodes g' = nodes g.
Proof.
  intros Hc. cbv zeta.
  set (id := edge_id_of c).
  set (edge := mkEdge id s t rel meta now).
  set (es1 := set id (EdgeObject edge) (edges g)).
  pose proof (get_set_eq id (EdgeObject edge) (edges g)) as Hget1.
  fold es1 in Hget1.
  pose proof (edge_objects_set_length id (EdgeObject edge) (edges g)) as Hlen1.
  fold es1 in Hlen1.
  assert (Hfin : exists r g',
             addEdge s t rel meta now g = Some (r, g')
             /\ edgeIdCounter g' = c
             /\ get id (edges g') = Some (EdgeObject edge)
             /\ List.length (edge_objects (edges g'))
                = List.length (edge_objects es1)
             /\ nodes g' = nodes g).
  { destruct (addEdge_cases s t rel meta now g c Hc)
      as [[_ E]|[(Hne & l & Hl & E)|(Hne & Hn & E)]];
      rewrite E; do 2 eexists; (split; [reflexivity|]);
      cbn [with_edges edges nodes edgeIdCounter]; fold id edge es1;
      (split; [reflexivity|]).
    - auto.
    - assert (Hs : get s es1 = Some (EdgeArray l))
        by (unfold es1; rewrite get_set_ne by exact Hne; exact Hl).
      split; [rewrite get_set_ne by congruence; exact Hget1|].
      split; [|reflexivity].
      pose proof (edge_objects_set_length s (EdgeArray (l ++ [edge])) es1) as H.
      rewrite Hs in H. lia.
    - assert (Hs : get s es1 = None)
        by (unfold es1; rewrite get_set_ne by exact Hne; exact Hn).
      split; [rewrite !get_set_ne by congruence; exact Hget1|].
      split; [|reflexivity].
      pose proof (edge_objects_set_length s (EdgeArray []) es1) as H1.
      pose proof (edge_objects_set_length s (EdgeArray [edge])
                    (set s (EdgeArray []) es1)) as H2.
      rewrite Hs in H1. rewrite get_set_eq in H2. lia. }
  destruct Hfin as (r & g' & E & Hcount & Hid & Hlen & Hnodes).
  exists r, g'. split; [exact E|].
  split; [intros Hlt; apply (increment_spec _ _ Hc), Hlt|].
  split; [exact Hcount|].
  assert (Hin : In edge (edge_objects (edges g')))
    by (eapply In_edge_objects, get_Some_In, Hid).
  assert (Hconn : forall x q, (x = s \/ x = t) -> (q = None \/ q = Some rel) ->
            In edge (getNodeConnections g' x q)).
  { intros x q Hx Hq. apply filter_In. split; [exact Hin|]. cbn.
    assert ((String.eqb s x || String.eqb t x)%bool = true) as ->.
    { destruct Hx as [->| ->]; rewrite String.eqb_refl; [reflexivity|apply orb_true_r]. }
    destruct Hq as [->| ->]; [reflexivity|].
    rewrite String.eqb_refl. cbn. apply orb_true_r. }
  split; [exact Hid|].
  split; [apply Hconn; auto|]. split; [apply Hconn; auto|].
  split; [apply Hconn; auto|].
  split; [|exact Hnodes].
  unfold getEdgeCount. rewrite Hlen.
  destruct (get id (edges g)) as [[e|l]|]; lia.
Qed.

Lemma addEdge_stores_witness :
  let g := empty in
  let id := edge_id_of 1 in
  let edge := mkEdge id "node_1" "node_2" "references" [] "t0" in
  exists r g',
    addEdge "node_1" "node_2" "references" [] "t0" g = Some (r, g')
    /\ (edgeIdCounter g < max_exact -> 1 = edgeIdCounter g + 1)
    /\ edgeIdCounter g' = 1
    /\ get id (edges g') = Some (EdgeObject edge)
    /\ In edge (getNodeConnections g' "node_1" None)
    /\ In edge (getNodeConnections g' "node_2" None)
    /\ In edge (getNodeConnections g' "node_1" (Some "references"))
    /\ getEdgeCount g'
       = getEdgeCount g
         + match get id (edges g) with Some (EdgeObject _) => 0 | _ => 1 end
    /\ nodes g' = nodes g.
Proof.
  apply (addEdge_stores_the_edge "node_1" "node_2" "references" [] "t0" empty 1).
  reflexivity.
Defined.

(** X4. [addEdge] returns the id of the new edge or raises a
    [TypeError], and it raises exactly when the source id is the key of
    an edge in [this.edges]: the id of the edge being added, or the id of
    an edge stored before. [c] is the counter after [++]. *)
Theorem addEdge_throws_on_edge_id s t rel meta now g c :
  increment (edgeIdCounter g) = Some c ->
  let id := edge_id_of c in
  exists r g',
    addEdge s t rel meta now g = Some (r, g')
    /\ (r = Ok id \/ exists what, r = Throw (TypeError what))
    /\ (r <> Ok id
        <-> (s = id \/ exists e, get s (edges g) = Some (EdgeObject e))).
Proof.
  intros Hc. cbv zeta.
  destruct (addEdge_cases s t rel meta now g c Hc)
    as [[Hs E]|[(Hne & l & Hl & E)|(Hne & Hn & E)]];
    rewrite E; do 2 eexists; (split; [reflexivity|]).
  - split; [right; eauto|]. split; [auto|congruence].
  - split; [left; reflexivity|]. split; [congruence|].
    intros [H|[e H]]; congruence.
  - split; [left; reflexivity|]. split; [congruence|].
    intros [H|[e H]]; congruence.
Qed.

Lemma addEdge_throws_witness :
  let g := empty in
  let id := edge_id_of 1 in
  exists r g',
    addEdge "edge_1" "node_2" "references" [] "t0" g = Some (r, g')
    /\ (r = Ok id \/ exists what, r = Throw (TypeError what))
    /\ (r <> Ok id
        <-> ("edge_1" = id
             \/ exists e, get "edge_1" (edges g) = Some (EdgeObject e))).
Proof.
  apply (addEdge_throws_on_edge_id "edge_1" "node_2" "references" [] "t0" empty 1).
  reflexivity.
Defined.


(** ** Traversal: how far it goes *)

Lemma traverse_edges_no_descent
  (visit : string -> gset string -> option (list Node * gset string))
  (s : string) :
  (forall next w, visit next w = Some ([], w)) ->
  forall cs res w, traverse_edges visit s cs res w = Some (res, w).
Proof.
  intros Hv cs. induction cs as [|e cs IH]; intros res w; cbn; [reflexivity|].
  rewrite Hv, app_nil_r. apply IH.
Qed.

Lemma traverseGraph_depth_0 g fuel s v :
  traverseGraph (S fuel) g s 0 v = Some ([], v).
Proof. cbn. rewrite orb_true_r. reflexivity. Qed.

(** X5. [traverseGraph(id, 1)] with a new [visited] returns the start
    node alone when the graph has a node under [id], and nothing
    otherwise: the depth counts the start node, its neighbours need a
    depth of two. *)
Theorem traverse_depth_one_is_the_start_node g s :
  traverse g s 1
  = match get s (nodes g) with Some node => [node] | None => [] end.
Proof.
  unfold traverse, enough_fuel.
  cbn [traverseGraph].
  rewrite bool_decide_eq_false_2 by set_solver. cbn [orb Z.eqb].
  destruct (get s (nodes g)) as [node|]; [|reflexivity].
  destruct (getNodeConnections g s None) as [|e cs] eqn:Hc; [reflexivity|].
  assert (He : In e (getNodeConnections g s None)) by (rewrite Hc; now left).
  apply connection_endpoints in He. destruct He as [Hs _].
  destruct (size (endpoints g)) as [|k] eqn:Hk.
  { apply size_empty_inv in Hk. set_solver. }
  rewrite traverse_edges_no_descent; [reflexivity|].
  intros next w. apply traverseGraph_depth_0.
Qed.

Lemma traverse_edges_within g (P : Node -> Prop) (W : string -> Node -> Prop)
  (visit : string -> gset string -> option (list Node * gset string))
  (s : string) :
  (forall next w sub w', visit next w = Some (sub, w') ->
     forall n, In n sub -> W next n) ->
  (forall e n,
     In e (getNodeConnections g s None) ->
     W (if String.eqb (source e) s then target e else source e) n -> P n) ->
  forall cs res w r w',
    incl cs (getNodeConnections g s None) ->
    (forall n, In n res -> P n) ->
    traverse_edges visit s cs res w = Some (r, w') ->
    forall n, In n r -> P n.
Proof.
  intros Hv Hstep cs. induction cs as [|e cs IH]; intros res w r w' Hcs Hres H; cbn in H.
  - inversion H; subst. exact Hres.
  - destruct (visit _ w) as [[sub w1]|] eqn:Hsub; [|discriminate].
    eapply IH; [| |exact H].
    + intros x Hx. apply Hcs. now right.
    + intros n Hn. apply in_app_or in Hn. destruct Hn as [Hn|Hn]; [auto|].
      eapply Hstep; [apply Hcs; now left|]. eapply Hv; eauto.
Qed.

Lemma within_more g k a b : within g k a b -> within g (S k) a b.
Proof.
  induction 1; [constructor|]. eapply within_step; eauto.
Qed.

(** X6. For a positive [maxDepth], every node [traverseGraph] returns
    is stored in the graph under an id that is at most [maxDepth - 1]
    edges away from the start id, edges followed in either direction;
    this holds for every set [visited] and whenever the call returns. *)
Theorem traverseGraph_stays_within_depth g fuel : forall s d v r v',
  0 < d ->
  traverseGraph fuel g s d v = Some (r, v') ->
  forall n, In n r ->
    exists id, get id (nodes g) = Some n /\ within g (Z.to_nat (d - 1)) s id.
Proof.
  induction fuel as [|fuel IH]; intros s d v r v' Hd H; [discriminate|].
  cbn [traverseGraph] in H.
  destruct (bool_decide (s ∈ v) || (d =? 0))%bool.
  { inversion H; subst. intros n []. }
  destruct (get s (nodes g)) as [node|] eqn:Hnode.
  2:{ inversion H; subst. intros n []. }
  eapply (traverse_edges_within g
            (fun n => exists id, get id (nodes g) = Some n
                                 /\ within g (Z.to_nat (d - 1)) s id)
            (fun next n => 1 < d /\ exists id, get id (nodes g) = Some n
                                 /\ within g (Z.to_nat (d - 2)) next id));
    [| | |  |exact H].
  - intros next w sub w' Hsub n Hn.
    destruct (Z.eq_dec d 1) as [->|Hd1].
    + destruct fuel; [discriminate|].
      rewrite traverseGraph_depth_0 in Hsub. inversion Hsub; subst. destruct Hn.
    + split; [lia|].
      replace (d - 2) with (d - 1 - 1) by lia.
      eapply IH; [|exact Hsub|exact Hn]. lia.
  - intros e n He [Hd1 (id & Hid & Hw)]. exists id. split; [exact Hid|].
    replace (Z.to_nat (d - 1)) with (S (Z.to_nat (d - 2))) by lia.
    apply filter_In in He. destruct He as [He Hcond].
    rewrite andb_true_r in Hcond. apply orb_true_iff in Hcond.
    eapply within_step; [exact He| |exact Hw].
    destruct (String.eqb_spec (source e) s) as [Hs|Hs].
    + left. auto.
    + right. destruct Hcond as [Hc|Hc]; [discriminate|].
      apply String.eqb_eq in Hc. auto.
  - apply incl_refl.
  - intros n [<-|[]]. exists s. split; [exact Hnode|constructor].
Qed.

Lemma traverseGraph_within_witness :
  0 < 3
  /\ forall n, In n (traverse Samples.cyclic_graph "node_1" 3) ->
       exists id, get id (nodes Samples.cyclic_graph) = Some n
                  /\ within Samples.cyclic_graph (Z.to_nat (3 - 1)) "node_1" id.
Proof.
  split; [lia|].
  eapply (traverseGraph_stays_within_depth Samples.cyclic_graph
            (enough_fuel Samples.cyclic_graph) "node_1" 3 ∅).
  - lia.
  - vm_compute. reflexivity.
Defined.

(** ** Search: the empty query *)

Lemma includes_empty s : includes EmptyString s = true.
Proof. destruct s; reflexivity. Qed.

Lemma relevance_empty_query node :
  exists r, relevance EmptyString node = Some (Ok r) /\ 3 <= r.
Proof.
  unfold relevance. rewrite !includes_empty.
  cbn [String.append Regex.compile].
  eexists. split; [reflexivity|]. lia.
Qed.

Lemma score_nodes_empty_query ns :
  exists scored, score_nodes EmptyString ns = Some (Ok scored) /\ map fst scored = ns.
Proof.
  induction ns as [|n ns (scored & Hs & Hm)]; cbn [score_nodes].
  - exists []. auto.
  - destruct (relevance_empty_query n) as (r & -> & Hr). rewrite Hs.
    assert ((0 <? r) = true) as -> by (apply Z.ltb_lt; lia).
    exists ((n, r) :: scored). cbn. split; [reflexivity|congruence].
Qed.

(** X7. [searchNodes('')] returns every node of the graph, each once:
    the empty query is contained in every type and in every serialized
    data, and the pattern it builds can be compiled. *)
Theorem searchNodes_empty_query_matches_all g :
  exists found,
    searchNodes g EmptyString = Some (Ok found)
    /\ Permutation found (values (nodes g)).
Proof.
  unfold searchNodes. cbn [toLowerCase].
  destruct (score_nodes_empty_query (values (nodes g))) as (scored & -> & Hm).
  eexists. split; [reflexivity|].
  rewrite <- Hm. apply Permutation_map.
  apply sort_perm.
Qed.

(** ** Snapshots: duplicates and the way back *)

Lemma find_app_first {A} (p : A -> bool) (l1 l2 : list A) :
  List.find p (l1 ++ l2)
  = match List.find p l1 with Some x => Some x | None => List.find p l2 end.
Proof.
  induction l1 as [|x l1 IH]; cbn; [reflexivity|].
  destruct (p x); [reflexivity|exact IH].
Qed.

Lemma get_fold_set {X V} (kf : X -> string) (vf : X -> V) k (xs : list X) :
  forall m : omap V,
    get k (fold_left (fun acc x => set (kf x) (vf x) acc) xs m)
    = match List.find (fun x => String.eqb k (kf x)) (rev xs) with
      | Some x => Some (vf x)
      | None => get k m
      end.
Proof.
  induction xs as [|x xs IH]; intros m; cbn [fold_left rev]; [reflexivity|].
  rewrite IH, find_app_first.
  destruct (List.find _ (rev xs)); [reflexivity|].
  cbn [List.find]. destruct (String.eqb_spec k (kf x)) as [->|Hne].
  - apply get_set_eq.
  - apply get_set_ne. exact Hne.
Qed.

Lemma length_fold_set {X V} (kf : X -> string) (vf : X -> V) (xs : list X) :
  forall m : omap V,
    (List.length (fold_left (fun acc x => set (kf x) (vf x) acc) xs m)
     <= List.length m + List.length xs)%nat.
Proof.
  induction xs as [|x xs IH]; intros m; cbn [fold_left List.length]; [lia|].
  specialize (IH (set (kf x) (vf x) m)). rewrite length_set in IH.
  destruct (has (kf x) m); lia.
Qed.

(** X8. After [import(data)], the node stored under an id is the last
    node of [data.nodes] with that id, and likewise for the edges and the
    repositories; an id that [data] does not list is not in the graph.
    Hence the node count is at most the length of [data.nodes]: nodes
    that repeat an id are dropped but for the last. *)
Theorem import_keeps_the_last_duplicate h data id :
  get id (nodes (import h data))
  = List.find (fun n => String.eqb id (n_id n)) (rev (s_nodes data))
  /\ get id (edges (import h data))
     = option_map EdgeObject
         (List.find (fun e => String.eqb id (e_id e)) (rev (s_edges data)))
  /\ get id (repositories (import h data))
     = option_map snd
         (List.find (fun r => String.eqb id (fst r)) (rev (s_repositories data)))
  /\ getNodeCount (import h data) <= Z.of_nat (List.length (s_nodes data)).
Proof.
  unfold import, clear.
  destruct (import_repository_fold (s_repositories data)
              (fold_left import_edge (s_edges data)
                 (fold_left import_node (s_nodes data) empty)))
    as (Hn3 & He3 & Hr3 & _).
  destruct (import_edge_fold (s_edges data)
              (fold_left import_node (s_nodes data) empty))
    as (Hn2 & He2 & Hr2 & _).
  destruct (import_node_fold (s_nodes data) empty) as (Hn1 & He1 & Hr1 & _).
  cbv zeta in *.
  split; [|split; [|split]].
  - rewrite Hn3, Hn2, Hn1, get_fold_set.
    destruct (List.find _ _); reflexivity.
  - rewrite He3, He2, He1, get_fold_set.
    destruct (List.find _ _); reflexivity.
  - rewrite Hr3, Hr2, Hr1, get_fold_set.
    destruct (List.find _ _); reflexivity.
  - unfold getNodeCount. rewrite Hn3, Hn2, Hn1. cbn [nodes empty].
    apply inj_le.
    apply (length_fold_set n_id (fun n => n) (s_nodes data) []).
Qed.

Lemma distinct_app_nil (ks : list string) :
  distinct ks = true -> List.NoDup (@nil string ++ ks).
Proof. intros H. apply distinct_NoDup. exact H. Qed.

(** X9. Exporting the graph right after [import(data)] gives [data]
    back: the same nodes, edges and repositories in the same order, and
    their lengths as counts, for every [data] whose node ids, edge ids
    and repository URLs do not repeat, whatever the graph held before. *)
Theorem export_import_roundtrip h data :
  distinct (map n_id (s_nodes data)) = true ->
  distinct (map e_id (s_edges data)) = true ->
  distinct (map fst (s_repositories data)) = true ->
  export (import h data)
  = mkSnapshot (s_nodes data) (s_edges data) (s_repositories data)
      (Z.of_nat (List.length (s_nodes data)))
      (Z.of_nat (List.length (s_edges data))).
Proof.
  intros Dn De Dr. unfold import, clear.
  destruct (import_repository_fold (s_repositories data)
              (fold_left import_edge (s_edges data)
                 (fold_left import_node (s_nodes data) empty)))
    as (Hn3 & He3 & Hr3 & _).
  destruct (import_edge_fold (s_edges data)
              (fold_left import_node (s_nodes data) empty))
    as (Hn2 & He2 & Hr2 & _).
  destruct (import_node_fold (s_nodes data) empty) as (Hn1 & He1 & Hr1 & _).
  cbv zeta in *.
  rewrite Hn2, Hn1 in Hn3. rewrite He2, He1 in He3. rewrite Hr2, Hr1 in Hr3.
  cbn [nodes edges repositories empty] in Hn3, He3, Hr3.
  rewrite (set_all_fresh n_id (fun n => n)) in Hn3 by (apply distinct_app_nil, Dn).
  rewrite (set_all_fresh e_id EdgeObject) in He3 by (apply distinct_app_nil, De).
  rewrite (set_all_fresh fst snd) in Hr3 by (apply distinct_app_nil, Dr).
  cbn [app] in Hn3, He3, Hr3.
  unfold export, getNodeCount, getEdgeCount.
  rewrite Hn3, He3, Hr3, edge_objects_rebuilt, !length_map, !map_map.
  cbn [snd].
  f_equal.
  - rewrite <- (map_id (s_nodes data)) at 2. apply map_ext. intros []; reflexivity.
  - rewrite <- (map_id (s_repositories data)) at 2. apply map_ext. intros []; reflexivity.
Qed.

Lemma export_import_witness :
  export (import empty (export Samples.project_graph))
  = mkSnapshot (s_nodes (export Samples.project_graph))
      (s_edges (export Samples.project_graph))
      (s_repositories (export Samples.project_graph))
      (Z.of_nat (List.length (s_nodes (export Samples.project_graph))))
      (Z.of_nat (List.length (s_edges (export Samples.project_graph)))).
Proof.
  apply (export_import_roundtrip empty (export Samples.project_graph));
    vm_compute; reflexivity.
Defined.

(** ** Statistics *)

Lemma tally_all_counts (ks : list string) : forall counts,
  forallb (fun k => negb (existsb (String.eqb k) prototype_names)) ks = true ->
  exists counts',
    tally_all counts ks = Some counts'
    /\ forall k, count_of counts' k
                 = count_of counts k
                   + Z.of_nat (List.length (List.filter (fun s => String.eqb s k) ks)).
Proof.
  induction ks as [|k0 ks IH]; intros counts Hp; cbn [tally_all].
  - exists counts. split; [reflexivity|]. intros k. cbn. lia.
  - cbn [forallb] in Hp. apply andb_true_iff in Hp. destruct Hp as [Hk0 Hp].
    unfold tally. apply negb_true_iff in Hk0. rewrite Hk0.
    destruct (IH (<[k0 := default 0 (counts !! k0) + 1]> counts) Hp)
      as (counts' & -> & Hc).
    exists counts'. split; [reflexivity|].
    intros k. rewrite Hc. unfold count_of. cbn [List.filter].
    destruct (String.eqb_spec k0 k) as [->|Hne].
    + rewrite lookup_insert_eq. cbn. lia.
    + rewrite lookup_insert_ne by exact Hne. lia.
Qed.

Lemma length_filter_map {A B} (f : A -> B) (p : B -> bool) (l : list A) :
  List.length (List.filter p (map f l))
  = List.length (List.filter (fun x => p (f x)) l).
Proof.
  induction l as [|x l IH]; cbn; [reflexivity|].
  destruct (p (f x)); cbn; congruence.
Qed.

Lemma forallb_map_eq {A B} (f : A -> B) (p : B -> bool) (l : list A) :
  forallb p (map f l) = forallb (fun x => p (f x)) l.
Proof. induction l as [|x l IH]; cbn; congruence. Qed.

(** X10. When no node type and no relationship is a name inherited from
    [Object.prototype], [getStatistics] returns, and it agrees with the
    queries: [nodeTypes[t]] is the number of nodes [findNodesByType(t)]
    returns, [relationshipTypes[r]] the number of edges of relationship
    [r], and the totals are the node count and the edge count. *)
Theorem getStatistics_agrees_with_queries g :
  plain_names g = true ->
  exists st,
    getStatistics g = Some st
    /\ (forall type,
          count_of (nodeTypes st) type
          = Z.of_nat (List.length (findNodesByType g type)))
    /\ (forall rel,
          count_of (relationshipTypes st) rel
          = Z.of_nat (List.length
                        (List.filter (fun e => String.eqb (relationship e) rel)
                           (edge_objects (edges g)))))
    /\ totalNodes st = getNodeCount g
    /\ totalEdges st = getEdgeCount g.
Proof.
  intros Hp. unfold plain_names in Hp. apply andb_true_iff in Hp.
  destruct Hp as [Hn He].
  destruct (tally_all_counts (map n_type (values (nodes g))) ∅) as (nt & Hnt & Hcn).
  { rewrite forallb_map_eq. exact Hn. }
  destruct (tally_all_counts (map relationship (edge_objects (edges g))) ∅)
    as (rt & Hrt & Hcr).
  { rewrite forallb_map_eq. exact He. }
  unfold getStatistics. rewrite Hnt, Hrt.
  eexists. split; [reflexivity|]. cbn.
  split; [|split; [|split; reflexivity]].
  - intros type. rewrite Hcn. unfold count_of. rewrite lookup_empty. cbn.
    rewrite length_filter_map. reflexivity.
  - intros rel. rewrite Hcr. unfold count_of. rewrite lookup_empty. cbn.
    rewrite length_filter_map. reflexivity.
Qed.

Lemma getStatistics_witness :
  exists st,
    getStatistics Samples.project_graph = Some st
    /\ (forall type,
          count_of (nodeTypes st) type
          = Z.of_nat (List.length (findNodesByType Samples.project_graph type)))
    /\ (forall rel,
          count_of (relationshipTypes st) rel
          = Z.of_nat (List.length
                        (List.filter (fun e => String.eqb (relationship e) rel)
                           (edge_objects (edges Samples.project_graph)))))
    /\ totalNodes st = getNodeCount Samples.project_graph
    /\ totalEdges st = getEdgeCount Samples.project_graph.
Proof.
  apply (getStatistics_agrees_with_queries Samples.project_graph).
  vm_compute. reflexivity.
Defined.

(** ** Populating the graph *)

Lemma is_node_id_generated n : is_node_id (node_id_of n) = true.
Proof. reflexivity. Qed.

Lemma edge_id_not_node_id n : is_node_id (edge_id_of n) = false.
Proof. reflexivity. Qed.

Lemma edge_id_edge_key n : startsWith "edge_" (edge_id_of n) = true.
Proof. reflexivity. Qed.

Lemma node_id_not_edge_key s :
  is_node_id s = true -> startsWith "edge_" s = false.
Proof.
  unfold is_node_id. destruct s as [|c s]; [discriminate|]. cbn [startsWith].
  destruct (Ascii.eqb_spec "n" c) as [<-|]; intros H; [reflexivity|discriminate].
Qed.

Lemma edge_keys_ok_spec g :
  edge_keys_ok g = true <->
  List.Forall (fun kv : string * EdgeEntry =>
                 match snd kv with
                 | EdgeObject _ => startsWith "edge_" (fst kv)
                 | EdgeArray _ => true
                 end = true) (edges g).
Proof. unfold edge_keys_ok. apply forallb_Forall. Qed.

Lemma nodes_kept_refl g : nodes_kept g g.
Proof. intros k n H. exact H. Qed.

Lemma nodes_kept_trans g1 g2 g3 :
  nodes_kept g1 g2 -> nodes_kept g2 g3 -> nodes_kept g1 g3.
Proof. intros H1 H2 k n H. apply H2, H1, H. Qed.

(** *** The counter of node ids only grows *)

Lemma counts_up_ret {A} (a : A) : counts_up (op_ret a).
Proof. intros g r g' H. inversion H. lia. Qed.

Lemma counts_up_unmodelled {A} :
  counts_up (fun _ => None : option (result A * Graph)).
Proof. intros g r g' H. discriminate. Qed.

Lemma counts_up_throw {A} e :
  counts_up (fun g => Some (Throw e, g) : option (result A * Graph)).
Proof. intros g r g' H. inversion H. lia. Qed.

Lemma counts_up_bind {A B} (m : Op A) (k : A -> Op B) :
  counts_up m -> (forall a, counts_up (k a)) -> counts_up (op_bind m k).
Proof.
  intros Hm Hk g r g' H. unfold op_bind in H.
  destruct (m g) as [[[a|e] g1]|] eqn:E; try discriminate.
  - pose proof (Hm _ _ _ E). pose proof (Hk _ _ _ _ H). lia.
  - inversion H; subst. eapply Hm; eassumption.
Qed.

Lemma counts_up_for {X} (f : X -> Op unit) (xs : list X) :
  (forall x, counts_up (f x)) -> counts_up (op_for f xs).
Proof.
  intros Hf. induction xs as [|x xs IH]; cbn [op_for].
  - apply counts_up_ret.
  - apply counts_up_bind; [apply Hf|intros _; exact IH].
Qed.

Lemma counts_up_each xs body :
  (forall x, counts_up (body x)) -> counts_up (op_each xs body).
Proof.
  intros Hb. unfold op_each.
  destruct xs; cbn;
    try apply counts_up_ret; try apply counts_up_unmodelled;
    try (destruct b; [apply counts_up_unmodelled|apply counts_up_ret]);
    try (destruct (negb _); [apply counts_up_unmodelled|apply counts_up_ret]).
  now apply counts_up_for.
Qed.

Lemma counts_up_with_graph {A} (m : Graph -> Op A) :
  (forall g0, counts_up (m g0)) -> counts_up (fun g => m g g).
Proof. intros H g r g' E. eapply H; eassumption. Qed.

Lemma counts_up_field k x : counts_up (op_field k x).
Proof. intros g r g' H. inversion H. lia. Qed.

Lemma addNode_counter type data now g id g' :
  addNode type data now g = Some (id, g') ->
  nodeIdCounter g <= nodeIdCounter g'
  /\ (truthy (prop "id" data) = false ->
      increment (nodeIdCounter g) = Some (nodeIdCounter g')).
Proof.
  unfold addNode. intros H.
  destruct (node_id_for data g) as [[i g1]|] eqn:E; [|discriminate].
  inversion H; subst i g'; clear H. unfold with_nodes. cbn [nodeIdCounter].
  destruct (node_id_for_spec _ _ _ _ E) as [(Hid & Hne & ->)|(Hf & c & Hc & _ & ->)].
  - split; [lia|]. intros Hf. rewrite Hid in Hf. cbn [truthy] in Hf.
    apply negb_false_iff, String.eqb_eq in Hf. contradiction.
  - cbn [nodeIdCounter]. split; [|intros _; exact Hc].
    pose proof (increment_spec _ _ Hc) as (Hr & Hlt & Heq).
    destruct (Z.eq_dec (nodeIdCounter g) max_exact) as [Hm|Hm].
    + rewrite (Heq Hm). lia.
    + rewrite Hlt by lia. lia.
Qed.

Lemma counts_up_addNode type data now : counts_up (op_addNode type data now).
Proof.
  intros g r g' H. unfold op_addNode in H.
  destruct (addNode type data now g) as [[id g1]|] eqn:E; [|discriminate].
  inversion H; subst. eapply addNode_counter; eassumption.
Qed.

Lemma addEdge_counter s t rel meta now g r g' :
  addEdge s t rel meta now g = Some (r, g') -> nodeIdCounter g' = nodeIdCounter g.
Proof.
  intros H.
  destruct (increment (edgeIdCounter g)) as [c|] eqn:Hc.
  2:{ unfold addEdge, generateEdgeId in H. rewrite Hc in H. discriminate. }
  destruct (addEdge_cases s t rel meta now g c Hc)
    as [[_ E]|[(_ & l & _ & E)|(_ & _ & E)]];
    rewrite E in H; inversion H; reflexivity.
Qed.

Lemma counts_up_addEdge s t rel now : counts_up (op_addEdge s t rel now).
Proof.
  intros g r g' H. unfold op_addEdge in H.
  destruct (addEdge s t rel [] now g) as [[[id|e] g1]|] eqn:E; [| |discriminate];
    inversion H; subst; rewrite (addEdge_counter _ _ _ _ _ _ _ _ E); lia.
Qed.

Ltac counts_up_auto :=
  repeat first
    [ apply counts_up_ret
    | apply counts_up_unmodelled
    | apply counts_up_throw
    | apply counts_up_addNode
    | apply counts_up_addEdge
    | apply counts_up_field
    | apply counts_up_bind; [|intros ?]
    | apply counts_up_each; intros ?
    | apply counts_up_for; intros ?
    | match goal with
      | |- counts_up (fun g => op_for _ _ g) =>
          apply (counts_up_with_graph (fun g0 => op_for _ _)); intros ?
      | |- counts_up (match ?x with _ => _ end) => destruct x
      | |- counts_up (if ?x then _ else _) => destruct x
      end ].



(** *** Populating without a throw *)

Section Populate.

Variable base : Graph.

Lemma returns_ret {A} (a : A) (phi : A -> Prop) :
  phi a -> returns (populated_from base) (op_ret a) phi.
Proof. intros Ha g r g' Hg H _. inversion H; subst. eauto. Qed.

Lemma returns_unmodelled {A} (phi : A -> Prop) :
  returns (populated_from base) (fun _ => None : option (result A * Graph)) phi.
Proof. intros g r g' _ H. discriminate. Qed.

Lemma returns_bind {A B} (m : Op A) (k : A -> Op B) (phi : A -> Prop)
  (psi : B -> Prop) :
  returns (populated_from base) m phi ->
  (forall a, counts_up (k a)) ->
  (forall a, phi a -> returns (populated_from base) (k a) psi) ->
  returns (populated_from base) (op_bind m k) psi.
Proof.
  intros Hm Hup Hk g r g' Hg H Hmax. unfold op_bind in H.
  destruct (m g) as [[[a|e] g1]|] eqn:E; [| |discriminate].
  - pose proof (Hup _ _ _ _ H) as Hle.
    destruct (Hm _ _ _ Hg E ltac:(lia)) as (Hg1 & a' & Ha & Hphi).
    inversion Ha; subst a'. eapply Hk; eauto.
  - inversion H; subst.
    destruct (Hm _ _ _ Hg E Hmax) as (_ & a' & Ha & _). discriminate.
Qed.

Lemma returns_for {X} (f : X -> Op unit) (xs : list X) :
  (forall x, counts_up (f x)) ->
  (forall x, In x xs -> returns (populated_from base) (f x) (fun _ => True)) ->
  returns (populated_from base) (op_for f xs) (fun _ => True).
Proof.
  intros Hup. induction xs as [|x xs IH]; intros Hf; cbn [op_for].
  - apply returns_ret. exact I.
  - eapply returns_bind; [apply Hf; now left| |].
    + intros _. now apply counts_up_for.
    + intros _ _. apply IH. intros y Hy. apply Hf. now right.
Qed.

Lemma returns_each xs body :
  (forall x, counts_up (body x)) ->
  (forall items x, xs = JArr items -> In x items ->
     returns (populated_from base) (body x) (fun _ => True)) ->
  returns (populated_from base) (op_each xs body) (fun _ => True).
Proof.
  intros Hup Hb. unfold op_each.
  destruct xs; cbn;
    try (apply returns_ret; exact I); try apply returns_unmodelled;
    try (destruct b; [apply returns_unmodelled|apply returns_ret; exact I]);
    try (destruct (negb _); [apply returns_unmodelled|apply returns_ret; exact I]).
  apply returns_for; [exact Hup|]. intros x Hx. eapply Hb; [reflexivity|exact Hx].
Qed.

Lemma returns_with_graph {A} (m : Graph -> Op A) (phi : A -> Prop) :
  (forall g0, returns (populated_from base) (m g0) phi) ->
  returns (populated_from base) (fun g => m g g) phi.
Proof. intros H g r g' Hg E. eapply H; eassumption. Qed.

Lemma returns_field k x :
  nullish x = false ->
  returns (populated_from base) (op_field k x) (fun _ => True).
Proof.
  intros Hx g r g' Hg H _. inversion H; subst. split; [exact Hg|].
  destruct x; try discriminate; cbn [field]; eauto.
Qed.

Lemma returns_addNode type data now :
  truthy (prop "id" data) = false ->
  returns (populated_from base) (op_addNode type data now)
    (fun id => is_node_id id = true).
Proof.
  intros Hid g r g' (Hok & Hfresh & Hkept & Hrepo) H Hmax. unfold op_addNode in H.
  destruct (addNode type data now g) as [[id g1]|] eqn:E; [|discriminate].
  inversion H; subst r g1; clear H.
  assert (Hlt : nodeIdCounter g < max_exact).
  { destruct (addNode_counter _ _ _ _ _ _ E) as [_ Hc]. specialize (Hc Hid).
    destruct (increment_spec _ _ Hc) as (Hr & _ & Heq).
    destruct (Z.eq_dec (nodeIdCounter g) max_exact) as [Hm|Hm]; [|lia].
    specialize (Heq Hm). lia. }
  destruct (addNode_generated type data now g Hfresh Hid Hlt) as (E' & _ & Hk & Hf).
  rewrite E in E'. inversion E'; subst id g'.
  split.
  - split; [exact Hok|]. split; [exact Hf|].
    split; [eapply nodes_kept_trans; eassumption|exact Hrepo].
  - eexists. split; [reflexivity|]. apply is_node_id_generated.
Qed.

Lemma returns_addEdge s t rel now :
  is_node_id s = true ->
  returns (populated_from base) (op_addEdge s t rel now) (fun _ => True).
Proof.
  intros Hs g r g' (Hok & Hfresh & Hkept & Hrepo) H _. unfold op_addEdge in H.
  destruct (increment (edgeIdCounter g)) as [c|] eqn:Hc.
  2:{ unfold addEdge, generateEdgeId in H. rewrite Hc in H. discriminate. }
  apply edge_keys_ok_spec in Hok.
  assert (H1 : List.Forall
                 (fun kv : string * EdgeEntry =>
                    match snd kv with
                    | EdgeObject _ => startsWith "edge_" (fst kv)
                    | EdgeArray _ => true
                    end = true)
                 (set (edge_id_of c)
                    (EdgeObject (mkEdge (edge_id_of c) s t rel [] now)) (edges g)))
    by (apply Forall_set; [reflexivity|exact Hok]).
  destruct (addEdge_cases s t rel [] now g c Hc)
    as [[Hs' E]|[(Hne & l & Hl & E)|(Hne & Hn & E)]]; rewrite E in H;
    inversion H; subst; clear H.
  - exfalso. destruct Hs' as [->|[e He]].
    + rewrite edge_id_not_node_id in Hs. discriminate.
    + apply get_Some_In in He.
      rewrite List.Forall_forall in Hok. specialize (Hok _ He). cbn [fst snd] in Hok.
      rewrite (node_id_not_edge_key _ Hs) in Hok. discriminate.
  - split; [|eauto]. split; [|split; [exact Hfresh|split; [exact Hkept|exact Hrepo]]].
    apply edge_keys_ok_spec. cbn [edges with_edges].
    apply Forall_set; [reflexivity|exact H1].
  - split; [|eauto]. split; [|split; [exact Hfresh|split; [exact Hkept|exact Hrepo]]].
    apply edge_keys_ok_spec. cbn [edges with_edges].
    apply Forall_set; [reflexivity|]. apply Forall_set; [reflexivity|exact H1].
Qed.

End Populate.

Lemma entries_defined_In xs items x :
  xs = JArr items -> In x items -> entries_defined xs = true -> nullish x = false.
Proof.
  intros -> Hin H. cbn [entries_defined] in H.
  rewrite forallb_forall in H. apply negb_true_iff. now apply H.
Qed.

Ltac returns_step base :=
  first
    [ apply returns_unmodelled
    | apply returns_ret; first [exact I | assumption | reflexivity]
    | apply returns_addNode; reflexivity
    | apply returns_addEdge; assumption
    | apply returns_field; eapply entries_defined_In;
      [eassumption|eassumption|assumption]
    | apply returns_each; [intros ?; counts_up_auto|intros ? ? ? ?]
    | apply returns_for; [intros ?; counts_up_auto|intros ? ?]
    | eapply returns_bind; [|intros ?; counts_up_auto|intros ? ?]
    | match goal with
      | |- returns _ (fun g => op_for _ _ g) _ =>
          apply (returns_with_graph base (fun g0 => op_for _ _)); intros ?
      | |- returns _ (match ?x with _ => _ end) _ => destruct x
      | |- returns _ (if ?x then _ else _) _ => destruct x
      end ].

Ltac returns_auto :=
  repeat match goal with
         | |- returns (populated_from ?b) _ _ => returns_step b
         end.


Lemma op_bind_run {A B} (m : Op A) (k : A -> Op B) g :
  op_bind m k g
  = match m g with
    | Some (Ok a, g') => k a g'
    | Some (Throw e, g') => Some (Throw e, g')
    | None => None
    end.
Proof. reflexivity. Qed.

Lemma populated_from_refl g :
  edge_keys_ok g = true -> fresh_ids g -> populated_from g g.
Proof. intros H1 H2. split; [exact H1|]. split; [exact H2|]. split; [apply nodes_kept_refl|reflexivity]. Qed.

(** The first step of the operations that add a node of their own and
    go on with [k]: when the whole leaves the counter below [2^53], the
    counter was below [2^53] before. *)
Lemma first_node_below type data now (k : string -> Op string) g r g' :
  truthy (prop "id" data) = false ->
  (forall id, counts_up (k id)) ->
  op_bind (op_addNode type data now) k g = Some (r, g') ->
  nodeIdCounter g' < max_exact ->
  nodeIdCounter g < max_exact.
Proof.
  intros Hid Hup H Hmax. rewrite op_bind_run in H. unfold op_addNode in H.
  destruct (addNode type data now g) as [[id g1]|] eqn:E; [|discriminate].
  pose proof (Hup _ _ _ _ H) as Hle.
  destruct (addNode_counter _ _ _ _ _ _ E) as [_ Hc]. specialize (Hc Hid).
  destruct (increment_spec _ _ Hc) as (Hr & _ & Heq).
  destruct (Z.eq_dec (nodeIdCounter g) max_exact) as [Hm|Hm]; [|lia].
  specialize (Heq Hm). lia.
Qed.

(** X11. In a graph whose edges are stored under keys that begin with
    [edge_] and where the ids still to be generated are unused, adding a
    parsed file none of whose functions, classes, headings and code
    blocks is [undefined] or [null], under no parent or under a parent
    whose id begins with [node_], does not throw wherever the model
    covers the file and while the counter of node ids stays below [2^53]:
    it returns the id [node_<counter + 1>], which was unused; the file
    node is stored under that id with the path and the text of the file;
    every node already in the graph stays as it was, the repositories are
    untouched, and the resulting graph is again of that kind. *)
Theorem addFileToGraph_adds_without_throwing file parentId now g r g' :
  edge_keys_ok g = true ->
  fresh_ids g ->
  match parentId with
  | Some p => p = EmptyString \/ is_node_id p = true
  | None => True
  end ->
  entities_defined file = true ->
  addFileToGraph file parentId now g = Some (r, g') ->
  nodeIdCounter g' < max_exact ->
  let id := node_id_of (nodeIdCounter g + 1) in
  r = Ok id
  /\ get id (nodes g) = None
  /\ (exists node,
        get id (nodes g') = Some node
        /\ n_type node = "file"
        /\ prop "path" (n_data node) = prop "path" file
        /\ prop "raw" (n_data node) = prop "raw" file)
  /\ nodes_kept g g'
  /\ repositories g' = repositories g
  /\ edge_keys_ok g' = true
  /\ fresh_ids g'.
Proof.
  intros Hok Hfresh Hp Hdef H Hmax. cbv zeta.
  pose proof Hdef as Hdef'. unfold entities_defined in Hdef.
  apply andb_true_iff in Hdef as [Hdef Hblocks].
  apply andb_true_iff in Hdef as [Hdef Hheadings].
  apply andb_true_iff in Hdef as [Hfunctions Hclasses].
  unfold addFileToGraph in H.
  match type of H with
  | op_bind (op_addNode ?ty ?data _) ?k _ = _ =>
      assert (Hup : forall id, counts_up (k id)) by (intros ?; counts_up_auto);
      pose proof (first_node_below ty data now k g r g' eq_refl Hup H Hmax) as Hlt;
      destruct (addNode_generated ty data now g Hfresh eq_refl Hlt)
        as (E & Hnew & Hkept & Hfresh1);
      assert (Hk : forall id, is_node_id id = true ->
                returns (populated_from
                           (mkGraph
                              (nodes g ++ [(node_id_of (nodeIdCounter g + 1),
                                            mkNode (node_id_of (nodeIdCounter g + 1))
                                              ty data now)])
                              (edges g) (repositories g) (nodeIdCounter g + 1)
                              (edgeIdCounter g)))
                  (k id) (fun b => b = id))
  end.
  { intros fileId HfileId.
    eapply returns_bind with (phi := fun _ => True).
    { destruct parentId as [p|]; [|apply returns_ret; exact I].
      destruct (String.eqb_spec p EmptyString) as [|Hne]; [apply returns_ret; exact I|].
      apply returns_addEdge. destruct Hp; [contradiction|assumption]. }
    { intros ?; counts_up_auto. }
    intros _ _.
    returns_auto.
    all: returns_auto. }
  rewrite op_bind_run in H. unfold op_addNode in H.
  cbv zeta in E, Hkept, Hfresh1. rewrite E in H.
  match type of Hfresh1 with
  | fresh_ids ?g1 =>
      pose proof (Hk _ (is_node_id_generated _) _ _ _
                    (populated_from_refl g1 Hok Hfresh1) H Hmax) as Hres
  end.
  destruct Hres as ((Hok' & Hfresh' & Hkept' & Hrepo') & b & -> & ->).
  split; [reflexivity|]. split; [exact Hnew|].
  split.
  { eexists. split.
    - apply Hkept'. cbn [nodes].
      rewrite <- (set_fresh _ _ _ (proj1 (get_None_keys _ _) Hnew)).
      apply get_set_eq.
    - cbn. auto. }
  split; [eapply nodes_kept_trans; eassumption|].
  split; [exact Hrepo'|]. split; [exact Hok'|exact Hfresh'].
Qed.

Lemma addFileToGraph_witness :
  Ok "node_1" = Ok (node_id_of (nodeIdCounter empty + 1))
  /\ get (node_id_of (nodeIdCounter empty + 1)) (nodes empty) = None
  /\ (exists node,
        get (node_id_of (nodeIdCounter empty + 1)) (nodes Samples.small_graph)
        = Some node
        /\ n_type node = "file"
        /\ prop "path" (n_data node) = prop "path" Samples.small_file
        /\ prop "raw" (n_data node) = prop "raw" Samples.small_file)
  /\ nodes_kept empty Samples.small_graph
  /\ repositories Samples.small_graph = repositories empty
  /\ edge_keys_ok Samples.small_graph = true
  /\ fresh_ids Samples.small_graph.
Proof.
  apply (addFileToGraph_adds_without_throwing Samples.small_file None "t0" empty
           (Ok "node_1") Samples.small_graph).
  - reflexivity.
  - split; [cbn; lia|reflexivity].
  - exact I.
  - reflexivity.
  - vm_compute. reflexivity.
  - reflexivity.
Defined.

(** An entry that is [null] makes [addFileToGraph] throw when it reads
    the name of the entry; the file node is in the graph by then. *)
Example addFile_null_function :
  exists what g,
    addFile [("path", JStr "a.js"); ("functions", JArr [JNull])] "t0" empty
    = Some (Throw (TypeError what), g)
    /\ map n_type (values (nodes g)) = ["file"].
Proof. do 2 eexists. split; reflexivity. Qed.




Lemma filter_app_one {A} (p : A -> bool) (l : list A) (x : A) :
  p x = false -> List.filter p (l ++ [x]) = List.filter p l.
Proof.
  intros H. rewrite List.filter_app. cbn. rewrite H. apply app_nil_r.
Qed.

(** X13. [addPath] on a value without [files], which is what
    [parsePath] returns for a path that is a single file, adds one node
    of type [path] and nothing else: no edge, and no node of any other
    type, so the file itself is not in the graph. The counter of node
    ids is below [2^53]. *)
Theorem addPath_without_files_adds_one_node parsedPath now g :
  fresh_ids g ->
  nodeIdCounter g < max_exact ->
  truthy (prop "files" parsedPath) = false ->
  let id := node_id_of (nodeIdCounter g + 1) in
  exists g',
    addPath parsedPath now g = Some (Ok id, g')
    /\ nodes g'
       = nodes g
         ++ [(id, mkNode id "path"
                    [("path", prop "path" parsedPath);
                     ("repository", prop "repository" parsedPath);
                     ("type", prop "type" parsedPath)] now)]
    /\ edges g' = edges g
    /\ (forall type, type <> "path" ->
          findNodesByType g' type = findNodesByType g type).
Proof.
  intros Hfresh Hlt Hfiles. cbv zeta. unfold addPath.
  rewrite op_bind_run. unfold op_addNode.
  match goal with
  | |- context [addNode ?ty ?data now g] =>
      destruct (addNode_generated ty data now g Hfresh eq_refl Hlt) as (E & _)
  end.
  cbv zeta in E. rewrite E. cbv beta iota. rewrite op_bind_run.
  unfold op_each. rewrite Hfiles.
  destruct (prop "files" parsedPath); try discriminate; cbn [op_ret];
    (eexists; split; [reflexivity|]; cbn [nodes edges];
     split; [reflexivity|]; split; [reflexivity|];
     intros type Ht; unfold findNodesByType, values; cbn [nodes];
     rewrite map_app; cbn [map snd]; rewrite filter_app_one; [reflexivity|];
     cbn [n_type]; apply String.eqb_neq; congruence).
Qed.

Lemma addPath_witness :
  let id := node_id_of (nodeIdCounter empty + 1) in
  exists g',
    addPath Samples.small_file "t0" empty = Some (Ok id, g')
    /\ nodes g'
       = nodes empty
         ++ [(id, mkNode id "path"
                    [("path", prop "path" Samples.small_file);
                     ("repository", prop "repository" Samples.small_file);
                     ("type", prop "type" Samples.small_file)] "t0")]
    /\ edges g' = edges empty
    /\ (forall type, type <> "path" ->
          findNodesByType g' type = findNodesByType empty type).
Proof.
  apply (addPath_without_files_adds_one_node Samples.small_file "t0" empty).
  - split; [cbn; lia|reflexivity].
  - reflexivity.
  - reflexivity.
Defined.

(** ** The merge of line ranges: what it covers *)

Lemma coalesce_from_covers slack i : forall rest prev,
  StronglySorted (fun a b => start a <= start b) (prev :: rest) ->
  forall r, In r (prev :: rest) -> covers r i ->
  exists m, In m (MergeSpec.coalesce_from slack prev rest) /\ covers m i.
Proof.
  unfold covers.
  induction rest as [|next rest IH]; intros prev Hs r Hr Hc; cbn [MergeSpec.coalesce_from].
  - destruct Hr as [<-|[]]. exists prev. split; [now left|exact Hc].
  - inversion Hs as [|? ? Hs' Hall]; subst.
    inversion Hs' as [|? ? Hs'' Hall']; subst.
    inversion Hall as [|? ? Hpn Hall'']; subst.
    destruct (start next <=? end_ prev + slack) eqn:E.
    + assert (Hs1 : StronglySorted (fun a b => start a <= start b)
                      (extend prev next :: rest))
        by (constructor; [exact Hs''|cbn [extend start]; exact Hall'']).
      destruct Hr as [<-|[<-|Hr]].
      * apply (IH _ Hs1 (extend prev next)); [now left|].
        cbn [extend start end_]. lia.
      * apply (IH _ Hs1 (extend prev next)); [now left|].
        cbn [extend start end_]. lia.
      * apply (IH _ Hs1 r); [now right|exact Hc].
    + destruct Hr as [<-|Hr].
      * exists prev. split; [now left|exact Hc].
      * destruct (IH next Hs' r Hr Hc) as (m & Hm & Hcm).
        exists m. split; [now right|exact Hcm].
Qed.

Lemma coalesce_from_bounds slack (L : list Range) : forall rest prev,
  (exists a b, In a L /\ In b L /\ start prev = start a /\ end_ prev = end_ b
               /\ end_ a <= end_ prev) ->
  (forall x, In x rest -> In x L) ->
  forall m, In m (MergeSpec.coalesce_from slack prev rest) ->
  exists a b, In a L /\ In b L /\ start m = start a /\ end_ m = end_ b
              /\ end_ a <= end_ m.
Proof.
  induction rest as [|next rest IH]; intros prev Hp Hr m Hm; cbn [MergeSpec.coalesce_from] in Hm.
  - destruct Hm as [<-|[]]. exact Hp.
  - destruct (start next <=? end_ prev + slack).
    + apply (IH (extend prev next)); [|intros x Hx; apply Hr; now right|exact Hm].
      destruct Hp as (a & b & Ha & Hb & Hsa & Heb & Hle).
      cbn [extend start end_].
      destruct (Z.max_spec (end_ prev) (end_ next)) as [[Hlt ->]|[Hlt ->]].
      * exists a, next. repeat split; auto; [apply Hr; now left|lia].
      * exists a, b. repeat split; auto.
    + destruct Hm as [<-|Hm]; [exact Hp|].
      apply (IH next); [|intros x Hx; apply Hr; now right|exact Hm].
      exists next, next. repeat split; auto; try lia; apply Hr; now left.
Qed.

Lemma merge_covers slack ranges r i :
  In r ranges -> covers r i ->
  exists m, In m (MergeSpec.merge slack ranges) /\ covers m i.
Proof.
  intros Hr Hc. unfold MergeSpec.merge.
  pose proof (sort_sorted (fun a b => start a - start b) start
                (fun _ _ => eq_refl) ranges) as Hs.
  pose proof (sort_perm (fun a b => start a - start b) ranges) as Hp.
  assert (Hin : In r (sort (fun a b => start a - start b) ranges))
    by (eapply Permutation_in; [symmetry; exact Hp|exact Hr]).
  destruct (sort _ ranges) as [|r0 rest]; [destruct Hin|].
  eapply coalesce_from_covers; eassumption.
Qed.

Lemma merge_bounds slack ranges m :
  In m (MergeSpec.merge slack ranges) ->
  exists a b, In a ranges /\ In b ranges /\ start m = start a /\ end_ m = end_ b
              /\ end_ a <= end_ m.
Proof.
  intros Hm. unfold MergeSpec.merge in Hm.
  pose proof (sort_perm (fun a b => start a - start b) ranges) as Hp.
  destruct (sort _ ranges) as [|r0 rest]; [destruct Hm|].
  eapply (coalesce_from_bounds slack ranges); [| |exact Hm].
  - exists r0, r0. repeat split; auto; try lia;
      eapply Permutation_in; try exact Hp; now left.
  - intros x Hx. eapply Permutation_in; [exact Hp|now right].
Qed.

(** X14. Neither merge loses a line: a line that lies in one of the
    ranges given to [mergeSections], or to [mergeRanges] after the sort
    of its caller, lies in one of the ranges returned. And
    [mergeSections] invents no bound: a range it returns starts where a
    given range starts and ends where a given range ends, not before
    the end of the former. *)
Theorem merges_keep_every_line ranges r i :
  In r ranges ->
  covers r i ->
  (exists m, In m (mergeSections ranges) /\ covers m i)
  /\ (exists m, In m (mergeRanges (sort (fun a b => start a - start b) ranges))
                /\ covers m i)
  /\ (forall m, In m (mergeSections ranges) ->
        exists a b, In a ranges /\ In b ranges
                    /\ start m = start a /\ end_ m = end_ b
                    /\ end_ a <= end_ m).
Proof.
  intros Hr Hc. rewrite mergeSections_merge, mergeRanges_merge.
  split; [now apply (merge_covers 5 ranges r)|].
  split; [now apply (merge_covers 1 ranges r)|].
  intros m. apply merge_bounds.
Qed.

Lemma merges_keep_witness :
  let ranges := [range 0 5; range 30 40; range 4 10] in
  (exists m, In m (mergeSections ranges) /\ covers m 7)
  /\ (exists m, In m (mergeRanges (sort (fun a b => start a - start b) ranges))
                /\ covers m 7)
  /\ (forall m, In m (mergeSections ranges) ->
        exists a b, In a ranges /\ In b ranges
                    /\ start m = start a /\ end_ m = end_ b
                    /\ end_ a <= end_ m).
Proof.
  apply (merges_keep_every_line [range 0 5; range 30 40; range 4 10] (range 4 10) 7).
  - cbn. auto.
  - unfold covers. cbn. lia.
Defined.

(** ** Snippets around the lines that match *)

Lemma keyword_sections_In total kl s : forall lines idx,
  In s (keyword_sections total kl idx lines) <->
  exists n line,
    nth_error lines n = Some line
    /\ includes kl (toLowerCase line) = true
    /\ s = mkRange (Z.max 0 (idx + Z.of_nat n - 10))
             (Z.min total (idx + Z.of_nat n + 10)) (Some (idx + Z.of_nat n)).
Proof.
  induction lines as [|line rest IH]; intros idx; cbn [keyword_sections].
  - split; [intros []|]. intros (n & l & Hn & _). destruct n; discriminate.
  - split.
    + intros H.
      assert (Hrest : In s (keyword_sections total kl (idx + 1) rest) ->
                exists n l, nth_error (line :: rest) n = Some l
                  /\ includes kl (toLowerCase l) = true
                  /\ s = mkRange (Z.max 0 (idx + Z.of_nat n - 10))
                           (Z.min total (idx + Z.of_nat n + 10))
                           (Some (idx + Z.of_nat n))).
      { intros Hin. apply IH in Hin. destruct Hin as (n & l & Hn & Hi & ->).
        exists (S n), l. split; [exact Hn|]. split; [exact Hi|].
        f_equal; [f_equal; lia..|f_equal; lia]. }
      destruct (includes kl (toLowerCase line)) eqn:E; [|auto].
      destruct H as [<-|H]; [|auto].
      exists O, line. split; [reflexivity|]. split; [exact E|].
      cbn [Z.of_nat]. rewrite Z.add_0_r. reflexivity.
    + intros (n & l & Hn & Hi & ->). destruct n as [|n]; cbn [nth_error] in Hn.
      * inversion Hn; subst l. rewrite Hi. left.
        cbn [Z.of_nat]. rewrite Z.add_0_r. reflexivity.
      * assert (In (mkRange (Z.max 0 (idx + Z.of_nat (S n) - 10))
                      (Z.min total (idx + Z.of_nat (S n) + 10))
                      (Some (idx + Z.of_nat (S n))))
                  (keyword_sections total kl (idx + 1) rest)).
        { apply IH. exists n, l. split; [exact Hn|]. split; [exact Hi|].
          f_equal; [f_equal; lia..|f_equal; lia]. }
        destruct (includes kl (toLowerCase line)); [now right|assumption].
Qed.

Lemma nth_error_length {A} (l : list A) n x :
  nth_error l n = Some x -> (n < List.length l)%nat.
Proof. intros H. apply nth_error_Some. congruence. Qed.

(** X15. For a file with a text, [extractRelevantCodeSection] returns
    the sections it chose, joined by the elision mark. Every line that
    contains a keyword, letter case apart, lies in one of these
    sections; every section is a range of lines of the file that is not
    empty; and every section starts ten lines before a line that
    contains a keyword, or at the top of the file. So without any such
    line the snippet is the empty string. *)
Theorem code_section_shows_every_matching_line fileData raw keywords :
  prop "raw" fileData = JStr raw ->
  raw <> EmptyString ->
  let lines := split_lines raw in
  let sections := relevant_sections lines keywords in
  extractRelevantCodeSection fileData keywords
  = Some (Ok (JStr (join elision (map (section_of lines) sections))))
  /\ (forall keyword n line,
        In keyword keywords ->
        nth_error lines n = Some line ->
        includes (toLowerCase (original keyword)) (toLowerCase line) = true ->
        exists s, In s sections /\ covers s (Z.of_nat n))
  /\ (forall s, In s sections ->
        0 <= start s < end_ s /\ end_ s <= Z.of_nat (List.length lines))
  /\ (forall s, In s sections ->
        exists keyword n line,
          In keyword keywords
          /\ nth_error lines n = Some line
          /\ includes (toLowerCase (original keyword)) (toLowerCase line) = true
          /\ start s = Z.max 0 (Z.of_nat n - 10)).
Proof.
  intros Hraw Hne. cbv zeta.
  set (lines := split_lines raw).
  set (windows := flat_map (fun keyword =>
                    keyword_sections (Z.of_nat (List.length lines))
                      (toLowerCase (original keyword)) 0 lines) keywords).
  assert (Hwin : forall w, In w windows <->
            exists keyword n line,
              In keyword keywords /\ nth_error lines n = Some line
              /\ includes (toLowerCase (original keyword)) (toLowerCase line) = true
              /\ w = mkRange (Z.max 0 (Z.of_nat n - 10))
                       (Z.min (Z.of_nat (List.length lines)) (Z.of_nat n + 10))
                       (Some (Z.of_nat n))).
  { intros w. unfold windows. rewrite in_flat_map. split.
    - intros (k & Hk & Hin). apply keyword_sections_In in Hin.
      destruct Hin as (n & line & Hn & Hi & ->). exists k, n, line.
      repeat split; auto.
    - intros (k & n & line & Hk & Hn & Hi & ->). exists k. split; [exact Hk|].
      apply keyword_sections_In. exists n, line. repeat split; auto. }
  assert (Hsec : relevant_sections lines keywords = MergeSpec.merge 5 windows)
    by apply mergeSections_merge.
  split.
  { unfold extractRelevantCodeSection, raw_text. rewrite Hraw.
    apply String.eqb_neq in Hne. rewrite Hne. reflexivity. }
  rewrite Hsec. split; [|split].
  - intros k n line Hk Hn Hi.
    apply (merge_covers 5 windows
             (mkRange (Z.max 0 (Z.of_nat n - 10))
                (Z.min (Z.of_nat (List.length lines)) (Z.of_nat n + 10))
                (Some (Z.of_nat n)))).
    + apply Hwin. exists k, n, line. auto.
    + apply nth_error_length in Hn. unfold covers. cbn [start end_]. lia.
  - intros s Hs. apply merge_bounds in Hs.
    destruct Hs as (a & b & Ha & Hb & Hsa & Heb & Hle).
    apply Hwin in Ha, Hb.
    destruct Ha as (_ & na & la & _ & Hna & _ & ->).
    destruct Hb as (_ & nb & lb & _ & Hnb & _ & ->).
    apply nth_error_length in Hna, Hnb. cbn [start end_] in *. lia.
  - intros s Hs. apply merge_bounds in Hs.
    destruct Hs as (a & b & Ha & _ & Hsa & _).
    apply Hwin in Ha. destruct Ha as (k & n & line & Hk & Hn & Hi & ->).
    exists k, n, line. auto.
Qed.

Lemma code_section_witness :
  let lines := split_lines Samples.small_source in
  let keywords := [mkKeyword "return" "return"] in
  let sections := relevant_sections lines keywords in
  extractRelevantCodeSection Samples.small_file keywords
  = Some (Ok (JStr (join elision (map (section_of lines) sections))))
  /\ (forall keyword n line,
        In keyword keywords ->
        nth_error lines n = Some line ->
        includes (toLowerCase (original keyword)) (toLowerCase line) = true ->
        exists s, In s sections /\ covers s (Z.of_nat n))
  /\ (forall s, In s sections ->
        0 <= start s < end_ s /\ end_ s <= Z.of_nat (List.length lines))
  /\ (forall s, In s sections ->
        exists keyword n line,
          In keyword keywords
          /\ nth_error lines n = Some line
          /\ includes (toLowerCase (original keyword)) (toLowerCase line) = true
          /\ start s = Z.max 0 (Z.of_nat n - 10)).
Proof.
  apply (code_section_shows_every_matching_line Samples.small_file
           Samples.small_source [mkKeyword "return" "return"]).
  - reflexivity.
  - vm_compute. discriminate.
Defined.

(** ** The code of a function or class *)

Lemma brace_scan_range : forall window i braceCount started endLine,
  let r := brace_scan i window braceCount started endLine in
  r = endLine \/ i < r <= i + Z.of_nat (List.length window).
Proof.
  induction window as [|line rest IH]; intros i c s e; cbn [brace_scan List.length].
  - now left.
  - destruct (scan_braces line c s) as [[c' s']|[]].
    + destruct (s' && (c' =? 0))%bool; [now left|].
      destruct (IH (i + 1) c' s' e) as [H|H]; [now left|right; lia].
    + right. lia.
Qed.

Lemma slice_length {A} (a b : Z) (l : list A) :
  0 <= a -> a <= b ->
  Z.of_nat (List.length (slice a b l))
  = Z.min b (Z.of_nat (List.length l)) - Z.min a (Z.of_nat (List.length l)).
Proof.
  intros Ha Hb. unfold slice, rel_index.
  assert ((a <? 0) = false) as -> by lia.
  assert ((b <? 0) = false) as -> by lia.
  rewrite length_firstn, length_skipn. lia.
Qed.

(** X16. For a file that is not Python and a node whose line is 1 or
    more (or missing), [extractFunctionOrClassCode] does not throw and
    returns the lines from the line of the node up to some end line,
    joined by line breaks: at least one line when the line of the node
    exists in the file, at most a hundred lines in any case, and the
    empty string when the line of the node lies behind the end of the
    file. *)
Theorem function_code_has_one_to_hundred_lines fileData raw targetNode startLine :
  prop "raw" fileData = JStr raw ->
  raw <> EmptyString ->
  is_python fileData = false ->
  start_line targetNode = Some startLine ->
  0 <= startLine ->
  let lines := split_lines raw in
  exists endLine,
    extractFunctionOrClassCode fileData targetNode
    = Some (Ok (JStr (join (String newline EmptyString)
                        (slice startLine endLine lines))))
    /\ startLine < endLine <= startLine + 100
    /\ (List.length (slice startLine endLine lines) <= 100)%nat
    /\ (startLine < Z.of_nat (List.length lines) ->
        (1 <= List.length (slice startLine endLine lines))%nat
        /\ endLine <= Z.of_nat (List.length lines))
    /\ (Z.of_nat (List.length lines) <= startLine ->
        slice startLine endLine lines = []).
Proof.
  intros Hraw Hne Hpy Hstart Hpos. cbv zeta.
  set (lines := split_lines raw).
  set (window := firstn 100 (skipn (Z.to_nat startLine) lines)).
  set (endLine := brace_scan startLine window 0 false (startLine + 1)).
  assert (Hwin : Z.of_nat (List.length window)
                 = Z.min 100 (Z.of_nat (List.length lines)
                              - Z.min startLine (Z.of_nat (List.length lines)))).
  { unfold window. rewrite length_firstn, length_skipn. lia. }
  pose proof (brace_scan_range window startLine 0 false (startLine + 1)) as Hr.
  cbv zeta in Hr. fold endLine in Hr.
  exists endLine. split.
  { unfold extractFunctionOrClassCode, raw_text. rewrite Hraw.
    apply String.eqb_neq in Hne. rewrite Hne. cbn [bindM ret].
    rewrite Hstart. unfold code_span.
    assert ((startLine <? 0) = false) as -> by lia.
    rewrite Hpy. reflexivity. }
  assert (Hend : startLine < endLine <= startLine + 100) by lia.
  split; [exact Hend|].
  pose proof (slice_length startLine endLine lines Hpos ltac:(lia)) as Hlen.
  split; [lia|]. split.
  - intros Hin. lia.
  - intros Hout. apply length_zero_iff_nil. lia.
Qed.

Lemma function_code_witness :
  let lines := split_lines Samples.small_source in
  exists endLine,
    extractFunctionOrClassCode Samples.small_file
      (mkNode "node_2" "function"
         [("name", JStr "f"); ("file", JStr "a.js"); ("line", JNum 1);
          ("type", JStr "regular")] "t0")
    = Some (Ok (JStr (join (String newline EmptyString) (slice 0 endLine lines))))
    /\ 0 < endLine <= 0 + 100
    /\ (List.length (slice 0 endLine lines) <= 100)%nat
    /\ (0 < Z.of_nat (List.length lines) ->
        (1 <= List.length (slice 0 endLine lines))%nat
        /\ endLine <= Z.of_nat (List.length lines))
    /\ (Z.of_nat (List.length lines) <= 0 -> slice 0 endLine lines = []).
Proof.
  apply (function_code_has_one_to_hundred_lines Samples.small_file
           Samples.small_source
           (mkNode "node_2" "function"
              [("name", JStr "f"); ("file", JStr "a.js"); ("line", JNum 1);
               ("type", JStr "regular")] "t0") 0).
  - reflexivity.
  - vm_compute. discriminate.
  - reflexivity.
  - reflexivity.
  - lia.
Defined.

Lemma scan_braces_no_brace line : forall braceCount started,
  no_brace line = true ->
  scan_braces line braceCount started = inl (braceCount, started).
Proof.
  unfold no_brace.
  induction line as [|c line IH]; intros bc st H; cbn [scan_braces]; [reflexivity|].
  cbn [Regex.has_char] in H. apply negb_true_iff in H.
  apply orb_false_iff in H. destruct H as [H1 H2].
  apply orb_false_iff in H1, H2. destruct H1 as [H1 H1'], H2 as [H2 H2'].
  rewrite Ascii.eqb_sym, H1, Ascii.eqb_sym, H2.
  apply IH. rewrite H1', H2'. reflexivity.
Qed.

Lemma brace_scan_no_brace : forall window i endLine,
  forallb no_brace window = true ->
  brace_scan i window 0 false endLine = endLine.
Proof.
  induction window as [|line rest IH]; intros i e H; cbn [brace_scan]; [reflexivity|].
  cbn [forallb] in H. apply andb_true_iff in H. destruct H as [H1 H2].
  rewrite scan_braces_no_brace by exact H1. cbn [andb]. apply IH. exact H2.
Qed.

Lemma dedent_line_none baseIndent : forall rest i,
  forallb (fun line => (is_blank line || (baseIndent <? indent_of line))%bool) rest
  = true ->
  dedent_line baseIndent i rest = None.
Proof.
  induction rest as [|line rest IH]; intros i H; cbn [dedent_line]; [reflexivity|].
  cbn [forallb] in H. apply andb_true_iff in H. destruct H as [H1 H2].
  destruct (is_blank line); [apply IH; exact H2|].
  cbn [orb] in H1. apply Z.ltb_lt in H1.
  assert ((indent_of line <=? baseIndent) = false) as -> by lia.
  apply IH. exact H2.
Qed.

Lemma firstn_skipn_one {A} (l : list A) : forall n x,
  nth_error l n = Some x -> firstn 1 (skipn n l) = [x].
Proof.
  induction l as [|y l IH]; intros [|n] x H; cbn in *; try discriminate.
  - inversion H. reflexivity.
  - apply IH. exact H.
Qed.

Lemma slice_one {A} (n : nat) (l : list A) x :
  nth_error l n = Some x -> slice (Z.of_nat n) (Z.of_nat n + 1) l = [x].
Proof.
  intros H. pose proof (nth_error_length _ _ _ H) as Hlen.
  unfold slice, rel_index.
  assert ((Z.of_nat n <? 0) = false) as -> by lia.
  assert ((Z.of_nat n + 1 <? 0) = false) as -> by lia.
  replace (Z.to_nat (Z.min (Z.of_nat n + 1) (Z.of_nat (List.length l))
                     - Z.min (Z.of_nat n) (Z.of_nat (List.length l)))) with 1%nat by lia.
  replace (Z.to_nat (Z.min (Z.of_nat n) (Z.of_nat (List.length l)))) with n by lia.
  apply firstn_skipn_one. exact H.
Qed.

(** X17. For a Python file, when no line of the hundred lines read
    from the line of the node holds a brace, and every line after the
    line of the node is blank or indented deeper than it (the definition
    runs to the end of the file), [extractFunctionOrClassCode] returns
    the line of the node alone: the body is left out. *)
Theorem python_code_at_end_of_file_is_one_line fileData raw targetNode n first :
  prop "raw" fileData = JStr raw ->
  raw <> EmptyString ->
  is_python fileData = true ->
  start_line targetNode = Some (Z.of_nat n) ->
  let lines := split_lines raw in
  nth_error lines n = Some first ->
  forallb no_brace (firstn 100 (skipn n lines)) = true ->
  forallb (fun line => (is_blank line || (indent_of first <? indent_of line))%bool)
    (skipn (S n) lines) = true ->
  extractFunctionOrClassCode fileData targetNode = Some (Ok (JStr first)).
Proof.
  intros Hraw Hne Hpy Hstart lines Hfirst Hbrace Hdedent.
  unfold extractFunctionOrClassCode, raw_text. rewrite Hraw.
  apply String.eqb_neq in Hne. rewrite Hne. cbn [bindM ret].
  rewrite Hstart. unfold code_span.
  assert ((Z.of_nat n <? 0) = false) as -> by (apply Z.ltb_ge, Nat2Z.is_nonneg).
  rewrite Hpy, Nat2Z.id. fold lines. rewrite Hfirst.
  rewrite dedent_line_none by exact Hdedent.
  rewrite brace_scan_no_brace by exact Hbrace.
  cbn [bindM ret fst snd]. unfold section_of, range. cbn [start end_].
  rewrite (slice_one n lines first Hfirst). reflexivity.
Qed.

Lemma python_code_witness :
  extractFunctionOrClassCode python_file last_node = Some (Ok (JStr "def last():")).
Proof.
  apply (python_code_at_end_of_file_is_one_line python_file python_source
           last_node 3 "def last():").
  - reflexivity.
  - vm_compute. discriminate.
  - reflexivity.
  - reflexivity.
  - reflexivity.
  - reflexivity.
  - reflexivity.
Defined.

(** ** Ranking *)

Lemma StronglySorted_firstn {A} (R : A -> A -> Prop) (l : list A) : forall n,
  StronglySorted R l -> StronglySorted R (firstn n l).
Proof.
  induction l as [|x l IH]; intros [|n] H; cbn; try constructor.
  - apply IH. now inversion H.
  - inversion H as [|? ? _ Hall]; subst.
    rewrite List.Forall_forall in *. intros y Hy. apply Hall.
    eapply in_firstn. exact Hy.
Qed.

Lemma StronglySorted_split {A} (R : A -> A -> Prop) (l : list A) : forall n,
  StronglySorted R l ->
  forall a b, In a (firstn n l) -> In b (skipn n l) -> R a b.
Proof.
  induction l as [|x l IH]; intros [|n] H a b Ha Hb; cbn in *; try contradiction.
  inversion H as [|? ? Hs Hall]; subst.
  destruct Ha as [<-|Ha].
  - rewrite List.Forall_forall in Hall. apply Hall.
    rewrite <- (firstn_skipn n l). apply in_or_app. now right.
  - eapply IH; eassumption.
Qed.

(** X18. [rankResults] returns the fifty results of highest relevance,
    or all of them when there are fewer, by relevance descending, a
    missing relevance counting as 0: the results it returns together
    with those it drops are the results it was given, and no dropped
    result has a higher relevance than a returned one. *)
Theorem rankResults_keeps_the_best_fifty {A} (relevance : A -> option Z)
  (results : list A) :
  let score r := or_zero (relevance r) in
  let ranked := rankResults relevance results in
  List.length ranked = Nat.min 50 (List.length results)
  /\ StronglySorted (fun a b => score b <= score a) ranked
  /\ exists dropped,
       Permutation (ranked ++ dropped) results
       /\ forall a b, In a ranked -> In b dropped -> score b <= score a.
Proof.
  cbv zeta. unfold rankResults.
  set (sorted := sort (fun a b => or_zero (relevance b) - or_zero (relevance a)) results).
  pose proof (sort_perm (fun a b => or_zero (relevance b) - or_zero (relevance a))
                results) as Hp.
  pose proof (sort_sorted (fun a b => or_zero (relevance b) - or_zero (relevance a))
                (fun r => - or_zero (relevance r)) ltac:(intros; cbv beta; lia) results) as Hs.
  fold sorted in Hp, Hs.
  assert (Hs' : StronglySorted
                  (fun a b => or_zero (relevance b) <= or_zero (relevance a)) sorted).
  { eapply StronglySorted_impl_key; [|exact Hs]. cbn. intros a b H. lia. }
  rewrite slice_0 by lia. change (Z.to_nat 50) with 50%nat.
  split.
  { rewrite length_firstn, (Permutation_length Hp). lia. }
  split; [apply StronglySorted_firstn; exact Hs'|].
  exists (skipn 50 sorted). split.
  - rewrite firstn_skipn. exact Hp.
  - intros a b Ha Hb.
    exact (StronglySorted_split _ sorted 50 Hs' a b Ha Hb).
Qed.

(** ** Suggestions *)

Lemma add_unique_In x y l : In x (add_unique y l) <-> x = y \/ In x l.
Proof.
  unfold add_unique. destruct (existsb (String.eqb y) l) eqn:E.
  - split; [auto|]. intros [->|H]; [|exact H].
    apply existsb_exists in E. destruct E as (z & Hz & Hyz).
    apply String.eqb_eq in Hyz. now subst.
  - rewrite in_app_iff. cbn. intuition congruence.
Qed.

Lemma NoDup_snoc {A} (l : list A) (y : A) :
  List.NoDup l -> ~ In y l -> List.NoDup (l ++ [y]).
Proof.
  induction 1 as [|x l Hx Hl IH]; intros Hy; cbn.
  - constructor; [intros []|constructor].
  - constructor.
    + rewrite in_app_iff. cbn. intros [H|[H|[]]]; [auto|]. apply Hy. now left.
    + apply IH. intros H. apply Hy. now right.
Qed.

Lemma NoDup_firstn {A} (l : list A) : forall n,
  List.NoDup l -> List.NoDup (firstn n l).
Proof.
  induction l as [|x l IH]; intros [|n] H; cbn; try constructor.
  - inversion H; subst. intros Hin. apply in_firstn in Hin. auto.
  - apply IH. now inversion H.
Qed.

Lemma add_unique_NoDup y l : List.NoDup l -> List.NoDup (add_unique y l).
Proof.
  intros H. unfold add_unique. destruct (existsb (String.eqb y) l) eqn:E; [exact H|].
  apply NoDup_snoc; [exact H|]. intros Hy.
  assert (existsb (String.eqb y) l = true) as Ht
    by (apply existsb_exists; exists y; split; [exact Hy|apply String.eqb_refl]).
  congruence.
Qed.

Lemma text_field_str_prop k data s :
  text_field k data = Some (Ok (Some s)) -> str_prop k data = Some s.
Proof.
  unfold text_field, str_prop.
  destruct (prop k data) as [| |b|n|s'|items|fields]; cbn; try discriminate;
    try (destruct b; discriminate); try (destruct (n =? 0); discriminate).
  destruct (String.eqb s' EmptyString); [discriminate|]. intros H. inversion H. reflexivity.
Qed.

Lemma suggest_node_ok g queryLower node suggestions out :
  In node (values (nodes g)) ->
  suggest_node queryLower suggestions node = Some (Ok out) ->
  List.NoDup suggestions ->
  (forall s, In s suggestions -> sound_suggestion g queryLower s) ->
  List.NoDup out /\ (forall s, In s out -> sound_suggestion g queryLower s).
Proof.
  intros Hnode H Hnd Hsound. unfold suggest_node in H.
  destruct (text_field "name" (n_data node)) as [[name|e]|] eqn:En; cbn [bindM] in H;
    try discriminate.
  destruct (text_field "path" (n_data node)) as [[path|e]|] eqn:Ep; cbn [bindM ret] in H;
    try discriminate.
  inversion H; subst out; clear H.
  set (s1 := match name with
             | Some name0 =>
                 if startsWith queryLower (toLowerCase name0)
                 then add_unique name0 suggestions else suggestions
             | None => suggestions
             end).
  assert (H1 : List.NoDup s1 /\ forall s, In s s1 -> sound_suggestion g queryLower s).
  { unfold s1. destruct name as [name|]; [|auto].
    destruct (startsWith queryLower (toLowerCase name)) eqn:Es; [|auto].
    split; [now apply add_unique_NoDup|].
    intros s Hs. apply add_unique_In in Hs. destruct Hs as [->|Hs]; [|auto].
    exists node. split; [exact Hnode|]. left.
    split; [now apply text_field_str_prop|exact Es]. }
  destruct H1 as [Hnd1 Hsound1].
  destruct path as [path|]; [|auto].
  destruct (includes queryLower (toLowerCase path)) eqn:Ei; [|auto].
  split; [now apply add_unique_NoDup|].
  intros s Hs. apply add_unique_In in Hs. destruct Hs as [->|Hs]; [|auto].
  exists node. split; [exact Hnode|]. right.
  split; [now apply text_field_str_prop|exact Ei].
Qed.

(** X19. When [getSuggestions] returns, it returns at most ten
    suggestions, no suggestion twice, and every suggestion is the name
    of a node that begins with the query or the path of a node that
    contains the query, letter case apart. *)
Theorem getSuggestions_are_few_distinct_and_sound g partialQuery out :
  getSuggestions g partialQuery = Some (Ok out) ->
  (List.length out <= 10)%nat
  /\ List.NoDup out
  /\ forall s, In s out -> sound_suggestion g (toLowerCase partialQuery) s.
Proof.
  unfold getSuggestions. intros H.
  destruct (forM _ _ _) as [[all|e]|] eqn:E; cbn [bindM ret] in H; try discriminate.
  inversion H; subst out; clear H.
  assert (Hall : List.NoDup all
                 /\ forall s, In s all -> sound_suggestion g (toLowerCase partialQuery) s).
  { revert E.
    assert (Hsub : incl (values (nodes g)) (values (nodes g))) by apply incl_refl.
    revert Hsub.
    assert (Hnd : List.NoDup (@nil string)) by constructor.
    assert (Hs : forall s, In s (@nil string) ->
                   sound_suggestion g (toLowerCase partialQuery) s) by (intros s []).
    revert Hnd Hs. generalize (@nil string) as acc.
    generalize (values (nodes g)) at 1 3 as ns.
    induction ns as [|n ns IH]; intros acc Hnd Hs Hsub E; cbn [forM] in E.
    - inversion E; subst. auto.
    - destruct (suggest_node _ acc n) as [[acc'|e]|] eqn:En; cbn [bindM] in E;
        try discriminate.
      destruct (suggest_node_ok g _ n acc acc' (Hsub n (or_introl eq_refl)) En Hnd Hs)
        as [Hnd' Hs'].
      apply (IH acc' Hnd' Hs'); [|exact E].
      intros x Hx. apply Hsub. now right. }
  destruct Hall as [Hnd Hs].
  rewrite slice_0 by lia. change (Z.to_nat 10) with 10%nat.
  split; [rewrite length_firstn; lia|].
  split.
  - apply NoDup_firstn. exact Hnd.
  - intros s Hin. apply Hs. eapply in_firstn. exact Hin.
Qed.

Lemma getSuggestions_witness :
  (List.length ["login"; "logout"] <= 10)%nat
  /\ List.NoDup ["login"; "logout"]
  /\ forall s, In s ["login"; "logout"] ->
       sound_suggestion Samples.project_graph (toLowerCase "Lo") s.
Proof.
  apply (getSuggestions_are_few_distinct_and_sound Samples.project_graph "Lo"
           ["login"; "logout"]).
  vm_compute. reflexivity.
Defined.

(** ** The scores of the query engine *)

Lemma fold_left_add {X} (f : X -> Z) (xs : list X) : forall a,
  fold_left (fun r x => r + f x) xs a = a + fold_left (fun r x => r + f x) xs 0.
Proof.
  induction xs as [|x xs IH]; intros a; cbn [fold_left]; [lia|].
  rewrite IH, (IH (0 + f x)). lia.
Qed.

Lemma fold_left_add_bounds {X} (f : X -> Z) (lo hi : Z) (xs : list X) :
  (forall x, lo <= f x <= hi) ->
  lo * Z.of_nat (List.length xs)
  <= fold_left (fun r x => r + f x) xs 0
  <= hi * Z.of_nat (List.length xs).
Proof.
  intros Hf. induction xs as [|x xs IH]; cbn [fold_left List.length]; [lia|].
  rewrite fold_left_add. specialize (Hf x). lia.
Qed.

Lemma keyword_relevance_bounds node nodeStr keyword :
  0 <= keyword_relevance node nodeStr keyword <= 8.
Proof.
  unfold keyword_relevance.
  destruct (includes (original keyword) nodeStr),
           (includes (stemmed keyword) nodeStr),
           (str_prop "name" (n_data node)) as [name|];
    try destruct (String.eqb _ _); try destruct (includes _ (toLowerCase name)); lia.
Qed.

Lemma fold_left_boost {X} (c : X -> bool) (xs : list X) : forall a,
  a <= fold_left (fun r x => if c x then r + 3 else r) xs a
    <= a + 3 * Z.of_nat (List.length xs)
  /\ (forallb (fun x => negb (c x)) xs = true ->
      fold_left (fun r x => if c x then r + 3 else r) xs a = a).
Proof.
  induction xs as [|x xs IH]; intros a; cbn [fold_left List.length forallb].
  - split; [lia|reflexivity].
  - destruct (c x); cbn [negb andb].
    + destruct (IH (a + 3)) as [H _]. split; [lia|discriminate].
    + destruct (IH a) as [H H']. split; [lia|exact H'].
Qed.

(** X20. The relevance of a node for a list of keywords is the sum of
    its relevance for the parts of the list, and lies between 0 and
    eight times the number of keywords. [calculatePatternRelevance] adds
    to it at most 45, and nothing when the query names none of the
    pattern indicators. *)
Theorem relevance_scores_add_up_and_are_bounded node query keywords more :
  calculateRelevance node (keywords ++ more)
  = calculateRelevance node keywords + calculateRelevance node more
  /\ 0 <= calculateRelevance node keywords <= 8 * Z.of_nat (List.length keywords)
  /\ calculateRelevance node keywords
     <= calculatePatternRelevance node query keywords
     <= calculateRelevance node keywords + 45
  /\ (forallb (fun indicator => negb (includes indicator (toLowerCase query)))
        patternIndicators = true ->
      calculatePatternRelevance node query keywords
      = calculateRelevance node keywords).
Proof.
  unfold calculateRelevance, calculatePatternRelevance.
  set (nodeStr := toLowerCase (stringify (node_json node))).
  split; [rewrite fold_left_app, fold_left_add; reflexivity|].
  split.
  { pose proof (fold_left_add_bounds (keyword_relevance node nodeStr) 0 8 keywords
                  (keyword_relevance_bounds node nodeStr)). lia. }
  unfold calculateRelevance. fold nodeStr.
  set (base := fold_left _ keywords 0).
  destruct (fold_left_boost
              (fun indicator =>
                 (includes indicator (toLowerCase query)
                  && includes indicator nodeStr)%bool) patternIndicators base)
    as [Hb Heq].
  split; [exact Hb|].
  intros Hnone. apply Heq.
  rewrite forallb_forall in *. intros x Hx. specialize (Hnone x Hx).
  apply negb_true_iff in Hnone. rewrite Hnone. reflexivity.
Qed.

(** ** The files of a context *)

Lemma file_content_describes path raw fileData maxCodeLength full fc :
  file_content path raw fileData maxCodeLength full = Some (Ok fc) ->
  fc_path fc = path
  /\ fc_fullLength fc = strlen raw
  /\ fc_relevanceScore fc = 0
  /\ (full = true \/ strlen raw <= maxCodeLength -> fc_content fc = raw).
Proof.
  unfold file_content. intros H.
  destruct (negb full && (maxCodeLength <? strlen raw))%bool eqn:E.
  - apply andb_true_iff in E. destruct E as [E1 E2].
    apply negb_true_iff in E1. apply Z.ltb_lt in E2.
    destruct (extractRelevantSections fileData maxCodeLength) as [[content|e]|];
      cbn [bindM ret] in H; try discriminate.
    inversion H; subst fc; cbn. repeat split; auto.
    intros [Hf|Hl]; [congruence|lia].
  - unfold ret in H. inversion H; subst fc; cbn. repeat split; auto.
    intros _. destruct full; [reflexivity|].
    cbn [negb andb] in E. apply Z.ltb_ge in E.
    unfold substring0, strlen in *. apply take_all. lia.
Qed.

Lemma collect_files_paths g maxFiles maxCodeLength full nodes :
  forall files (processed : gset string) out,
    collect_files g maxFiles maxCodeLength full nodes files processed
    = Some (Ok out) ->
    List.NoDup (map fc_path files) ->
    (forall fc, In fc files ->
       fc_path fc ∈ processed /\ from_first_file_node g maxCodeLength full fc) ->
    List.NoDup (map fc_path out)
    /\ (forall fc, In fc out -> from_first_file_node g maxCodeLength full fc).
Proof.
  induction nodes as [|node nodes IH]; intros files processed out H Hnd Hfiles.
  - inversion H; subst. split; [exact Hnd|]. intros fc Hfc. apply Hfiles, Hfc.
  - cbn [collect_files] in H. unfold bindM, ret in H.
    assert (Hcont : forall fs (pr : gset string),
               (if maxFiles <=? Z.of_nat (List.length fs) then Some (Ok fs)
                else collect_files g maxFiles maxCodeLength full nodes fs pr)
               = Some (Ok out) ->
               List.NoDup (map fc_path fs) ->
               (forall fc, In fc fs ->
                  fc_path fc ∈ pr /\ from_first_file_node g maxCodeLength full fc) ->
               List.NoDup (map fc_path out)
               /\ (forall fc, In fc out -> from_first_file_node g maxCodeLength full fc)).
    { intros fs pr Hc Hn Hf. destruct (maxFiles <=? Z.of_nat (List.length fs)).
      - inversion Hc; subst. split; [exact Hn|]. intros fc Hfc. apply Hf, Hfc.
      - eapply IH; eassumption. }
    assert (Hmono : forall p : string, forall fc, In fc files ->
               fc_path fc ∈ processed ∪ {[p]}
               /\ from_first_file_node g maxCodeLength full fc).
    { intros p fc Hfc. destruct (Hfiles fc Hfc). split; [set_solver|assumption]. }
    assert (Hpush : forall (p raw : string) fileNode others fc,
               p ∉ processed ->
               findNodesByProperty g "path" p (Some "file") = fileNode :: others ->
               str_prop "raw" (n_data fileNode) = Some raw ->
               file_content p raw (n_data fileNode) maxCodeLength full = Some (Ok fc) ->
               List.NoDup (map fc_path (files ++ [fc]))
               /\ (forall fc', In fc' (files ++ [fc]) ->
                     fc_path fc' ∈ processed ∪ {[p]}
                     /\ from_first_file_node g maxCodeLength full fc')).
    { intros p raw fileNode others fc Hp Hfind Hraw Hfc.
      apply file_content_describes in Hfc.
      destruct Hfc as (Hpath & Hlen & Hscore & Hcontent).
      split.
      - rewrite map_app. cbn [map]. apply NoDup_snoc; [exact Hnd|].
        rewrite Hpath. intros Hin. apply in_map_iff in Hin.
        destruct Hin as (fc' & Hp' & Hfc'). destruct (Hfiles fc' Hfc') as [Hpr _].
        rewrite Hp' in Hpr. contradiction.
      - intros fc' Hin. apply in_app_or in Hin. destruct Hin as [Hin|[<-|[]]].
        + apply Hmono, Hin.
        + split; [rewrite Hpath; set_solver|].
          exists fileNode, others, raw. rewrite Hpath. auto. }
    break_match_in H; try discriminate;
      repeat match goal with
             | E : bool_decide _ = false |- _ => apply bool_decide_eq_false in E
             end;
      try match type of H with
          | Some _ = Some _ => injection H as H; subst out
          end;
      first
        [ solve [split; [exact Hnd|intros fc' Hfc'; apply Hfiles, Hfc']]
        | solve [eapply IH; [exact H|exact Hnd|first [exact Hfiles|apply Hmono]]]
        | solve [edestruct Hpush as [Hn' Hf']; [eassumption..|];
                 first [ split; [exact Hn'|intros fc' Hfc'; apply Hf', Hfc']
                       | eapply IH; [exact H|exact Hn'|exact Hf'] ]] ].
Qed.

Lemma insert_by_equal {A} (cmp : A -> A -> Z) (x : A) (xs : list A) :
  (forall y, In y xs -> cmp x y <= 0) -> insert_by cmp x xs = x :: xs.
Proof.
  destruct xs as [|y ys]; intros H; cbn [insert_by]; [reflexivity|].
  specialize (H y (or_introl eq_refl)).
  assert ((0 <? cmp x y) = false) as -> by (apply Z.ltb_ge; exact H). reflexivity.
Qed.

Lemma sort_equal_keys {A} (cmp : A -> A -> Z) (xs : list A) :
  (forall x y, In x xs -> In y xs -> cmp x y <= 0) -> sort cmp xs = xs.
Proof.
  induction xs as [|x xs IH]; intros H; cbn [sort]; [reflexivity|].
  rewrite IH by (intros a b Ha Hb; apply H; now right).
  apply insert_by_equal. intros y Hy. apply H; [now left|now right].
Qed.

(** ** The choice of files in the order of the candidates *)

Lemma unseen_skip q ps : forall seen : gset string,
  ~ In q ps ->
  ContextSpec.unseen (seen ∪ {[q]}) ps = ContextSpec.unseen seen ps.
Proof.
  induction ps as [|p ps IH]; intros seen Hq; cbn [ContextSpec.unseen]; [reflexivity|].
  assert (Hne : p <> q) by (intros ->; apply Hq; now left).
  assert (Hps : ~ In q ps) by (intros C; apply Hq; now right).
  destruct (bool_decide (p ∈ seen)) eqn:E.
  - apply bool_decide_eq_true in E.
    rewrite bool_decide_eq_true_2 by set_solver. now apply IH.
  - apply bool_decide_eq_false in E.
    rewrite bool_decide_eq_false_2 by set_solver.
    f_equal. replace (seen ∪ {[q]} ∪ {[p]}) with (seen ∪ {[p]} ∪ {[q]}) by set_solver.
    now apply IH.
Qed.

Lemma has_text_filter g p L :
  ContextSpec.has_text g p = false -> ~ In p (List.filter (ContextSpec.has_text g) L).
Proof. intros H C. apply filter_In in C as [_ C]. congruence. Qed.

Lemma firstn_exact {A} (l r : list A) n :
  List.length l = n -> firstn n (l ++ r) = l.
Proof.
  intros <-. rewrite firstn_app, Nat.sub_diag, firstn_all. cbn. apply app_nil_r.
Qed.

Lemma collect_files_shows g maxFiles maxCodeLength full nodes :
  1 <= maxFiles ->
  (forall n, In n nodes ->
     String.eqb (n_type n) "file" = true ->
     str_prop "path" (n_data n) <> None -> str_prop "file" (n_data n) = None) ->
  forall files processed out,
    collect_files g maxFiles maxCodeLength full nodes files processed
    = Some (Ok out) ->
    Z.of_nat (List.length files) < maxFiles ->
    map fc_path out
    = firstn (Z.to_nat maxFiles)
        (map fc_path files
         ++ ContextSpec.unseen processed
              (List.filter (ContextSpec.has_text g) (ContextSpec.files_of nodes))).
Proof.
  intros Hmax. induction nodes as [|node nodes IH]; intros Hnames files processed out H Hlen.
  - inversion H; subst. cbn. rewrite app_nil_r. symmetry. apply firstn_all2.
    rewrite length_map. lia.
  - assert (Hnames' : forall n, In n nodes ->
                String.eqb (n_type n) "file" = true ->
                str_prop "path" (n_data n) <> None ->
                str_prop "file" (n_data n) = None)
      by (intros n Hn; apply Hnames; now right).
    specialize (IH Hnames').
    pose proof (Hnames node (or_introl eq_refl)) as Hnode. clear Hnames.
    set (L := List.filter (ContextSpec.has_text g) (ContextSpec.files_of nodes)) in *.
    assert (Hskip : forall pr,
               collect_files g maxFiles maxCodeLength full nodes files pr = Some (Ok out) ->
               map fc_path out
               = firstn (Z.to_nat maxFiles) (map fc_path files ++ ContextSpec.unseen pr L))
      by (intros pr Hc; now apply IH).
    assert (Hcont : forall pr,
               (if maxFiles <=? Z.of_nat (List.length files) then ret files
                else collect_files g maxFiles maxCodeLength full nodes files pr)
               = Some (Ok out) ->
               map fc_path out
               = firstn (Z.to_nat maxFiles) (map fc_path files ++ ContextSpec.unseen pr L)).
    { intros pr Hc.
      replace (maxFiles <=? Z.of_nat (List.length files)) with false in Hc
        by (symmetry; apply Z.leb_gt; lia).
      now apply Hskip. }
    assert (Hpush : forall p raw fileData (pr : gset string),
               bindM (file_content p raw fileData maxCodeLength full)
                 (fun fc =>
                    if maxFiles <=? Z.of_nat (List.length (files ++ [fc]))
                    then ret (files ++ [fc])
                    else collect_files g maxFiles maxCodeLength full nodes
                           (files ++ [fc]) pr)
               = Some (Ok out) ->
               map fc_path out
               = firstn (Z.to_nat maxFiles)
                   (map fc_path files ++ p :: ContextSpec.unseen pr L)).
    { intros p raw fileData pr Hc. unfold bindM in Hc.
      destruct (file_content p raw fileData maxCodeLength full) as [[fc|e]|] eqn:Efc;
        try discriminate.
      apply file_content_describes in Efc. destruct Efc as (Hpath & _).
      destruct (maxFiles <=? Z.of_nat (List.length (files ++ [fc]))) eqn:E.
      - apply Z.leb_le in E. inversion Hc; subst out.
        rewrite length_app in E. cbn [List.length] in E.
        rewrite map_app. cbn [map]. rewrite Hpath.
        change (map fc_path files ++ p :: ContextSpec.unseen pr L)
          with (map fc_path files ++ [p] ++ ContextSpec.unseen pr L).
        rewrite app_assoc. symmetry. apply firstn_exact.
        rewrite length_app, length_map. cbn [List.length]. lia.
      - apply Z.leb_gt in E. apply IH in Hc; [|exact E].
        rewrite Hc, map_app. cbn [map]. rewrite Hpath, <- app_assoc. reflexivity. }
    cbn [collect_files] in H.
    unfold ContextSpec.files_of. cbn [flat_map]. fold (ContextSpec.files_of nodes).
    unfold ContextSpec.file_of.
    assert (Href :
      forall own_none : (if String.eqb (n_type node) "file"
                         then str_prop "path" (n_data node) else None) = None
                        \/ exists p, String.eqb (n_type node) "file" = true
                                     /\ str_prop "path" (n_data node) = Some p
                                     /\ p ∈ processed,
        match str_prop "file" (n_data node) with
        | Some file =>
            if bool_decide (file ∈ processed)
            then collect_files g maxFiles maxCodeLength full nodes files processed
            else
              match findNodesByProperty g "path" file (Some "file") with
              | fileNode :: _ =>
                  match str_prop "raw" (n_data fileNode) with
                  | Some raw =>
                      bindM (file_content file raw (n_data fileNode)
                               maxCodeLength full)
                        (fun fc =>
                           if maxFiles <=? Z.of_nat (List.length (files ++ [fc]))
                           then ret (files ++ [fc])
                           else collect_files g maxFiles maxCodeLength full nodes
                                  (files ++ [fc]) (processed ∪ {[file]}))
                  | None =>
                      if maxFiles <=? Z.of_nat (List.length files) then ret files
                      else collect_files g maxFiles maxCodeLength full nodes
                             files processed
                  end
              | [] =>
                  if maxFiles <=? Z.of_nat (List.length files) then ret files
                  else collect_files g maxFiles maxCodeLength full nodes
                         files processed
              end
        | None => collect_files g maxFiles maxCodeLength full nodes files processed
        end = Some (Ok out) ->
        map fc_path out
        = firstn (Z.to_nat maxFiles)
            (map fc_path files
             ++ ContextSpec.unseen processed
                  (List.filter (ContextSpec.has_text g)
                     (match str_prop "file" (n_data node) with
                      | Some path => [path]
                      | None => []
                      end ++ ContextSpec.files_of nodes)))).
    { intros _ Hc.
      destruct (str_prop "file" (n_data node)) as [f|] eqn:Ef; cbn [app];
        [|now apply Hskip].
      cbn [List.filter]. fold L. unfold ContextSpec.has_text at 1.
      destruct (bool_decide (f ∈ processed)) eqn:Ein.
      - apply Hskip in Hc. rewrite Hc.
        destruct (match findNodesByProperty g "path" f (Some "file") with
                  | [] => false
                  | fileNode :: _ =>
                      match str_prop "raw" (n_data fileNode) with
                      | Some _ => true
                      | None => false
                      end
                  end); [|reflexivity].
        cbn [ContextSpec.unseen]. rewrite Ein. reflexivity.
      - destruct (findNodesByProperty g "path" f (Some "file")) as [|fileNode others];
          [now apply Hcont|].
        destruct (str_prop "raw" (n_data fileNode)) as [raw|]; [|now apply Hcont].
        cbn [ContextSpec.unseen]. rewrite Ein. eapply Hpush. exact Hc. }
    destruct (String.eqb (n_type node) "file") eqn:Et.
    + destruct (str_prop "path" (n_data node)) as [p|] eqn:Ep.
      * destruct (bool_decide (p ∈ processed)) eqn:Ein.
        -- rewrite Hnode in H by first [reflexivity|discriminate].
           apply Hskip in H. rewrite H. cbn [app List.filter]. fold L.
           destruct (ContextSpec.has_text g p); [|reflexivity].
           cbn [ContextSpec.unseen]. rewrite Ein. reflexivity.
        -- cbn [app List.filter]. fold L. unfold ContextSpec.has_text at 1.
           assert (Hno : ContextSpec.has_text g p = false ->
                         ContextSpec.unseen (processed ∪ {[p]}) L
                         = ContextSpec.unseen processed L)
             by (intros Hf; apply unseen_skip, has_text_filter, Hf).
           unfold ContextSpec.has_text in Hno.
           destruct (findNodesByProperty g "path" p (Some "file"))
             as [|fileNode others].
           { apply Hcont in H. rewrite H, Hno; reflexivity. }
           destruct (str_prop "raw" (n_data fileNode)) as [raw|].
           { cbn [ContextSpec.unseen]. rewrite Ein. eapply Hpush. exact H. }
           apply Hcont in H. rewrite H, Hno; reflexivity.
      * apply Href; [now left|exact H].
    + apply Href; [now left|exact H].
Qed.

Lemma str_prop_truthy k o s :
  str_prop k o = Some s -> truthy (prop k o) = true.
Proof.
  unfold str_prop. destruct (prop k o); try discriminate.
  cbn [truthy]. destruct (String.eqb s0 EmptyString); [discriminate|reflexivity].
Qed.

(** In a graph of plain files a file node with a path names no other
    file. *)
Lemma plain_files_names g n :
  ContextSpec.plain_files g = true ->
  In n (values (nodes g)) ->
  String.eqb (n_type n) "file" = true ->
  str_prop "path" (n_data n) <> None -> str_prop "file" (n_data n) = None.
Proof.
  unfold ContextSpec.plain_files. rewrite forallb_forall.
  intros H Hn Ht Hp. specialize (H n Hn). unfold ContextSpec.plain_node in H.
  apply andb_true_iff in H as [_ H]. rewrite Ht in H.
  destruct (str_prop "path" (n_data n)) as [p|] eqn:Ep; [|congruence].
  rewrite (str_prop_truthy _ _ _ Ep) in H. cbn [andb] in H.
  destruct (str_prop "file" (n_data n)) as [f|] eqn:Ef; [|reflexivity].
  rewrite (str_prop_truthy _ _ _ Ef) in H. discriminate.
Qed.

Lemma overview_nodes_in_graph g maxNodes n :
  In n (ContextSpec.overview_nodes g maxNodes) -> In n (values (nodes g)).
Proof.
  unfold ContextSpec.overview_nodes. cbv zeta. rewrite !in_app_iff.
  intros H.
  repeat match type of H with
         | _ \/ _ => destruct H as [H|H]
         end;
    apply in_firstn in H; unfold findNodesByType in H;
    apply filter_In in H; tauto.
Qed.

(** What [getFilesWithContent] returns is what its loop gathers: every
    score is 0 and the final sort changes nothing. *)
Lemma getFilesWithContent_collect g nodes maxFiles maxCodeLength full out :
  getFilesWithContent g nodes maxFiles maxCodeLength full = Some (Ok out) ->
  collect_files g maxFiles maxCodeLength full
    (prioritizeNodesByRelevance nodes) [] ∅ = Some (Ok out)
  /\ List.NoDup (map fc_path out)
  /\ (forall fc, In fc out -> from_first_file_node g maxCodeLength full fc).
Proof.
  intros H. unfold getFilesWithContent, bindM, ret in H.
  destruct (collect_files _ _ _ _ _ _ _) as [[files|e]|] eqn:E; try discriminate.
  destruct (collect_files_paths _ _ _ _ _ _ _ _ E) as [Hnd Hdesc];
    [constructor|intros fc []|].
  assert (Hsort : sort (fun a b => fc_relevanceScore b - fc_relevanceScore a) files
                  = files).
  { apply sort_equal_keys. intros x y Hx Hy.
    destruct (Hdesc x Hx) as (? & ? & ? & _ & _ & _ & Hx0 & _).
    destruct (Hdesc y Hy) as (? & ? & ? & _ & _ & _ & Hy0 & _). lia. }
  rewrite Hsort in H. inversion H; subst out. auto.
Qed.

(** ** The graphs built from parsed files are graphs of plain files *)

Section Keeps.
Variable P : Graph -> Prop.

Lemma keeps_ret {A} (a : A) : keeps P (op_ret a).
Proof. intros g r g' Hg H. inversion H. now subst. Qed.

Lemma keeps_unmodelled {A} : keeps P (fun _ => None : option (result A * Graph)).
Proof. intros g r g' _ H. discriminate. Qed.

Lemma keeps_throw {A} e :
  keeps P (fun g => Some (Throw e, g) : option (result A * Graph)).
Proof. intros g r g' Hg H. inversion H. now subst. Qed.

Lemma keeps_bind {A B} (m : Op A) (k : A -> Op B) :
  keeps P m -> (forall a, keeps P (k a)) -> keeps P (op_bind m k).
Proof.
  intros Hm Hk g r g' Hg H. unfold op_bind in H.
  destruct (m g) as [[[a|e] g1]|] eqn:E; try discriminate.
  - eapply Hk; [eapply Hm; eassumption|exact H].
  - inversion H. subst. eapply Hm; eassumption.
Qed.

Lemma keeps_for {X} (f : X -> Op unit) (xs : list X) :
  (forall x, keeps P (f x)) -> keeps P (op_for f xs).
Proof.
  intros Hf. induction xs as [|x xs IH]; cbn [op_for].
  - apply keeps_ret.
  - apply keeps_bind; [apply Hf|intros _; exact IH].
Qed.

Lemma keeps_each xs body :
  (forall x, keeps P (body x)) -> keeps P (op_each xs body).
Proof.
  intros Hb. unfold op_each.
  destruct xs; cbn;
    try apply keeps_ret; try apply keeps_unmodelled;
    try (destruct b; [apply keeps_unmodelled|apply keeps_ret]);
    try (destruct (negb _); [apply keeps_unmodelled|apply keeps_ret]).
  now apply keeps_for.
Qed.

Lemma keeps_with_graph {A} (m : Graph -> Op A) :
  (forall g0, keeps P (m g0)) -> keeps P (fun g => m g g).
Proof. intros H g r g' Hg E. eapply H; eassumption. Qed.

Lemma keeps_field k x : keeps P (op_field k x).
Proof. intros g r g' Hg H. inversion H. now subst. Qed.

End Keeps.

Lemma addEdge_nodes s t rel meta now g r g' :
  addEdge s t rel meta now g = Some (r, g') -> nodes g' = nodes g.
Proof.
  intros H.
  destruct (increment (edgeIdCounter g)) as [c|] eqn:Hc.
  2:{ unfold addEdge, generateEdgeId in H. rewrite Hc in H. discriminate. }
  destruct (addEdge_cases s t rel meta now g c Hc)
    as [[_ E]|[(_ & l & _ & E)|(_ & _ & E)]];
    rewrite E in H; inversion H; reflexivity.
Qed.

Lemma keeps_plain_addEdge s t rel now :
  keeps (fun g => ContextSpec.plain_files g = true) (op_addEdge s t rel now).
Proof.
  intros g r g' Hg H. unfold op_addEdge in H.
  destruct (addEdge s t rel [] now g) as [[[id|e] g1]|] eqn:E; [| |discriminate];
    inversion H; subst; unfold ContextSpec.plain_files;
    rewrite (addEdge_nodes _ _ _ _ _ _ _ _ E); exact Hg.
Qed.

Lemma keeps_plain_addNode type data now :
  ContextSpec.plain_node (mkNode EmptyString type data now) = true ->
  keeps (fun g => ContextSpec.plain_files g = true) (op_addNode type data now).
Proof.
  intros Hn g r g' Hg H. unfold op_addNode in H.
  destruct (addNode type data now g) as [[id g1]|] eqn:E; [|discriminate].
  inversion H; subst r g1; clear H.
  unfold addNode in E.
  destruct (node_id_for data g) as [[i g1]|] eqn:Ei; [|discriminate].
  inversion E; subst i g'; clear E.
  assert (N : nodes g1 = nodes g).
  { destruct (node_id_for_spec _ _ _ _ Ei) as [(_ & _ & ->)|(_ & c & _ & _ & ->)];
      reflexivity. }
  unfold ContextSpec.plain_files, with_nodes, values in *. cbn [nodes]. rewrite N.
  rewrite forallb_forall in *. intros n Hin. apply in_map_iff in Hin as ([k v] & <- & Hkv).
  cbn [snd].
  assert (Hall : List.Forall (fun kv : string * Node => ContextSpec.plain_node (snd kv) = true)
                   (set id (mkNode id type data now) (nodes g))).
  { apply Forall_set; [exact Hn|].
    apply List.Forall_forall. intros kv Hk. apply Hg. apply in_map. exact Hk. }
  rewrite List.Forall_forall in Hall. apply (Hall _ Hkv).
Qed.

(** Adding a parsed file whose path and text are strings or missing to a
    graph of plain files gives a graph of plain files, whatever the
    outcome. *)
Lemma plain_files_addFileToGraph file parentId now :
  ContextSpec.text_or_nothing (prop "path" file) = true ->
  ContextSpec.text_or_nothing (prop "raw" file) = true ->
  keeps (fun g => ContextSpec.plain_files g = true) (addFileToGraph file parentId now).
Proof.
  intros Hpath Hraw. unfold addFileToGraph.
  set (path := prop "path" file) in *. set (raw := prop "raw" file) in *.
  repeat first
    [ apply keeps_ret
    | apply keeps_unmodelled
    | apply keeps_plain_addEdge
    | apply keeps_field
    | apply keeps_plain_addNode;
      unfold ContextSpec.plain_node; cbn [n_type n_data prop String.eqb Ascii.eqb Bool.eqb];
      cbn; rewrite ?Hpath, ?Hraw, ?andb_false_r; reflexivity
    | apply keeps_bind; [|intros ?]
    | apply keeps_each; intros ?
    | apply keeps_for; intros ?
    | match goal with
      | |- keeps _ (fun g => op_for _ _ g) =>
          apply (keeps_with_graph _ (fun g0 => op_for _ _)); intros ?
      | |- keeps _ (match ?x with _ => _ end) => destruct x
      | |- keeps _ (if ?x then _ else _) => destruct x
      end ].
Qed.

Lemma plain_files_addFileUnder parentId now file :
  match file with
  | JObj f => ContextSpec.text_or_nothing (prop "path" f) = true
              /\ ContextSpec.text_or_nothing (prop "raw" f) = true
  | _ => True
  end ->
  keeps (fun g => ContextSpec.plain_files g = true) (op_addFileUnder parentId now file).
Proof.
  intros Hf. unfold op_addFileUnder. destruct file; try apply keeps_unmodelled.
  destruct Hf as [Hp Hr].
  apply keeps_bind; [now apply plain_files_addFileToGraph|intros _; apply keeps_ret].
Qed.

Lemma keeps_for_In {X} (P : Graph -> Prop) (f : X -> Op unit) (xs : list X) :
  (forall x, In x xs -> keeps P (f x)) -> keeps P (op_for f xs).
Proof.
  induction xs as [|x xs IH]; intros Hf; cbn [op_for].
  - apply keeps_ret.
  - apply keeps_bind; [apply Hf; now left|intros _; apply IH].
    intros y Hy. apply Hf. now right.
Qed.

(** Adding a repository of parsed files, whose paths and texts are
    strings or missing, to a graph of plain files gives a graph of plain
    files. *)
Lemma plain_files_addRepository parsedRepo now :
  (forall files f, prop "files" parsedRepo = JArr files -> In (JObj f) files ->
     ContextSpec.text_or_nothing (prop "path" f) = true
     /\ ContextSpec.text_or_nothing (prop "raw" f) = true) ->
  keeps (fun g => ContextSpec.plain_files g = true) (addRepository parsedRepo now).
Proof.
  intros Hfiles. unfold addRepository.
  apply keeps_bind; [apply keeps_plain_addNode; reflexivity|]. intros repoId.
  destruct (prop "repository" parsedRepo); try apply keeps_unmodelled.
  apply keeps_bind; [intros g r g' Hg H; inversion H; subst; exact Hg|]. intros _.
  apply keeps_bind; [|intros _; apply keeps_ret].
  destruct (prop "files" parsedRepo) as [| | | | |files|] eqn:Ef;
    try apply keeps_unmodelled; try apply keeps_throw.
  apply keeps_for_In. intros file Hin. apply plain_files_addFileUnder.
  destruct file; auto. eapply Hfiles; [reflexivity|exact Hin].
Qed.

Lemma plain_files_empty : ContextSpec.plain_files empty = true.
Proof. reflexivity. Qed.

(** C9. On a well-formed graph, [getContext] with an empty query and
    [maxFiles = 2] takes as candidates the overview: up to a third of
    [maxNodes] nodes of each of the types file, function and class, in that
    order, then exports; it scans them for files in the order files, then
    functions and classes, then exports, which is the order of the
    overview. Whenever it returns, it returns at most 2 files, each of
    which stands for the first file node of the graph with its path. In
    a graph of plain files, where [path], [file] and [raw] hold strings
    or nothing and a file node has no [file] of its own, as in every
    graph built from parsed files ([plain_files_addFileToGraph]), the
    files returned are the first two of the files the candidates stand
    for, in the order of the candidates, each once and those left out
    whose text the graph does not hold: a file node stands for its own
    path, a function, a class or an export for the file that holds it.
    With complete files, the default, it does return. *)
Theorem empty_query_selects_two_files g options :
  wf g -> 0 <= maxNodes options -> maxFiles options = 2 ->
  let candidates := ContextSpec.overview_nodes g (maxNodes options) in
  select_nodes g EmptyString (maxNodes options) = Some (Ok candidates)
  /\ prioritizeNodesByRelevance candidates = candidates
  /\ StronglySorted
       (fun a b => ContextSpec.priority a <= ContextSpec.priority b) candidates
  /\ (forall ctx,
        getContext g EmptyString options = Some (Ok ctx) ->
        c_nodes ctx = candidates
        /\ (List.length (c_filesWithContent ctx) <= 2)%nat
        /\ (forall fc, In fc (c_filesWithContent ctx) ->
              from_first_file_node g (maxCodeLength options)
                (includeFullFiles options) fc)
        /\ (ContextSpec.plain_files g = true ->
            map fc_path (c_filesWithContent ctx)
            = firstn 2 (ContextSpec.files_to_show g candidates)))
  /\ (includeFullFiles options = true ->
      exists ctx, getContext g EmptyString options = Some (Ok ctx)).
Proof.
  intros Hwf Hmax Hfiles candidates.
  pose proof (select_nodes_overview g EmptyString (maxNodes options) Hwf Hmax
                eq_refl) as Hsel.
  fold candidates in Hsel.
  assert (Hprio : prioritizeNodesByRelevance candidates = candidates)
    by apply prioritize_overview.
  split; [exact Hsel|]. split; [exact Hprio|].
  split; [rewrite <- Hprio; apply prioritize_sorted|].
  split.
  - intros ctx Hctx.
    destruct (getContext_nodes g EmptyString options candidates ctx Hsel Hctx)
      as [Hnodes Hget].
    split; [exact Hnodes|].
    pose proof (getFilesWithContent_length _ _ _ _ _ _ Hget) as Hlen.
    rewrite Hfiles in Hlen.
    destruct (getFilesWithContent_collect _ _ _ _ _ _ Hget) as (Hcollect & _ & Hdesc).
    split; [lia|]. split; [exact Hdesc|].
    intros Hplain. rewrite Hprio, Hfiles in Hcollect.
    apply collect_files_shows in Hcollect; [|lia| |cbn; lia].
    + rewrite Hcollect. reflexivity.
    + intros n Hn. apply (plain_files_names g n Hplain).
      eapply overview_nodes_in_graph. exact Hn.
  - intros Hfull. unfold getContext. rewrite Hsel. cbn [bindM].
    unfold getFilesWithContent. rewrite Hfull.
    destruct (collect_files_full_returns g (maxFiles options)
                (maxCodeLength options)
                (prioritizeNodesByRelevance candidates) [] ∅) as [out ->].
    cbn. eexists. reflexivity.
Qed.

Lemma empty_query_witness :
  let g := Samples.project_graph in
  let options := mkOptions 50 2 5000 true in
  let candidates := ContextSpec.overview_nodes g 50 in
  (ContextSpec.plain_files g = true
   /\ ContextSpec.files_to_show g candidates = ["auth.js"; "user.js"; "a.js"])
  /\ select_nodes g EmptyString 50 = Some (Ok candidates)
  /\ prioritizeNodesByRelevance candidates = candidates
  /\ StronglySorted
       (fun a b => ContextSpec.priority a <= ContextSpec.priority b) candidates
  /\ (forall ctx,
        getContext g EmptyString options = Some (Ok ctx) ->
        c_nodes ctx = candidates
        /\ (List.length (c_filesWithContent ctx) <= 2)%nat
        /\ (forall fc, In fc (c_filesWithContent ctx) ->
              from_first_file_node g 5000 true fc)
        /\ (ContextSpec.plain_files g = true ->
            map fc_path (c_filesWithContent ctx)
            = firstn 2 (ContextSpec.files_to_show g candidates)))
  /\ (includeFullFiles options = true ->
      exists ctx, getContext g EmptyString options = Some (Ok ctx)).
Proof.
  split; [split; vm_compute; reflexivity|].
  apply (empty_query_selects_two_files Samples.project_graph (mkOptions 50 2 5000 true)).
  - reflexivity.
  - simpl. lia.
  - reflexivity.
Defined.

(** X21. When [getFilesWithContent] returns, no path occurs twice among
    the files it lists; every file describes the first file node of the
    graph with its path, with the length of the text of that node, the
    relevance score 0, and the whole text as content when complete files
    are asked for or the text fits in the budget; there are at most
    [maxFiles] files, and one when [maxFiles] is less than one. As every
    score is 0 the final sort changes nothing: the files come in the
    order in which the loop gathers them. *)
Theorem getFilesWithContent_lists_each_path_once g nodes maxFiles maxCodeLength
  full out :
  getFilesWithContent g nodes maxFiles maxCodeLength full = Some (Ok out) ->
  List.NoDup (map fc_path out)
  /\ (forall fc, In fc out -> from_first_file_node g maxCodeLength full fc)
  /\ Z.of_nat (List.length out) <= Z.max maxFiles 1
  /\ collect_files g maxFiles maxCodeLength full
       (prioritizeNodesByRelevance nodes) [] ∅ = Some (Ok out).
Proof.
  intros H. pose proof (getFilesWithContent_length _ _ _ _ _ _ H) as Hlen.
  unfold getFilesWithContent, bindM, ret in H.
  destruct (collect_files _ _ _ _ _ _ _) as [[files|e]|] eqn:E; try discriminate.
  destruct (collect_files_paths _ _ _ _ _ _ _ _ E) as [Hnd Hdesc];
    [constructor|intros fc []|].
  assert (Hsort : sort (fun a b => fc_relevanceScore b - fc_relevanceScore a) files
                  = files).
  { apply sort_equal_keys. intros x y Hx Hy.
    destruct (Hdesc x Hx) as (? & ? & ? & _ & _ & _ & Hx0 & _).
    destruct (Hdesc y Hy) as (? & ? & ? & _ & _ & _ & Hy0 & _). lia. }
  rewrite Hsort in H. inversion H; subst out. auto.
Qed.

Lemma getFilesWithContent_witness :
  exists out,
    getFilesWithContent Samples.project_graph
      (values (nodes Samples.project_graph)) 2 10 false = Some (Ok out)
    /\ List.NoDup (map fc_path out)
    /\ (forall fc, In fc out -> from_first_file_node Samples.project_graph 10 false fc)
    /\ Z.of_nat (List.length out) <= Z.max 2 1
    /\ collect_files Samples.project_graph 2 10 false
         (prioritizeNodesByRelevance (values (nodes Samples.project_graph))) [] ∅
       = Some (Ok out).
Proof.
  eexists. split; [vm_compute; reflexivity|].
  apply (getFilesWithContent_lists_each_path_once Samples.project_graph
           (values (nodes Samples.project_graph)) 2 10 false).
  vm_compute. reflexivity.
Defined.

(** ** The excerpt of a file without functions and classes *)

Lemma indices_where_beyond (p : string -> bool) (bound : Z) (lines : list string) :
  forall i, bound <= i ->
    List.filter (fun j => j <? bound) (indices_where p i lines) = [].
Proof.
  induction lines as [|line rest IH]; intros i Hi; cbn [indices_where]; [reflexivity|].
  destruct (p line); cbn [List.filter].
  - assert ((i <? bound) = false) as -> by (apply Z.ltb_ge; exact Hi).
    apply IH. lia.
  - apply IH. lia.
Qed.

Lemma indices_where_none (p : string -> bool) (lines : list string) :
  forall (n : nat) (i : Z),
    forallb (fun line => negb (p line)) (firstn n lines) = true ->
    List.filter (fun j => j <? i + Z.of_nat n) (indices_where p i lines) = [].
Proof.
  induction lines as [|line rest IH]; intros n i H; cbn [indices_where]; [reflexivity|].
  destruct n as [|n].
  - rewrite Z.add_0_r. apply (indices_where_beyond p i (line :: rest) i). lia.
  - cbn [firstn forallb] in H. apply andb_true_iff in H. destruct H as [H1 H2].
    apply negb_true_iff in H1. rewrite H1.
    replace (i + Z.of_nat (S n)) with (i + 1 + Z.of_nat n) by lia.
    apply IH. exact H2.
Qed.

Lemma entity_ranges_none findEnd lines xs :
  xs = JArr [] \/ truthy xs = false ->
  entity_ranges findEnd lines xs = Some (Ok []).
Proof.
  intros [->|H]; unfold entity_ranges; [reflexivity|]. rewrite H. reflexivity.
Qed.

(** X22. For a file with a text, without functions and classes (they
    are missing or empty, as for Markdown) and without a line that
    begins with [import], [export], [from] or [require] among its first
    fifty, [extractRelevantSections] returns the empty string. So when
    complete files are not asked for and the text is longer than the
    budget, the content of such a file in the context is empty, beside
    its full length. *)
Theorem excerpt_of_a_file_without_entities_is_empty fileData raw maxLength :
  str_prop "raw" fileData = Some raw ->
  prop "functions" fileData = JArr [] \/ truthy (prop "functions" fileData) = false ->
  prop "classes" fileData = JArr [] \/ truthy (prop "classes" fileData) = false ->
  forallb (fun line => negb (is_import_export line)) (firstn 50 (split_lines raw))
  = true ->
  extractRelevantSections fileData maxLength = Some (Ok EmptyString)
  /\ (forall path maxCodeLength,
        maxCodeLength < strlen raw ->
        exists fc,
          file_content path raw fileData maxCodeLength false = Some (Ok fc)
          /\ fc_content fc = EmptyString
          /\ fc_fullLength fc = strlen raw).
Proof.
  intros Hraw Hf Hc Hi.
  assert (Hx : forall maxLength,
             extractRelevantSections fileData maxLength = Some (Ok EmptyString)).
  { intros m. unfold extractRelevantSections. rewrite Hraw.
    rewrite (entity_ranges_none _ _ _ Hf), (entity_ranges_none _ _ _ Hc).
    cbn [bindM ret]. unfold import_range.
    change (fun i : Z => i <? 50) with (fun j : Z => j <? 0 + Z.of_nat 50).
    rewrite (indices_where_none is_import_export (split_lines raw) 50 0 Hi).
    reflexivity. }
  split; [apply Hx|].
  intros path m Hm. unfold file_content. cbn [negb andb].
  assert ((m <? strlen raw) = true) as -> by (apply Z.ltb_lt; exact Hm).
  rewrite Hx. cbn [bindM ret]. eexists. split; [reflexivity|]. auto.
Qed.

Lemma excerpt_empty_witness :
  extractRelevantSections readme_data 10 = Some (Ok EmptyString)
  /\ (forall path maxCodeLength,
        maxCodeLength < strlen readme_source ->
        exists fc,
          file_content path readme_source readme_data maxCodeLength false
          = Some (Ok fc)
          /\ fc_content fc = EmptyString
          /\ fc_fullLength fc = strlen readme_source).
Proof.
  apply (excerpt_of_a_file_without_entities_is_empty readme_data readme_source 10).
  - reflexivity.
  - right. reflexivity.
  - right. reflexivity.
  - reflexivity.
Defined.

(** ** The nodes of a context *)

Lemma add_new_spec (room : list Node -> bool) (cands : list Node) :
  forall nodes (added : gset string),
    (forall id, id ∈ added <-> In id (map n_id nodes)) ->
    List.NoDup (map n_id nodes) ->
    let r := add_new room cands nodes added in
    (forall id, id ∈ snd r <-> In id (map n_id (fst r)))
    /\ List.NoDup (map n_id (fst r))
    /\ exists ext, fst r = nodes ++ ext /\ incl ext cands.
Proof.
  induction cands as [|n cands IH]; intros nodes added Hadd Hnd; cbn [add_new].
  - cbn. split; [exact Hadd|]. split; [exact Hnd|]. exists []. rewrite app_nil_r.
    split; [reflexivity|apply incl_refl].
  - destruct (negb (bool_decide (n_id n ∈ added)) && room nodes)%bool eqn:E.
    + apply andb_true_iff in E. destruct E as [E _].
      apply negb_true_iff, bool_decide_eq_false in E.
      destruct (IH (nodes ++ [n]) (added ∪ {[n_id n]})) as (H1 & H2 & ext & H3 & H4).
      * intros id. rewrite map_app, in_app_iff, elem_of_union, Hadd, elem_of_singleton.
        cbn. intuition congruence.
      * rewrite map_app. cbn [map]. apply NoDup_snoc; [exact Hnd|].
        intros Hin. apply Hadd in Hin. contradiction.
      * split; [exact H1|]. split; [exact H2|].
        exists (n :: ext). rewrite H3, <- app_assoc. split; [reflexivity|].
        intros x [<-|Hx]; [now left|right; apply H4, Hx].
    + destruct (IH nodes added Hadd Hnd) as (H1 & H2 & ext & H3 & H4).
      split; [exact H1|]. split; [exact H2|].
      exists ext. split; [exact H3|]. intros x Hx. right. apply H4, Hx.
Qed.

Lemma add_new_length (maxNodes : Z) (cands : list Node) :
  forall nodes (added : gset string),
    Z.of_nat (List.length
                (fst (add_new (fun ns => Z.of_nat (List.length ns) <? maxNodes)
                        cands nodes added)))
    <= Z.max (Z.of_nat (List.length nodes)) maxNodes.
Proof.
  induction cands as [|n cands IH]; intros nodes added; cbn [add_new]; [cbn; lia|].
  destruct (negb (bool_decide (n_id n ∈ added))
            && (Z.of_nat (List.length nodes) <? maxNodes))%bool eqn:E.
  - apply andb_true_iff in E. destruct E as [_ E]. apply Z.ltb_lt in E.
    specialize (IH (nodes ++ [n]) (added ∪ {[n_id n]})).
    rewrite length_app in IH. cbn [List.length] in IH. lia.
  - apply IH.
Qed.

Lemma expand_nodes_spec g (maxNodes : Z) (toProcess : list Node) :
  forall nodes (added : gset string),
    (forall id, id ∈ added <-> In id (map n_id nodes)) ->
    List.NoDup (map n_id nodes) ->
    let out := expand_nodes g maxNodes toProcess nodes added in
    List.NoDup (map n_id out)
    /\ (forall n, In n nodes \/ In n toProcess -> In (n_id n) (map n_id out))
    /\ (forall n, In n out ->
          In n nodes \/ In n toProcess
          \/ exists p, In p toProcess
                       /\ In n (slice 0 5 (traverse g (n_id p) 2)))
    /\ Z.of_nat (List.length out)
       <= Z.max (Z.of_nat (List.length nodes)) maxNodes
          + Z.of_nat (List.length toProcess).
Proof.
  induction toProcess as [|p rest IH]; intros nodes added Hadd Hnd; cbn [expand_nodes].
  - cbn. split; [exact Hnd|]. split.
    + intros n [Hn|[]]. apply in_map. exact Hn.
    + split; [auto|]. cbn [List.length]. lia.
  - destruct (bool_decide (n_id p ∈ added)) eqn:E.
    + apply bool_decide_eq_true in E.
      destruct (IH nodes added Hadd Hnd) as (H1 & H2 & H3 & H4).
      split; [exact H1|]. split; [|split].
      * intros n [Hn|[<-|Hn]]; [apply H2; auto| |apply H2; auto].
        apply Hadd in E. apply in_map_iff in E. destruct E as (m & Hm & Hin).
        rewrite <- Hm. apply H2. auto.
      * intros n Hn. destruct (H3 n Hn) as [H|[H|(q & Hq & H)]]; [auto| |].
        -- right. left. now right.
        -- right. right. exists q. split; [now right|exact H].
      * cbn [List.length]. lia.
    + apply bool_decide_eq_false in E.
      pose proof (add_new_spec (fun ns => Z.of_nat (List.length ns) <? maxNodes)
                    (slice 0 5 (traverse g (n_id p) 2)) (nodes ++ [p])
                    (added ∪ {[n_id p]})) as Hs.
      pose proof (add_new_length maxNodes (slice 0 5 (traverse g (n_id p) 2))
                    (nodes ++ [p]) (added ∪ {[n_id p]})) as Hl.
      destruct (add_new _ _ (nodes ++ [p]) (added ∪ {[n_id p]})) as [nodes' added'].
      cbn [fst snd] in Hs, Hl.
      destruct Hs as (Ha' & Hnd' & ext & Hext & Hincl).
      { intros id. rewrite map_app, in_app_iff, elem_of_union, Hadd, elem_of_singleton.
        cbn. intuition congruence. }
      { rewrite map_app. cbn [map]. apply NoDup_snoc; [exact Hnd|].
        intros Hin. apply Hadd in Hin. contradiction. }
      destruct (IH nodes' added' Ha' Hnd') as (H1 & H2 & H3 & H4).
      split; [exact H1|]. split; [|split].
      * intros n Hn. apply H2. rewrite Hext.
        destruct Hn as [Hn|[<-|Hn]]; [left|left|right; exact Hn];
          rewrite <- app_assoc; apply in_or_app; [now left|right; now left].
      * intros n Hn. destruct (H3 n Hn) as [H|[H|(q & Hq & H)]].
        -- rewrite Hext, <- app_assoc in H. apply in_app_or in H.
           destruct H as [H|[<-|H]]; [auto|right; left; now left|].
           right. right. exists p. split; [now left|apply Hincl, H].
        -- right. left. now right.
        -- right. right. exists q. split; [now right|exact H].
      * rewrite length_app in Hl. cbn [List.length] in Hl |- *. lia.
Qed.

(** X23. When [findRelevantNodes] returns, no id occurs twice among
    its nodes. With [processed] the first [maxNodes] of the search
    results, or of the nodes of the graph when the search finds
    nothing: the id of every processed node is among the ids returned,
    every node returned is a processed node or one of the first five
    nodes of the traversal from a processed node, and the number of
    nodes returned is at most [maxNodes] plus the number of processed
    nodes (it can be more than [maxNodes]). *)
Theorem findRelevantNodes_has_no_duplicates g query maxNodes found out :
  searchNodes g query = Some (Ok found) ->
  findRelevantNodes g query maxNodes = Some (Ok out) ->
  let processed :=
    slice 0 maxNodes
      match found with [] => getSampleNodes g maxNodes | _ => found end in
  List.NoDup (map n_id out)
  /\ (forall n, In n processed -> In (n_id n) (map n_id out))
  /\ (forall n, In n out ->
        In n processed
        \/ exists p, In p processed /\ In n (slice 0 5 (traverse g (n_id p) 2)))
  /\ Z.of_nat (List.length out)
     <= Z.max 0 maxNodes + Z.of_nat (List.length processed).
Proof.
  intros Hfound H. cbv zeta. unfold findRelevantNodes in H. rewrite Hfound in H.
  cbn [bindM ret] in H. inversion H; subst out; clear H.
  destruct (expand_nodes_spec g maxNodes
              (slice 0 maxNodes
                 match found with [] => getSampleNodes g maxNodes | _ => found end)
              [] ∅) as (H1 & H2 & H3 & H4).
  { intros id. cbn. set_solver. }
  { constructor. }
  split; [exact H1|]. split; [intros n Hn; apply H2; now right|].
  split.
  - intros n Hn. destruct (H3 n Hn) as [[]|[H|H]]; auto.
  - cbn [List.length] in H4. lia.
Qed.

Lemma findRelevantNodes_witness :
  let found :=
    match searchNodes Samples.project_graph "login" with
    | Some (Ok found) => found
    | _ => []
    end in
  let out :=
    match findRelevantNodes Samples.project_graph "login" 2 with
    | Some (Ok out) => out
    | _ => []
    end in
  let processed :=
    slice 0 2
      match found with
      | [] => getSampleNodes Samples.project_graph 2
      | _ => found
      end in
  List.NoDup (map n_id out)
  /\ (forall n, In n processed -> In (n_id n) (map n_id out))
  /\ (forall n, In n out ->
        In n processed
        \/ exists p, In p processed
                     /\ In n (slice 0 5 (traverse Samples.project_graph (n_id p) 2)))
  /\ Z.of_nat (List.length out) <= Z.max 0 2 + Z.of_nat (List.length processed).
Proof.
  apply (findRelevantNodes_has_no_duplicates Samples.project_graph "login" 2
           match searchNodes Samples.project_graph "login" with
           | Some (Ok found) => found
           | _ => []
           end
           match findRelevantNodes Samples.project_graph "login" 2 with
           | Some (Ok out) => out
           | _ => []
           end);
    vm_compute; reflexivity.
Defined.

(** ** The end of a function *)

Lemma skipn_nth_cons {A} (d : A) (l : list A) : forall n,
  (n < List.length l)%nat -> exists rest, skipn n l = nth n l d :: rest.
Proof.
  induction l as [|x l IH]; intros [|n] Hn; cbn in *; try lia; [eauto|].
  apply IH. lia.
Qed.

(** X24. What [findFunctionEnd] does, for every list of lines and every
    start line: for a negative start line it raises a [TypeError]; for a
    start line behind the last line it returns the number of lines; for
    a start line within the file it returns the next line when the
    braces opened on the start line are closed on it, and else raises
    the [ReferenceError] for [fileData]. It never reads a second
    line. *)
Theorem findFunctionEnd_outcomes lines startLine :
  let total := Z.of_nat (List.length lines) in
  (startLine < 0 ->
   exists what, findFunctionEnd lines startLine = Some (Throw (TypeError what)))
  /\ (total <= startLine -> findFunctionEnd lines startLine = Some (Ok total))
  /\ (0 <= startLine < total ->
      findFunctionEnd lines startLine
      = match scan_braces (nth (Z.to_nat startLine) lines EmptyString) 0 false with
        | inr _ => Some (Ok (startLine + 1))
        | inl _ => Some (Throw (ReferenceError "fileData is not defined"))
        end).
Proof.
  cbv zeta. unfold findFunctionEnd. split; [|split].
  - intros H. assert ((startLine <? 0) = true) as -> by (apply Z.ltb_lt; exact H).
    assert ((startLine <? Z.of_nat (List.length lines)) = true) as ->
      by (apply Z.ltb_lt; lia).
    eexists. reflexivity.
  - intros H. assert ((startLine <? 0) = false) as -> by (apply Z.ltb_ge; lia).
    rewrite skipn_all2 by lia. cbn [findFunctionEnd_loop]. unfold ret.
    do 2 f_equal. lia.
  - intros H. assert ((startLine <? 0) = false) as -> by (apply Z.ltb_ge; lia).
    destruct (skipn_nth_cons EmptyString lines (Z.to_nat startLine)) as [rest ->];
      [lia|].
    cbn [findFunctionEnd_loop].
    destruct (scan_braces _ 0 false) as [[c s]|[]]; reflexivity.
Qed.

(** ** The summary of a context *)

Lemma summarize_all_spec nodes : forall summary out,
  summarize_all summary nodes = Some out ->
  List.NoDup (sum_files summary) ->
  sum_totalNodes out = sum_totalNodes summary
  /\ List.NoDup (sum_files out)
  /\ (forall p, In p (sum_files out) <->
        In p (sum_files summary)
        \/ exists n, In n nodes /\ n_type n = "file"
                     /\ str_prop "path" (n_data n) = Some p)
  /\ sum_functions out
     = sum_functions summary
       ++ map summary_entry (List.filter (named_of_type "function") nodes)
  /\ sum_classes out
     = sum_classes summary
       ++ map summary_entry (List.filter (named_of_type "class") nodes)
  /\ (forall type,
        count_of (sum_nodeTypes out) type
        = count_of (sum_nodeTypes summary) type
          + Z.of_nat (List.length
                        (List.filter (fun n => String.eqb (n_type n) type) nodes))).
Proof.
  induction nodes as [|node rest IH]; intros summary out H Hnd; cbn [summarize_all] in H.
  - inversion H; subst. cbn. rewrite !app_nil_r.
    repeat split; auto; try lia.
    intros [Hp|(n & [] & _)]. exact Hp.
  - destruct (summarize summary node) as [s1|] eqn:E; [|discriminate].
    assert (Hstep :
      sum_totalNodes s1 = sum_totalNodes summary
      /\ List.NoDup (sum_files s1)
      /\ (forall p, In p (sum_files s1) <->
            In p (sum_files summary)
            \/ (n_type node = "file" /\ str_prop "path" (n_data node) = Some p))
      /\ sum_functions s1
         = sum_functions summary
           ++ map summary_entry (List.filter (named_of_type "function") [node])
      /\ sum_classes s1
         = sum_classes summary
           ++ map summary_entry (List.filter (named_of_type "class") [node])
      /\ (forall type,
            count_of (sum_nodeTypes s1) type
            = count_of (sum_nodeTypes summary) type
              + if String.eqb (n_type node) type then 1 else 0)).
    { clear IH H. destruct node as [id type data stamp].
      unfold summarize, tally, named_of_type, str_prop in *.
      cbn [n_type n_data List.filter] in *.
      destruct (existsb _ prototype_names); [discriminate|].
      assert (Hcount : forall type',
                count_of (<[type := default 0 (sum_nodeTypes summary !! type) + 1]>
                            (sum_nodeTypes summary)) type'
                = count_of (sum_nodeTypes summary) type'
                  + if String.eqb type type' then 1 else 0).
      { intros type'. unfold count_of.
        destruct (String.eqb_spec type type') as [->|Hne].
        - rewrite lookup_insert_eq. cbn. lia.
        - rewrite lookup_insert_ne by exact Hne. lia. }
      assert (Hsame : forall p, In p (sum_files summary) <->
                        In p (sum_files summary) \/ type = "file" /\ None = Some p)
        by (intros p; split; [auto|intros [?|[_ ?]]; [assumption|discriminate]]).
      destruct (String.eqb_spec type "file") as [->|Hfile].
      - change ("file" =? "function")%string with false.
        change ("file" =? "class")%string with false.
        cbn [andb map]. rewrite !app_nil_r.
        destruct (prop "path" data) as [| |b|z|path|items|fields];
          cbn [truthy] in E; try discriminate.
        + inversion E; subst s1; cbn. repeat split; auto; apply Hsame.
        + inversion E; subst s1; cbn. repeat split; auto; apply Hsame.
        + destruct b; [discriminate|].
          inversion E; subst s1; cbn. repeat split; auto; apply Hsame.
        + destruct (negb (z =? 0)); [discriminate|].
          inversion E; subst s1; cbn. repeat split; auto; apply Hsame.
        + destruct (String.eqb path EmptyString); inversion E; subst s1; cbn.
          * repeat split; auto; apply Hsame.
          * split; [reflexivity|]. split; [now apply add_unique_NoDup|].
            split; [|auto]. intros p. rewrite add_unique_In. split.
            -- intros [->|Hp]; auto.
            -- intros [Hp|[_ Hp]]; [auto|]. inversion Hp. auto.
      - assert (Hno : forall (x : option string) p, In p (sum_files summary) <->
                        In p (sum_files summary) \/ type = "file" /\ x = Some p)
          by (intros x p; split; [auto|intros [?|[? _]]; [assumption|contradiction]]).
        destruct (String.eqb_spec type "function") as [->|Hfun].
        + change ("function" =? "class")%string with false. cbn [andb] in *.
          destruct (truthy (prop "name" data)); inversion E; subst s1; cbn;
            rewrite ?app_nil_r; repeat split; auto; apply Hno.
        + cbn [andb] in *.
          destruct (String.eqb type "class" && truthy (prop "name" data))%bool;
            inversion E; subst s1; cbn; rewrite ?app_nil_r;
            repeat split; auto; apply Hno. }
    destruct Hstep as (T1 & N1 & F1 & Fn1 & C1 & K1).
    destruct (IH s1 out H N1) as (T2 & N2 & F2 & Fn2 & C2 & K2).
    split; [congruence|]. split; [exact N2|].
    split; [|split; [|split]].
    + intros p. rewrite F2, F1. split.
      * intros [[Hp|[Ht Hp]]|(n & Hn & Ht & Hp)]; [auto| |].
        -- right. exists node. split; [now left|auto].
        -- right. exists n. split; [now right|auto].
      * intros [Hp|(n & [<-|Hn] & Ht & Hp)]; [auto|auto|].
        right. exists n. auto.
    + rewrite Fn2, Fn1, <- app_assoc, <- map_app, <- List.filter_app. reflexivity.
    + rewrite C2, C1, <- app_assoc, <- map_app, <- List.filter_app. reflexivity.
    + intros type. rewrite K2, K1. cbn [List.filter].
      destruct (String.eqb (n_type node) type); cbn [List.length]; lia.
Qed.

(** X25. When [generateSummary] returns, [totalNodes] is the number of
    nodes given; [files] holds each path of a file node among them, once;
    [functions] and [classes] hold an entry for every node of that type
    with a truthy name, in the order of the nodes; and [nodeTypes]
    counts the nodes of each type. *)
Theorem generateSummary_lists_each_file_once nodes summary :
  generateSummary nodes = Some summary ->
  sum_totalNodes summary = Z.of_nat (List.length nodes)
  /\ List.NoDup (sum_files summary)
  /\ (forall path, In path (sum_files summary) <->
        exists node, In node nodes /\ n_type node = "file"
                     /\ str_prop "path" (n_data node) = Some path)
  /\ sum_functions summary
     = map summary_entry (List.filter (named_of_type "function") nodes)
  /\ sum_classes summary
     = map summary_entry (List.filter (named_of_type "class") nodes)
  /\ (forall type,
        count_of (sum_nodeTypes summary) type
        = Z.of_nat (List.length
                      (List.filter (fun n => String.eqb (n_type n) type) nodes))).
Proof.
  intros H. unfold generateSummary in H.
  apply summarize_all_spec in H; [|constructor].
  cbn [sum_totalNodes sum_files sum_functions sum_classes sum_nodeTypes app] in H.
  destruct H as (T & N & F & Fn & C & K).
  split; [exact T|]. split; [exact N|].
  split; [|split; [exact Fn|split; [exact C|]]].
  - intros p. rewrite F. split; [intros [[]|H]; exact H|auto].
  - intros type. rewrite K. unfold count_of. rewrite lookup_empty. cbn. lia.
Qed.

Lemma generateSummary_witness :
  exists summary,
    generateSummary (values (nodes Samples.project_graph)) = Some summary
    /\ sum_totalNodes summary
       = Z.of_nat (List.length (values (nodes Samples.project_graph)))
    /\ List.NoDup (sum_files summary)
    /\ (forall path, In path (sum_files summary) <->
          exists node, In node (values (nodes Samples.project_graph))
                       /\ n_type node = "file"
                       /\ str_prop "path" (n_data node) = Some path)
    /\ sum_functions summary
       = map summary_entry
           (List.filter (named_of_type "function")
              (values (nodes Samples.project_graph)))
    /\ sum_classes summary
       = map summary_entry
           (List.filter (named_of_type "class")
              (values (nodes Samples.project_graph)))
    /\ (forall type,
          count_of (sum_nodeTypes summary) type
          = Z.of_nat (List.length
                        (List.filter (fun n => String.eqb (n_type n) type)
                           (values (nodes Samples.project_graph))))).
Proof.
  eexists. split; [vm_compute; reflexivity|].
  apply (generateSummary_lists_each_file_once (values (nodes Samples.project_graph))).
  vm_compute. reflexivity.
Defined.

(** ** Traversal: a negative depth *)

Lemma traverse_edges_ext
  (visit visit' : string -> gset string -> option (list Node * gset string))
  (s : string) :
  (forall next w, visit next w = visit' next w) ->
  forall cs res w,
    traverse_edges visit s cs res w = traverse_edges visit' s cs res w.
Proof.
  intros Hv cs. induction cs as [|e cs IH]; intros res w; cbn [traverse_edges];
    [reflexivity|].
  rewrite Hv. destruct (visit' _ w) as [[sub w']|]; [apply IH|reflexivity].
Qed.

(** X26. A negative [maxDepth] is no limit: [traverseGraph] gives the
    same result for any two negative depths, since the depth is only
    compared with 0 and decreases from there. *)
Theorem traverseGraph_negative_depth_is_no_limit g fuel : forall s d d' v,
  d < 0 -> d' < 0 ->
  traverseGraph fuel g s d v = traverseGraph fuel g s d' v.
Proof.
  induction fuel as [|fuel IH]; intros s d d' v Hd Hd'; [reflexivity|].
  cbn [traverseGraph].
  assert ((d =? 0) = false) as -> by (apply Z.eqb_neq; lia).
  assert ((d' =? 0) = false) as -> by (apply Z.eqb_neq; lia).
  destruct (bool_decide (s ∈ v) || false)%bool; [reflexivity|].
  destruct (get s (nodes g)); [|reflexivity].
  apply traverse_edges_ext. intros next w. apply IH; lia.
Qed.

Lemma traverseGraph_negative_depth_witness :
  traverseGraph (enough_fuel Samples.project_graph) Samples.project_graph
    "node_1" (-1) ∅
  = traverseGraph (enough_fuel Samples.project_graph) Samples.project_graph
      "node_1" (-7) ∅.
Proof.
  apply (traverseGraph_negative_depth_is_no_limit Samples.project_graph
           (enough_fuel Samples.project_graph) "node_1" (-1) (-7) ∅); lia.
Defined.

(** ** The order in which the files are chosen *)

Lemma sorted_by_rank_split {A} (key : A -> Z) (l : list A) :
  (forall x, In x l -> 0 <= key x <= 3) ->
  StronglySorted (fun a b => key a <= key b) l ->
  l = List.filter (fun x => key x =? 0) l ++ List.filter (fun x => key x =? 1) l
      ++ List.filter (fun x => key x =? 2) l ++ List.filter (fun x => key x =? 3) l.
Proof.
  induction l as [|x l IH]; intros Hr Hs; [reflexivity|].
  inversion Hs as [|? ? Hs' Hall]; subst.
  assert (Hr' : forall y, In y l -> 0 <= key y <= 3) by (intros y Hy; apply Hr; now right).
  specialize (IH Hr' Hs').
  rewrite List.Forall_forall in Hall.
  assert (Hlow : forall k, k < key x -> List.filter (fun y => key y =? k) l = []).
  { intros k Hk. apply filter_none. intros y Hy. specialize (Hall y Hy).
    apply Z.eqb_neq. lia. }
  pose proof (Hr x (or_introl eq_refl)) as Hx.
  cbn [List.filter].
  destruct (Z.eq_dec (key x) 0) as [E|E0]; [rewrite E; cbn; f_equal; exact IH|].
  destruct (Z.eq_dec (key x) 1) as [E|E1].
  { rewrite E in *. cbn [Z.eqb]. rewrite (Hlow 0) in * by lia. cbn. f_equal; exact IH. }
  destruct (Z.eq_dec (key x) 2) as [E|E2].
  { rewrite E in *. cbn [Z.eqb]. rewrite (Hlow 0), (Hlow 1) in * by lia.
    cbn. f_equal; exact IH. }
  assert (E : key x = 3) by lia.
  rewrite E in *. cbn [Z.eqb]. rewrite (Hlow 0), (Hlow 1), (Hlow 2) in * by lia.
  cbn. f_equal; exact IH.
Qed.

Lemma priority_range n : 0 <= ContextSpec.priority n <= 3.
Proof.
  unfold ContextSpec.priority.
  destruct (String.eqb _ "file"); [lia|].
  destruct (String.eqb _ "function" || String.eqb _ "class")%bool; [lia|].
  destruct (String.eqb _ "export"); lia.
Qed.

Lemma filter_by_priority (nodes : list Node) :
  let of_type t (n : Node) := String.eqb (n_type n) t in
  List.filter (fun n => ContextSpec.priority n =? 0) nodes
  = List.filter (of_type "file") nodes
  /\ List.filter (fun n => ContextSpec.priority n =? 1) nodes
     = List.filter (fun n => (of_type "function" n || of_type "class" n)%bool) nodes
  /\ List.filter (fun n => ContextSpec.priority n =? 2) nodes
     = List.filter (of_type "export") nodes
  /\ List.filter (fun n => ContextSpec.priority n =? 3) nodes
     = List.filter (fun n => negb (of_type "file" n || of_type "function" n
                                   || of_type "class" n || of_type "export" n)%bool)
         nodes.
Proof.
  cbv zeta. repeat split; apply filter_ext; intros n; unfold ContextSpec.priority;
    repeat match goal with
           | |- context [String.eqb (n_type n) ?t] =>
               destruct (String.eqb_spec (n_type n) t) as [E|_];
               [rewrite ?E; reflexivity|]
           end;
    reflexivity.
Qed.

(** X27. [prioritizeNodesByRelevance] is the stable sort of the nodes by
    the rank of their type (files, then functions and classes, then
    exports, then the rest): it keeps every node, each once, and keeps
    the nodes of one rank in the order they had. *)
Theorem prioritizeNodesByRelevance_is_a_stable_sort nodes :
  prioritizeNodesByRelevance nodes
  = sort (fun a b => ContextSpec.priority a - ContextSpec.priority b) nodes
  /\ Permutation (prioritizeNodesByRelevance nodes) nodes.
Proof.
  pose proof (sort_sorted (fun a b => ContextSpec.priority a - ContextSpec.priority b)
                ContextSpec.priority (fun _ _ => eq_refl) nodes) as Hs.
  pose proof (sort_perm (fun a b => ContextSpec.priority a - ContextSpec.priority b)
                nodes) as Hp.
  assert (Heq : prioritizeNodesByRelevance nodes
                = sort (fun a b => ContextSpec.priority a - ContextSpec.priority b) nodes).
  { rewrite (sorted_by_rank_split ContextSpec.priority (sort _ nodes))
      by (intros; apply priority_range) || exact Hs.
    rewrite !(sort_stable _ ContextSpec.priority (fun _ _ => eq_refl)).
    destruct (filter_by_priority nodes) as (-> & -> & -> & ->). reflexivity. }
  split; [exact Heq|]. rewrite Heq. exact Hp.
Qed.

(** ** The relationships of a context *)

Lemma list_sum_cons (n : nat) (l : list nat) :
  list_sum (n :: l) = (n + list_sum l)%nat.
Proof. reflexivity. Qed.

Lemma length_flat_map {A B} (f : A -> list B) (l : list A) :
  List.length (flat_map f l) = list_sum (map (fun x => List.length (f x)) l).
Proof.
  induction l as [|x l IH]; [reflexivity|].
  cbn [flat_map map]. rewrite length_app, IH, list_sum_cons. reflexivity.
Qed.

Lemma list_sum_ext {A} (f f' : A -> nat) (l : list A) :
  (forall x, In x l -> f x = f' x) ->
  list_sum (map f l) = list_sum (map f' l).
Proof.
  induction l as [|x l IH]; intros H; [reflexivity|].
  cbn [map]. rewrite !list_sum_cons, H by now left.
  rewrite IH; [reflexivity|]. intros y Hy. apply H. now right.
Qed.

Lemma list_sum_zero {A} (l : list A) : list_sum (map (fun _ => O) l) = O.
Proof.
  induction l as [|x l IH]; [reflexivity|].
  cbn [map]. rewrite list_sum_cons. exact IH.
Qed.

Lemma list_sum_add {A} (f f' : A -> nat) (l : list A) :
  list_sum (map (fun x => (f x + f' x)%nat) l)
  = (list_sum (map f l) + list_sum (map f' l))%nat.
Proof.
  induction l as [|x l IH]; [reflexivity|].
  cbn [map]. rewrite !list_sum_cons, IH. lia.
Qed.

Lemma list_sum_swap {A B} (a : A -> B -> nat) (xs : list A) (ys : list B) :
  list_sum (map (fun x => list_sum (map (a x) ys)) xs)
  = list_sum (map (fun y => list_sum (map (fun x => a x y) xs)) ys).
Proof.
  induction xs as [|x xs IH].
  - cbn [map]. symmetry. apply list_sum_zero.
  - cbn [map]. rewrite list_sum_cons, IH. symmetry.
    rewrite (list_sum_ext _ (fun y => (a x y + list_sum (map (fun x0 => a x0 y) xs))%nat))
      by (intros; apply list_sum_cons).
    apply list_sum_add.
Qed.

Lemma length_flat_map_filter {A B} (f : A -> list B) (p : A -> bool) (l : list A) :
  List.length (flat_map f (List.filter p l))
  = list_sum (map (fun x => if p x then List.length (f x) else O) l).
Proof.
  induction l as [|x l IH]; [reflexivity|].
  cbn [List.filter map]. rewrite list_sum_cons.
  destruct (p x); cbn [flat_map]; rewrite ?length_app, IH; reflexivity.
Qed.

Lemma count_id (x : string) (ids : list string) :
  List.NoDup ids ->
  list_sum (map (fun i => if String.eqb x i then 1%nat else O) ids)
  = if existsb (String.eqb x) ids then 1%nat else O.
Proof.
  induction 1 as [|i ids Hi Hnd IH]; [reflexivity|].
  cbn [map existsb]. rewrite list_sum_cons.
  destruct (String.eqb_spec x i) as [->|Hne]; cbn [orb].
  - rewrite (list_sum_ext _ (fun _ => O)), list_sum_zero; [reflexivity|].
    intros j Hj. destruct (String.eqb_spec i j) as [->|]; [contradiction|reflexivity].
  - exact IH.
Qed.

Lemma count_ends (s t : string) (ids : list string) :
  List.NoDup ids ->
  list_sum (map (fun i => if (String.eqb s i || String.eqb t i)%bool
                          then 1%nat else O) ids)
  = ((if existsb (String.eqb s) ids then 1 else 0)
     + (if (negb (String.eqb s t) && existsb (String.eqb t) ids)%bool
        then 1 else 0))%nat.
Proof.
  intros Hnd. destruct (String.eqb_spec s t) as [->|Hne]; cbn [negb andb].
  - rewrite (list_sum_ext _ (fun i => if String.eqb t i then 1%nat else O)).
    + rewrite count_id by exact Hnd. lia.
    + intros i _. destruct (String.eqb t i); reflexivity.
  - rewrite <- !count_id by exact Hnd. rewrite <- list_sum_add.
    apply list_sum_ext. intros i _.
    destruct (String.eqb_spec s i) as [->|], (String.eqb_spec t i) as [->|];
      cbn; try reflexivity. congruence.
Qed.

(** X28. For selected nodes with distinct ids, the number of
    relationships [extractRelationships] returns is the sum, over the
    edges of the graph whose two ends are stored in the graph, of the
    number of selected ids among the ends of the edge. So an edge
    between two different selected nodes is reported twice, once for
    each end. *)
Theorem extractRelationships_counts_selected_ends g selected :
  List.NoDup (map n_id selected) ->
  List.length (extractRelationships g selected)
  = list_sum (map (selected_ends g (map n_id selected)) (edge_objects (edges g)))
  /\ (forall e,
        has (source e) (nodes g) = true -> has (target e) (nodes g) = true ->
        source e <> target e ->
        In (source e) (map n_id selected) -> In (target e) (map n_id selected) ->
        selected_ends g (map n_id selected) e = 2%nat).
Proof.
  intros Hnd. split.
  - unfold extractRelationships.
    set (nodeIds := list_to_set (map n_id selected) : gset string).
    rewrite length_flat_map.
    rewrite (list_sum_ext _
               (fun node =>
                  list_sum
                    (map (fun e =>
                            if ((String.eqb (source e) (n_id node)
                                 || String.eqb (target e) (n_id node))
                                && (has (source e) (nodes g)
                                    && has (target e) (nodes g)))%bool
                            then 1%nat else O) (edge_objects (edges g))))).
    2:{ intros node Hnode. unfold getNodeConnections.
        rewrite length_flat_map_filter. apply list_sum_ext. intros e _.
        rewrite andb_true_r.
        destruct (String.eqb (source e) (n_id node) || String.eqb (target e) (n_id node))%bool
          eqn:Et; [|reflexivity].
        cbn [andb]. unfold relationship_of.
        assert ((bool_decide (target e ∈ nodeIds) || bool_decide (source e ∈ nodeIds))%bool
                = true) as ->.
        { assert (Hin : n_id node ∈ nodeIds).
          { unfold nodeIds. apply elem_of_list_to_set, list_elem_of_In, in_map, Hnode. }
          apply orb_true_iff in Et. destruct Et as [Et|Et]; apply String.eqb_eq in Et;
            rewrite Et; apply orb_true_iff; [right|left]; apply bool_decide_eq_true;
            exact Hin. }
        unfold has.
        destruct (get (source e) (nodes g)), (get (target e) (nodes g)); reflexivity. }
    rewrite (list_sum_swap
               (fun node e =>
                  if ((String.eqb (source e) (n_id node)
                       || String.eqb (target e) (n_id node))
                      && (has (source e) (nodes g) && has (target e) (nodes g)))%bool
                  then 1%nat else O)).
    apply list_sum_ext. intros e _. unfold selected_ends.
    destruct (has (source e) (nodes g) && has (target e) (nodes g))%bool.
    + rewrite <- (count_ends (source e) (target e) (map n_id selected) Hnd).
      rewrite map_map. apply list_sum_ext. intros node _.
      rewrite andb_true_r. reflexivity.
    + rewrite (list_sum_ext _ (fun _ => O)); [apply list_sum_zero|].
      intros node _. rewrite andb_false_r. reflexivity.
  - intros e Hs Ht Hne His Hit. unfold selected_ends. rewrite Hs, Ht. cbn [andb].
    assert (Hex : forall x, In x (map n_id selected) ->
              existsb (String.eqb x) (map n_id selected) = true).
    { intros x Hx. apply existsb_exists. exists x. split; [exact Hx|apply String.eqb_refl]. }
    rewrite (Hex _ His), (Hex _ Hit).
    apply String.eqb_neq in Hne. rewrite Hne. reflexivity.
Qed.

Lemma extractRelationships_witness :
  List.length (extractRelationships Samples.project_graph
                 (values (nodes Samples.project_graph)))
  = list_sum (map (selected_ends Samples.project_graph
                     (map n_id (values (nodes Samples.project_graph))))
                (edge_objects (edges Samples.project_graph)))
  /\ (forall e,
        has (source e) (nodes Samples.project_graph) = true ->
        has (target e) (nodes Samples.project_graph) = true ->
        source e <> target e ->
        In (source e) (map n_id (values (nodes Samples.project_graph))) ->
        In (target e) (map n_id (values (nodes Samples.project_graph))) ->
        selected_ends Samples.project_graph
          (map n_id (values (nodes Samples.project_graph))) e = 2%nat).
Proof.
  apply (extractRelationships_counts_selected_ends Samples.project_graph
           (values (nodes Samples.project_graph))).
  apply distinct_NoDup. vm_compute. reflexivity.
Defined.

(** ** Searches *)

Lemma relevance_positive q node r :
  relevance q node = Some (Ok r) -> 0 < r -> mentions q node = true.
Proof.
  unfold relevance, mentions. intros H Hr.
  destruct (includes q (toLowerCase (stringify (JObj (n_data node))))) eqn:Ed;
    [apply orb_true_r|].
  destruct (includes q (n_type node)); [reflexivity|].
  inversion H; subst. lia.
Qed.

Lemma score_nodes_mentions q ns : forall scored,
  score_nodes q ns = Some (Ok scored) ->
  forall n r, In (n, r) scored -> In n ns /\ mentions q n = true.
Proof.
  induction ns as [|node ns IH]; intros scored H n r Hin; cbn [score_nodes] in H.
  - inversion H; subst. destruct Hin.
  - destruct (relevance q node) as [[r0|e]|] eqn:Er; try discriminate.
    destruct (score_nodes q ns) as [[rest|e]|]; try discriminate.
    inversion H; subst scored; clear H.
    destruct (0 <? r0) eqn:E0.
    + destruct Hin as [Heq|Hin].
      * inversion Heq; subst. split; [now left|].
        apply Z.ltb_lt in E0. eapply relevance_positive; eassumption.
      * destruct (IH rest eq_refl n r Hin). split; [now right|assumption].
    + destruct (IH rest eq_refl n r Hin). split; [now right|assumption].
Qed.

Lemma searchNodes_mentions g query found :
  searchNodes g query = Some (Ok found) ->
  forall n, In n found ->
    In n (values (nodes g)) /\ mentions (toLowerCase query) n = true.
Proof.
  unfold searchNodes. intros H n Hn.
  destruct (score_nodes _ _) as [[scored|e]|] eqn:E; try discriminate.
  inversion H; subst found; clear H.
  apply in_map_iff in Hn. destruct Hn as ([n' r] & <- & Hin).
  eapply Permutation_in in Hin; [|apply sort_perm].
  eapply score_nodes_mentions; eassumption.
Qed.

(** X29. [generalSearch] looks for the keywords as one phrase: when it
    returns, it returns at most twenty results, and the node of each is
    a node of the graph that holds the keywords joined by single
    spaces, in lower case, in its type or in its serialized data; the
    relevance of a result is what [calculateRelevance] gives its node
    for the keywords. *)
Theorem generalSearch_looks_for_the_phrase g keywords results :
  generalSearch g keywords = Some (Ok results) ->
  (List.length results <= 20)%nat
  /\ forall r, In r results ->
       In (r_node r) (values (nodes g))
       /\ mentions (toLowerCase (join " " (map original keywords))) (r_node r) = true
       /\ r_relevance r = calculateRelevance (r_node r) keywords.
Proof.
  unfold generalSearch, queryString. intros H.
  destruct (searchNodes g _) as [[found|e]|] eqn:E; cbn [bindM ret] in H;
    try discriminate.
  inversion H; subst results; clear H.
  rewrite slice_0 by lia. change (Z.to_nat 20) with 20%nat.
  split; [rewrite length_map, length_firstn; lia|].
  intros r Hr. apply in_map_iff in Hr. destruct Hr as (n & <- & Hn).
  apply in_firstn in Hn. cbn [r_node r_relevance].
  destruct (searchNodes_mentions _ _ _ E n Hn). auto.
Qed.

Lemma generalSearch_witness :
  let keywords := [mkKeyword "return" "return"; mkKeyword "1" "1"] in
  let results :=
    match generalSearch Samples.project_graph keywords with
    | Some (Ok results) => results
    | _ => []
    end in
  (List.length results <= 20)%nat
  /\ forall r, In r results ->
       In (r_node r) (values (nodes Samples.project_graph))
       /\ mentions (toLowerCase (join " " (map original keywords))) (r_node r) = true
       /\ r_relevance r = calculateRelevance (r_node r) keywords.
Proof.
  apply (generalSearch_looks_for_the_phrase Samples.project_graph
           [mkKeyword "return" "return"; mkKeyword "1" "1"]
           match generalSearch Samples.project_graph
                   [mkKeyword "return" "return"; mkKeyword "1" "1"] with
           | Some (Ok results) => results
           | _ => []
           end).
  vm_compute. reflexivity.
Defined.

Lemma get_stored g node :
  wf g -> In node (values (nodes g)) -> get (n_id node) (nodes g) = Some node.
Proof.
  intros Hwf Hin. apply wf_spec in Hwf. destruct Hwf as (Hnd & Hkey & _).
  unfold values in Hin. apply in_map_iff in Hin. destruct Hin as ([k n] & Hn & Hin).
  cbn in Hn. subst n.
  rewrite List.Forall_forall in Hkey. pose proof (Hkey _ Hin) as Hk.
  unfold node_keyed in Hk. cbn in Hk. apply String.eqb_eq in Hk. rewrite Hk.
  clear Hkey Hk. revert Hnd Hin. generalize (nodes g) as m.
  induction m as [|[k' v'] m IH]; intros Hnd Hin; [destruct Hin|].
  cbn [get]. cbn [keys map fst] in Hnd. inversion Hnd as [|? ? Hk' Hnd']; subst.
  destruct Hin as [Heq|Hin].
  - inversion Heq; subst. rewrite String.eqb_refl. reflexivity.
  - destruct (String.eqb_spec k k') as [->|Hne].
    + exfalso. apply Hk'. change (In (fst (k', node)) (map fst m)).
      apply in_map. exact Hin.
    + apply IH; assumption.
Qed.

(** X30. In a well-formed graph where every edge [defines] leaves a file
    node, [searchClasses] returns class nodes of positive relevance and
    reports no method for any of them: the only [defines] edge at a
    class is the one that ends there, and its target, the class, is not
    a function. *)
Theorem searchClasses_reports_no_method g keywords :
  wf g ->
  defines_leave_files g = true ->
  forall r, In r (searchClasses g keywords) ->
    n_type (r_node r) = "class"
    /\ In (r_node r) (values (nodes g))
    /\ 0 < r_relevance r
    /\ r_methods r = Some [].
Proof.
  intros Hwf Hdef r Hr. unfold searchClasses in Hr.
  apply in_flat_map in Hr. destruct Hr as (node & Hnode & Hr).
  unfold findNodesByType in Hnode. apply filter_In in Hnode.
  destruct Hnode as [Hin Htype]. apply String.eqb_eq in Htype.
  cbv zeta in Hr. destruct (0 <? calculateRelevance node keywords) eqn:Erel;
    [|destruct Hr].
  destruct Hr as [<-|[]]. cbn [r_node r_relevance r_methods].
  split; [exact Htype|]. split; [exact Hin|]. split; [apply Z.ltb_lt, Erel|].
  f_equal. unfold methods_of. apply filter_none.
  intros m Hm. apply in_flat_map in Hm. destruct Hm as (e & He & Hm).
  unfold getNodeConnections in He. apply filter_In in He. destruct He as [He Hc].
  apply andb_true_iff in Hc. destruct Hc as [Hends Hrel].
  cbn [orb String.eqb] in Hrel.
  assert (Hrel' : String.eqb (relationship e) "defines" = true).
  { destruct (String.eqb "defines" EmptyString) eqn:Ee; [discriminate|exact Hrel]. }
  unfold defines_leave_files in Hdef. rewrite forallb_forall in Hdef.
  specialize (Hdef e He). rewrite Hrel' in Hdef. cbn [negb orb] in Hdef.
  pose proof (get_stored g node Hwf Hin) as Hget.
  assert (Htarget : target e = n_id node).
  { apply orb_true_iff in Hends. destruct Hends as [Hs|Ht].
    - apply String.eqb_eq in Hs. rewrite Hs, Hget, Htype in Hdef. discriminate.
    - apply String.eqb_eq in Ht. exact Ht. }
  rewrite Htarget, Hget in Hm. destruct Hm as [<-|[]].
  rewrite Htype. reflexivity.
Qed.

Lemma searchClasses_witness :
  searchClasses Samples.project_graph [mkKeyword "user" "user"] <> []
  /\ forall r, In r (searchClasses Samples.project_graph [mkKeyword "user" "user"]) ->
       n_type (r_node r) = "class"
       /\ In (r_node r) (values (nodes Samples.project_graph))
       /\ 0 < r_relevance r
       /\ r_methods r = Some [].
Proof.
  split; [vm_compute; discriminate|].
  apply (searchClasses_reports_no_method Samples.project_graph
           [mkKeyword "user" "user"]); vm_compute; reflexivity.
Defined.
